(** * Draco lazy loader: a shallow embedding of [lazy_loader.py]

    The development models [DracoLazyLoader] (register / get / schedule /
    unload) as state-passing functions over an explicit manager state, and
    the callers' threads as a step relation over the manager's lock.

    Conventions.
    - Time is an integer number of milliseconds: [time.time()] reads the
      field [clock], [time.sleep(0.1)] adds [100] to it, the 30 second
      ceiling is [30000] and [default_timeout = 60] is [60000].
    - A loader or unloader is a function on the environment [Env]: it may
      change the outside world [ext] and let time pass, and it either
      returns or raises an [Exception].  Callbacks do not call back into
      the manager.
    - [print] and [gc.collect()] have no effect on the manager and are
      left out; the field [calls] records every callback invocation. *)

From Stdlib Require Import ZArith List Bool Lia.
From stdpp Require Import base gmap strings list.
From Equations Require Import Equations.
From Stdlib Require Import Ascii.
From stdpp Require Import pretty.

Local Open Scope Z_scope.

(** ** Data model *)

Inductive LoadState : Type :=
| NOT_LOADED
| LOADING
| LOADED
| UNLOADING
| ERROR.

#[global] Instance LoadState_eq_dec : EqDecision LoadState.
Proof. solve_decision. Defined.

Section Model.

Context {Inst Exn W : Type}.

(** A Python value held in the ["instance"] slot: [None] or an object. *)
Inductive PyVal : Type :=
| PyNone
| PyObj (i : Inst).

(** What the callbacks see and change: wall-clock time and the rest of
    the process. *)
Record Env : Type := mkEnv { clock : Z; ext : W }.

(** A callback returns or raises.  [Exn] stands for the exceptions that
    [except Exception] catches.  A callback that leaves by [SystemExit] or
    [KeyboardInterrupt] is not covered: no handler of the manager runs
    then, and a component whose loader does so stays [LOADING]. *)
Definition LoaderFn : Type := Env -> (Exn + PyVal) * Env.
Definition UnloaderFn : Type := PyVal -> Env -> option Exn * Env.

(** The dict stored under [self.components[name]]. *)
Record Component : Type := mkComponent {
  loader : LoaderFn;
  unloader : option UnloaderFn;
  state : LoadState;
  instance : PyVal;
  memory_mb : Z;
  last_used : Z;
  access_count : Z
}.

(** A [threading.Timer(timeout, self._unload_if_idle, args=[name, timeout])];
    [finished] is the timer's event, set by [cancel()] and after the
    callback has run. *)
Record Timer : Type := mkTimer {
  interval : Z;
  arg_name : string;
  arg_timeout : Z;
  finished : bool
}.

Inductive Call : Type :=
| CallLoader (name : string)
| CallUnloader (name : string) (v : PyVal).

(** [self] together with the environment.  [components] keeps Python's
    insertion order, which [unload_all] iterates in. *)
Record State : Type := mkState {
  components : list (string * Component);
  unload_timers : gmap string Timer;
  default_timeout : Z;
  env : Env;
  calls : list Call
}.

(** What a method raises.  [KeyError] and [TimeoutError] are the
    exceptions of the manager's own [raise] statements (lines 56 and 69;
    [KeyError] is also what a subscript on a dict raises).  [Raised e] is
    the exception that a callback raised and that line 86 raises again as
    it is.  Its class is the callback's business: it may be a [KeyError]
    or a [TimeoutError] too, so a constructor tells where an exception
    comes from, not which class it has. *)
Inductive PyExn : Type :=
| KeyError (name : string)
| TimeoutError (name : string)
| Raised (e : Exn).

Inductive Result (A : Type) : Type :=
| Return (a : A)
| Raise (e : PyExn).
Arguments Return {A} a.
Arguments Raise {A} e.

(** ** The state-and-exception monad of the methods *)

Definition M (A : Type) : Type := State -> Result A * State.

Definition ret {A} (a : A) : M A := fun st => (Return a, st).
Definition raise {A} (e : PyExn) : M A := fun st => (Raise e, st).
Definition bind {A B} (m : M A) (k : A -> M B) : M B :=
  fun st =>
    match m st with
    | (Return a, st') => k a st'
    | (Raise e, st') => (Raise e, st')
    end.
Definition exec {A} (m : M A) (st : State) : State := snd (m st).

Notation "'let*' x := m 'in' k" := (bind m (fun x => k))
  (at level 10, x name, m at level 100, k at level 200).

(** ** Dictionary operations on [self.components] *)

Fixpoint lookup_comp (name : string) (l : list (string * Component))
  : option Component :=
  match l with
  | [] => None
  | (k, c) :: l' => if String.eqb k name then Some c else lookup_comp name l'
  end.

(** [d[name] = c]: replaces in place, or appends a new key. *)
Fixpoint store_comp (name : string) (c : Component)
  (l : list (string * Component)) : list (string * Component) :=
  match l with
  | [] => [(name, c)]
  | (k, c0) :: l' =>
      if String.eqb k name then (k, c) :: l'
      else (k, c0) :: store_comp name c l'
  end.

(** A write through the reference [comp = self.components[name]]. *)
Fixpoint write_comp (name : string) (c : Component)
  (l : list (string * Component)) : list (string * Component) :=
  match l with
  | [] => []
  | (k, c0) :: l' =>
      if String.eqb k name then (k, c) :: l'
      else (k, c0) :: write_comp name c l'
  end.

(** ** Field updates *)

Definition set_state (s : LoadState) (c : Component) : Component :=
  mkComponent (loader c) (unloader c) s (instance c) (memory_mb c)
    (last_used c) (access_count c).
Definition set_instance (v : PyVal) (c : Component) : Component :=
  mkComponent (loader c) (unloader c) (state c) v (memory_mb c)
    (last_used c) (access_count c).
(** [comp["last_used"] = time.time(); comp["access_count"] += 1] *)
Definition touch (now : Z) (c : Component) : Component :=
  mkComponent (loader c) (unloader c) (state c) (instance c) (memory_mb c)
    now (access_count c + 1).

Definition set_components (l : list (string * Component)) (st : State) : State :=
  mkState l (unload_timers st) (default_timeout st) (env st) (calls st).
Definition set_timers (t : gmap string Timer) (st : State) : State :=
  mkState (components st) t (default_timeout st) (env st) (calls st).
Definition set_env (e : Env) (st : State) : State :=
  mkState (components st) (unload_timers st) (default_timeout st) e (calls st).
Definition log_call (c : Call) (st : State) : State :=
  mkState (components st) (unload_timers st) (default_timeout st) (env st)
    (calls st ++ [c]).

Definition put_comp (name : string) (c : Component) (st : State) : State :=
  set_components (write_comp name c (components st)) st.

(** [timer.cancel()] *)
Definition cancel (t : Timer) : Timer :=
  mkTimer (interval t) (arg_name t) (arg_timeout t) true.

(** [time.sleep(0.1)] *)
Definition sleep_tick (st : State) : State :=
  set_env (mkEnv (clock (env st) + 100) (ext (env st))) st.

(** ** [__init__] and [register_component] *)

Definition init (e : Env) : State := mkState [] ∅ 60000 e [].

Definition register_component (name : string) (loader_func : LoaderFn)
    (unloader_func : option UnloaderFn) (estimated_memory_mb : Z) : M unit :=
  fun st =>
    (Return tt,
     set_components
       (store_comp name
          (mkComponent loader_func unloader_func NOT_LOADED PyNone
             estimated_memory_mb 0 0)
          (components st)) st).

(** ** [get_component] *)

(** Lines 61-62: cancel the pending countdown; the timer stays in the
    dict. *)
Definition cancel_timer (name : string) (st : State) : State :=
  set_timers (alter cancel name (unload_timers st)) st.

(** Lines 65-70, the polling loop.  [comp] is the dict the caller holds;
    nothing runs between two polls but [time.sleep], so its state is the
    one read at entry. *)
Equations? wait_while_loading (name : string) (comp : Component)
    (wait_start : Z) (st : State) : Result unit * State
    by wf (Z.to_nat (30100 - (clock (env st) - wait_start))) lt :=
  wait_while_loading name comp wait_start st
    with decide (state comp = LOADING) => {
    | right _ => (Return tt, st)
    | left _ with decide (30000 < clock (env st) - wait_start) => {
      | left _ => raise (TimeoutError name) st
      | right _ => wait_while_loading name comp wait_start (sleep_tick st) } }.
Proof. simpl. lia. Qed.

(** Line 73: [force_reload or comp["state"] in [NOT_LOADED, ERROR]] *)
Definition needs_load (force_reload : bool) (comp : Component) : bool :=
  force_reload
  || bool_decide (state comp = NOT_LOADED)
  || bool_decide (state comp = ERROR).

(** Line 74: [comp["state"] = LoadState.LOADING] *)
Definition begin_load (name : string) (comp : Component) (st : State) : State :=
  put_comp name (set_state LOADING comp) st.

(** Lines 75-86: the loader call and its two outcomes, a value or an
    [Exception] (see [LoaderFn]).  [comp] is the dict as [begin_load] left
    it. *)
Definition finish_load (name : string) (comp : Component) : M PyVal :=
  fun st =>
    let '(outcome, e') := loader comp (env st) in
    let st1 := log_call (CallLoader name) (set_env e' st) in
    match outcome with
    | inr instance =>
        (Return instance,
         put_comp name
           (touch (clock e') (set_state LOADED (set_instance instance comp)))
           st1)
    | inl e => (Raise (Raised e), put_comp name (set_state ERROR comp) st1)
    end.

(** Lines 88-90: the cached instance. *)
Definition reuse (name : string) (comp : Component) : M PyVal :=
  fun st =>
    (Return (instance comp), put_comp name (touch (clock (env st)) comp) st).

Definition load_or_reuse (name : string) (force_reload : bool)
    (comp : Component) : M PyVal :=
  if needs_load force_reload comp then
    fun st => finish_load name (set_state LOADING comp) (begin_load name comp st)
  else reuse name comp.

Definition get_component (name : string) (force_reload : bool) : M PyVal :=
  fun st =>
    match lookup_comp name (components st) with
    | None => raise (KeyError name) st
    | Some comp =>
        let st1 := cancel_timer name st in
        (let* _ := wait_while_loading name comp (clock (env st1)) in
         load_or_reuse name force_reload comp) st1
    end.

(** ** [schedule_unload]

    The timer that was stored under [name] is cancelled and then replaced
    in the dict, so it is gone from the model. *)

Definition schedule_unload (name : string) (timeout : option Z) : M unit :=
  fun st =>
    let timeout := match timeout with
                   | Some t => t
                   | None => default_timeout st
                   end in
    (Return tt,
     set_timers (<[name := mkTimer timeout name timeout false]> (unload_timers st)) st).

(** ** [unload_component] *)

Definition unload_component (name : string) : M unit :=
  fun st =>
    match lookup_comp name (components st) with
    | Some comp =>
        if bool_decide (state comp = LOADED) then
          match unloader comp with
          | Some unload =>
              let '(outcome, e') := unload (instance comp) (env st) in
              let st1 := log_call (CallUnloader name (instance comp)) (set_env e' st) in
              match outcome with
              | None =>
                  (Return tt,
                   put_comp name (set_state NOT_LOADED (set_instance PyNone comp)) st1)
              | Some _ => (Return tt, st1)
              end
          | None => (Return tt, st)
          end
        else (Return tt, st)
    | None => (Return tt, st)
    end.

(** ** [_unload_if_idle] *)

Definition _unload_if_idle (name : string) (timeout : Z) : M unit :=
  fun st =>
    match lookup_comp name (components st) with
    | None => (Return tt, st)
    | Some comp =>
        let idle_time := clock (env st) - last_used comp in
        if (timeout <=? idle_time) && bool_decide (state comp = LOADED)
        then unload_component name st
        else (Return tt, st)
    end.

(** The thread of a timer, once its wait is over ([threading.Timer.run] of
    Python's standard library): the callback runs with the timer's
    arguments unless the timer was cancelled, and the timer is finished
    afterwards. *)
Definition timer_fire (name : string) : M unit :=
  fun st =>
    match unload_timers st !! name with
    | Some t =>
        if finished t then (Return tt, st)
        else
          (let* _ := _unload_if_idle (arg_name t) (arg_timeout t) in
           fun st' =>
             (Return tt, set_timers (alter cancel name (unload_timers st')) st')) st
    | None => (Return tt, st)
    end.

(** ** [unload_all] *)

Fixpoint unload_each (names : list string) : M unit :=
  match names with
  | [] => ret tt
  | name :: rest => let* _ := unload_component name in unload_each rest
  end.

Definition unload_all : M unit :=
  fun st =>
    (let* _ := unload_each (map fst (components st)) in
     fun st' => (Return tt, set_timers ∅ st')) st.

(** ** Sequences of operations on one manager *)

Inductive Op : Type :=
| Register (name : string) (loader_func : LoaderFn)
    (unloader_func : option UnloaderFn) (estimated_memory_mb : Z)
| Acquire (name : string) (force_reload : bool)
| Schedule (name : string) (timeout : option Z)
| Fire (name : string)
| IdleCheck (name : string) (timeout : Z)
| Evict (name : string)
| EvictAll
| Outside (f : Env -> Env).

Definition run_op (op : Op) (st : State) : State :=
  match op with
  | Register name l u m => exec (register_component name l u m) st
  | Acquire name force => exec (get_component name force) st
  | Schedule name t => exec (schedule_unload name t) st
  | Fire name => exec (timer_fire name) st
  | IdleCheck name t => exec (_unload_if_idle name t) st
  | Evict name => exec (unload_component name) st
  | EvictAll => exec unload_all st
  | Outside f => set_env (f (env st)) st
  end.

Definition run_ops (ops : list Op) (st : State) : State :=
  fold_left (fun s op => run_op op s) ops st.

(** ** Callers as threads

    Every method body is one [with self.lock:] block, so a thread is
    either outside the lock or it owns it.  A thread that owns the lock
    stops at two places: between two polls of the wait loop, and at the
    loader call. *)

Inductive Pc : Type :=
| AtCall (name : string) (force_reload : bool)
| Polling (name : string) (force_reload : bool) (wait_start : Z)
| InLoader (name : string)
| Finished (r : Result PyVal).

Record Config : Type := mkConfig {
  shared : State;
  lock : option nat;
  threads : list Pc
}.

Definition holds_lock (pc : Pc) : bool :=
  match pc with
  | Polling _ _ _ | InLoader _ => true
  | AtCall _ _ | Finished _ => false
  end.

(** Line 54 blocks until the lock is free; inside, the owner runs. *)
Definition may_run (i : nat) (pc : Pc) (lk : option nat) : Prop :=
  match pc with
  | AtCall _ _ => lk = None
  | Polling _ _ _ | InLoader _ => lk = Some i
  | Finished _ => False
  end.

Definition dispatch (name : string) (force_reload : bool) (comp : Component)
    (st : State) : Pc * State :=
  if needs_load force_reload comp then (InLoader name, begin_load name comp st)
  else let '(r, st') := reuse name comp st in (Finished r, st').

Definition thread_step (pc : Pc) (st : State) : option (Pc * State) :=
  match pc with
  | AtCall name force_reload =>
      match lookup_comp name (components st) with
      | None => Some (Finished (Raise (KeyError name)), st)
      | Some comp =>
          let st1 := cancel_timer name st in
          if decide (state comp = LOADING)
          then Some (Polling name force_reload (clock (env st1)), st1)
          else Some (dispatch name force_reload comp st1)
      end
  | Polling name force_reload wait_start =>
      match lookup_comp name (components st) with
      | None => None
      | Some comp =>
          if decide (state comp = LOADING) then
            if decide (30000 < clock (env st) - wait_start)
            then Some (Finished (Raise (TimeoutError name)), st)
            else Some (Polling name force_reload wait_start, sleep_tick st)
          else Some (dispatch name force_reload comp st)
      end
  | InLoader name =>
      match lookup_comp name (components st) with
      | None => None
      | Some comp => let '(r, st') := finish_load name comp st in Some (Finished r, st')
      end
  | Finished _ => None
  end.

Inductive step : Config -> Config -> Prop :=
| step_thread (i : nat) (pc pc' : Pc) (st' : State) (cfg : Config) :
    threads cfg !! i = Some pc ->
    may_run i pc (lock cfg) ->
    thread_step pc (shared cfg) = Some (pc', st') ->
    step cfg
      (mkConfig st' (if holds_lock pc' then Some i else None)
         (<[i := pc']> (threads cfg))).

(** The scheduler lets thread [i] take its next step. *)
Definition run_thread (i : nat) (cfg : Config) : Config :=
  match threads cfg !! i with
  | Some pc =>
      match thread_step pc (shared cfg) with
      | Some (pc', st') =>
          mkConfig st' (if holds_lock pc' then Some i else None)
            (<[i := pc']> (threads cfg))
      | None => cfg
      end
  | None => cfg
  end.

(** [n] callers of [get_component(name)] on a manager in state [st]. *)
Definition callers (n : nat) (name : string) (st : State) : Config :=
  mkConfig st None (replicate n (AtCall name false)).

Definition all_finished (cfg : Config) : Prop :=
  Forall (fun pc => exists r, pc = Finished r) (threads cfg).

End Model.

Arguments PyVal : clear implicits.
Arguments Env : clear implicits.
Arguments LoaderFn : clear implicits.
Arguments UnloaderFn : clear implicits.
Arguments Component : clear implicits.
Arguments Call : clear implicits.
Arguments State : clear implicits.
Arguments PyExn : clear implicits.
Arguments Result : clear implicits.
Arguments M : clear implicits.
Arguments Op : clear implicits.
Arguments Pc : clear implicits.
Arguments Config : clear implicits.
Arguments Return {Exn A} a.
Arguments Raise {Exn A} e.

Notation "'let*' x := m 'in' k" := (bind m (fun x => k))
  (at level 10, x name, m at level 100, k at level 200).

(** ** Concrete components used in the scenarios

    Instances are integers, exceptions are messages, and the outside world
    is a counter that the loaders below advance on every call. *)

Module Scenario.

Definition Inst : Type := Z.
Definition Exn : Type := string.
Definition W : Type := Z.

(** Returns 1 on its first call, 2 on its second, and so on. *)
Definition counter_loader : LoaderFn Inst Exn W :=
  fun e => (inr (PyObj (ext e + 1)), mkEnv (clock e) (ext e + 1)).

(** Raises on its first call and succeeds afterwards. *)
Definition retry_loader : LoaderFn Inst Exn W :=
  fun e =>
    if ext e =? 0 then (inl "unavailable"%string, mkEnv (clock e) (ext e + 1))
    else (inr (PyObj (ext e)), mkEnv (clock e) (ext e + 1)).

(** Succeeds on its first call and raises afterwards. *)
Definition once_loader : LoaderFn Inst Exn W :=
  fun e =>
    if ext e =? 0 then (inr (PyObj 1), mkEnv (clock e) (ext e + 1))
    else (inl "unavailable"%string, mkEnv (clock e) (ext e + 1)).

(** A loader whose result is [None]. *)
Definition none_loader : LoaderFn Inst Exn W :=
  fun e => (inr PyNone, e).

(** Sleeps for one hour, then returns. *)
Definition slow_loader : LoaderFn Inst Exn W :=
  fun e => (inr (PyObj 7), mkEnv (clock e + 3600000) (ext e)).

Definition ok_unloader : UnloaderFn Inst Exn W :=
  fun _ e => (None, e).

Definition bad_unloader : UnloaderFn Inst Exn W :=
  fun _ e => (Some "release failed"%string, e).

(** Raises on its first call (world counter at most 1) and returns
    normally afterwards. *)
Definition moody_unloader : UnloaderFn Inst Exn W :=
  fun _ e =>
    if ext e <=? 1 then (Some "busy"%string, mkEnv (clock e) (ext e + 1))
    else (None, e).

Definition start : State Inst Exn W := init (mkEnv 0 0).

Definition registered (l : LoaderFn Inst Exn W)
    (u : option (UnloaderFn Inst Exn W)) : State Inst Exn W :=
  exec (register_component "model" l u 100) start.

Definition loaded (l : LoaderFn Inst Exn W)
    (u : option (UnloaderFn Inst Exn W)) : State Inst Exn W :=
  exec (get_component "model" false) (registered l u).

Definition at_time (t : Z) (st : State Inst Exn W) : State Inst Exn W :=
  set_env (mkEnv t (ext (env st))) st.

End Scenario.

(** ** Predicates used in the statements *)

Section Predicates.

Context {Inst Exn W : Type}.

(** A component that [unload_component] would act upon. *)
Definition evictable (comp : Component Inst Exn W) : Prop :=
  state comp = LOADED /\ unloader comp <> None.

(** The component registered under [k] is [NOT_LOADED] with no instance. *)
Definition released (k : string) (st : State Inst Exn W) : Prop :=
  exists comp, lookup_comp k (components st) = Some comp /\
               state comp = NOT_LOADED /\ instance comp = PyNone.

(** How many more steps a thread can take on the paths below: a caller
    enters and then possibly runs the loader. *)
Definition pc_weight (pc : Pc Inst Exn) : nat :=
  match pc with
  | AtCall _ _ => 2
  | Polling _ _ _ | InLoader _ => 1
  | Finished _ => 0
  end.

Definition weight (cfg : Config Inst Exn W) : nat :=
  list_sum (map pc_weight (threads cfg)).

(** The configurations that [n] callers of [get_component(name)] can
    reach from [st0], where [comp0] is registered under [name] and its
    loader, called in [st0]'s environment, returns [v] and leaves the
    environment [e1]: nobody has entered yet; caller [i] owns the lock
    and is about to run the loader; or the load is over. *)
Inductive phase (n : nat) (name : string) (st0 : State Inst Exn W)
    (comp0 : Component Inst Exn W) (v : PyVal Inst) (e1 : Env W)
  : Config Inst Exn W -> Prop :=
| phase_idle :
    phase n name st0 comp0 v e1 (callers n name st0)
| phase_busy (i : nat) :
    (i < n)%nat ->
    phase n name st0 comp0 v e1
      (mkConfig (begin_load name comp0 (cancel_timer name st0)) (Some i)
         (<[i := InLoader name]> (replicate n (AtCall name false))))
| phase_ready (st : State Inst Exn W) (ths : list (Pc Inst Exn))
    (comp : Component Inst Exn W) :
    lookup_comp name (components st) = Some comp ->
    state comp = LOADED ->
    instance comp = v ->
    env st = e1 ->
    calls st = calls st0 ++ [CallLoader name] ->
    length ths = n ->
    Forall (fun pc => pc = AtCall name false \/ pc = Finished (Return v)) ths ->
    phase n name st0 comp0 v e1 (mkConfig st None ths).

End Predicates.

(** * The rest of [lazy_loader.py] and the readers of its status *)

(** ** Python dicts with string keys, in insertion order *)

Section Dict.

Context {V : Type}.

(** [d.get(k)] *)
Fixpoint dict_get (k : string) (d : list (string * V)) : option V :=
  match d with
  | [] => None
  | (k', v) :: d' => if String.eqb k' k then Some v else dict_get k d'
  end.

(** [d[k] = v]: an existing key keeps its place, a new key goes last. *)
Fixpoint dict_set (k : string) (v : V) (d : list (string * V))
  : list (string * V) :=
  match d with
  | [] => [(k, v)]
  | (k', v') :: d' =>
      if String.eqb k' k then (k', v) :: d' else (k', v') :: dict_set k v d'
  end.

(** [del d[k]] for a key that is present. *)
Fixpoint dict_del (k : string) (d : list (string * V)) : list (string * V) :=
  match d with
  | [] => []
  | (k', v') :: d' =>
      if String.eqb k' k then d' else (k', v') :: dict_del k d'
  end.

End Dict.

(** ** [get_status] *)

(** The values found in a status entry: a string or a number. *)
Inductive StatusVal : Type :=
| SStr (s : string)
| SNum (z : Z).

#[global] Instance StatusVal_eq_dec : EqDecision StatusVal.
Proof. solve_decision. Defined.

(** [LoadState.value] *)
Definition load_state_value (s : LoadState) : string :=
  match s with
  | NOT_LOADED => "not_loaded"
  | LOADING => "loading"
  | LOADED => "loaded"
  | UNLOADING => "unloading"
  | ERROR => "error"
  end.

(** What [_show_memory_status] prints for one component. *)
Inductive MemoryLine : Type :=
| LineLoaded (idle : StatusVal)
| LineLoading
| LineNotLoaded.

Section Status.

Context {Inst Exn W : Type}.

(** Lines 145-149: the dict built for one component; [now] is what
    [time.time()] reads. *)
Definition status_entry (now : Z) (comp : Component Inst Exn W)
  : list (string * StatusVal) :=
  [("state"%string, SStr (load_state_value (state comp)));
   ("idle_seconds"%string,
    SNum (if 0 <? last_used comp then now - last_used comp else 0));
   ("access_count"%string, SNum (access_count comp))].

Definition get_status
  : M Inst Exn W (list (string * list (string * StatusVal))) :=
  fun st =>
    (Return
       (fold_left
          (fun status item =>
             dict_set (fst item) (status_entry (clock (env st)) (snd item)) status)
          (components st) []),
     st).

(** [cleanup] *)
Definition cleanup : M Inst Exn W unit := unload_all.

(** [d[k]] on a Python dict: the value, or [KeyError]. *)
Definition subscript {V : Type} (d : list (string * V)) (k : string)
  : Result Exn V :=
  match dict_get k d with
  | Some v => Return v
  | None => Raise (KeyError k)
  end.

(** [gui.py], lines 167-170, the loop of the [memory] command: for every
    entry whose state is ['loaded'] it reads [idle_seconds] and
    [memory_mb].  The result lists what one text line is made of: name,
    memory and idle time. *)
Fixpoint gui_memory_rows (status : list (string * list (string * StatusVal)))
  : Result Exn (list (string * StatusVal * StatusVal)) :=
  match status with
  | [] => Return []
  | (name, comp) :: rest =>
      match subscript comp "state" with
      | Raise e => Raise e
      | Return s =>
          if decide (s = SStr "loaded") then
            match subscript comp "idle_seconds" with
            | Raise e => Raise e
            | Return idle =>
                match subscript comp "memory_mb" with
                | Raise e => Raise e
                | Return memory =>
                    match gui_memory_rows rest with
                    | Raise e => Raise e
                    | Return rows => Return ((name, memory, idle) :: rows)
                    end
                end
            end
          else gui_memory_rows rest
      end
  end.

(** [gui.py], lines 160-172: the [memory] command on the manager.  A
    raised exception is the one that the handler's [except] clause turns
    into the chat line ["Error: ..."]. *)
Definition gui_memory_command
  : M Inst Exn W (list (string * StatusVal * StatusVal)) :=
  fun st =>
    match get_status st with
    | (Return status, st') => (gui_memory_rows status, st')
    | (Raise e, st') => (Raise e, st')
    end.

(** [main_final.py], lines 418-426: the loop of [_show_memory_status];
    the result lists the printed lines. *)
Fixpoint show_memory_lines (status : list (string * list (string * StatusVal)))
  : Result Exn (list (string * MemoryLine)) :=
  match status with
  | [] => Return []
  | (name, comp) :: rest =>
      match subscript comp "state" with
      | Raise e => Raise e
      | Return s =>
          match subscript comp "idle_seconds" with
          | Raise e => Raise e
          | Return idle =>
              let line :=
                if decide (s = SStr "loaded") then LineLoaded idle
                else if decide (s = SStr "loading") then LineLoading
                else LineNotLoaded in
              match show_memory_lines rest with
              | Raise e => Raise e
              | Return lines => Return ((name, line) :: lines)
              end
          end
      end
  end.

Definition show_memory_status : M Inst Exn W (list (string * MemoryLine)) :=
  fun st =>
    match get_status st with
    | (Return status, st') => (show_memory_lines status, st')
    | (Raise e, st') => (Raise e, st')
    end.

(** The name an operation is about, if it is about one. *)
Definition op_name (op : Op Inst Exn W) : option string :=
  match op with
  | Register name _ _ _ | Acquire name _ | Schedule name _
  | IdleCheck name _ | Evict name => Some name
  | Fire _ | EvictAll | Outside _ => None
  end.

(** Operations that may replace the instance registered under [name]
    by design: a new registration and a forced reload. *)
Definition replaces (name : string) (op : Op Inst Exn W) : Prop :=
  match op with
  | Register name' _ _ _ => name' = name
  | Acquire name' force_reload => name' = name /\ force_reload = true
  | _ => False
  end.

End Status.


(** ** Predicates on configurations of threads *)

Section ThreadPredicates.

Context {Inst Exn W : Type}.

(** The lock field names the one thread that is inside a method body. *)
Definition lock_consistent (cfg : Config Inst Exn W) : Prop :=
  forall i pc, threads cfg !! i = Some pc ->
    (holds_lock pc = true <-> lock cfg = Some i).

(** A caller that is done because the loader raised. *)
Definition failed_caller (pc : Pc Inst Exn) : Prop :=
  exists x, pc = Finished (Raise (Raised x)).

Definition is_finished (pc : Pc Inst Exn) : nat :=
  match pc with
  | Finished _ => 1
  | _ => 0
  end.

(** The configurations that callers of [get_component(name)] reach when
    the loader of the component raises every time: between two attempts,
    or with caller [i] about to run the loader.  The log has one loader
    call per caller that is done. *)
Inductive retry_phase (name : string) (st0 : State Inst Exn W)
    (comp0 : Component Inst Exn W) : Config Inst Exn W -> Prop :=
| retry_quiet (st : State Inst Exn W) (ths : list (Pc Inst Exn))
    (comp : Component Inst Exn W) :
    lookup_comp name (components st) = Some comp ->
    state comp = NOT_LOADED \/ state comp = ERROR ->
    loader comp = loader comp0 ->
    calls st =
      calls st0 ++ replicate (list_sum (map is_finished ths)) (CallLoader name) ->
    Forall (fun pc => pc = AtCall name false \/ failed_caller pc) ths ->
    retry_phase name st0 comp0 (mkConfig st None ths)
| retry_busy (i : nat) (st : State Inst Exn W) (ths : list (Pc Inst Exn))
    (comp : Component Inst Exn W) :
    lookup_comp name (components st) = Some comp ->
    state comp = LOADING ->
    loader comp = loader comp0 ->
    calls st =
      calls st0 ++ replicate (list_sum (map is_finished ths)) (CallLoader name) ->
    ths !! i = Some (InLoader name) ->
    (forall j pc, j <> i -> ths !! j = Some pc ->
       pc = AtCall name false \/ failed_caller pc) ->
    retry_phase name st0 comp0 (mkConfig st (Some i) ths).

End ThreadPredicates.


(** * The configuration: [config.py]

    [DracoConfig.config] is a dict of dicts.  A value in it is a dict or
    something else ([str], numbers, [bool], [None], a list: what
    [json.load] and the defaults produce); the functions below only ask
    whether a value is a dict, so everything else is a [Leaf]. *)

Module Config.

Section Values.

Context {A : Type}.

#[local] Set Warnings "-register-all".

Inductive Value : Type :=
| Leaf (a : A)
| Dict (d : list (string * Value)).

(** [key.split(".")]: the text before the first dot, and the rest split
    again; the result is never empty. *)
Fixpoint split_parts (sep : Ascii.ascii) (s : string) : string * list string :=
  match s with
  | EmptyString => (EmptyString, [])
  | String c s' =>
      let (w, ws) := split_parts sep s' in
      if Ascii.eqb c sep then (EmptyString, w :: ws) else (String c w, ws)
  end.

Definition split (sep : Ascii.ascii) (s : string) : list string :=
  let (w, ws) := split_parts sep s in w :: ws.

(** Lines 238-244 of [get], the walk along the keys. *)
Fixpoint get_keys (keys : list string) (value default : Value) : Value :=
  match keys with
  | [] => value
  | k :: keys' =>
      match value with
      | Dict d =>
          match dict_get k d with
          | Some v => get_keys keys' v default
          | None => default
          end
      | Leaf _ => default
      end
  end.

Definition get (config : Value) (key : string) (default : Value) : Value :=
  get_keys (split "."%char key) config default.

(** Lines 251-256 of [set]: [k] is the current key and [rest] the keys
    after it.  [None] is the [TypeError] that Python raises as soon as
    the walk meets a value that is not a dict (membership test, item
    access or item assignment on it); nothing has been assigned by then,
    because dicts are created only from the first missing key on. *)
Fixpoint set_keys (k : string) (rest : list string) (value config : Value)
  {struct rest} : option Value :=
  match config with
  | Leaf _ => None
  | Dict d =>
      match rest with
      | [] => Some (Dict (dict_set k value d))
      | k' :: rest' =>
          let inner := match dict_get k d with
                       | Some v => v
                       | None => Dict []
                       end in
          match set_keys k' rest' value inner with
          | Some inner' => Some (Dict (dict_set k inner' d))
          | None => None
          end
      end
  end.

Definition set (config : Value) (key : string) (value : Value) : option Value :=
  let (w, ws) := split_parts "."%char key in set_keys w ws value config.

(** [_deep_merge(base, update)], returning the merged [base]. *)
Fixpoint merge_value (base : list (string * Value)) (update : Value)
  {struct update} : list (string * Value) :=
  match update with
  | Leaf _ => base
  | Dict u =>
      (fix merge_items (base : list (string * Value))
           (items : list (string * Value)) {struct items}
         : list (string * Value) :=
         match items with
         | [] => base
         | (key, value) :: items' =>
             merge_items
               match dict_get key base, value with
               | Some (Dict b), Dict _ => dict_set key (Dict (merge_value b value)) base
               | _, _ => dict_set key value base
               end
               items'
         end) base u
  end.

Definition _deep_merge (base update : list (string * Value))
  : list (string * Value) :=
  merge_value base (Dict update).

(** What the subscripts of [__init__] can raise. *)
Inductive InitError : Type :=
| InitKeyError (k : string)
| InitTypeError.

(** [config[k1][k2] = v]: the inner dict is changed in place. *)
Definition set_item2 (k1 k2 : string) (v : Value)
    (config : list (string * Value)) : InitError + list (string * Value) :=
  match dict_get k1 config with
  | None => inl (InitKeyError k1)
  | Some (Leaf _) => inl InitTypeError
  | Some (Dict inner) => inr (dict_set k1 (Dict (dict_set k2 v inner)) config)
  end.

(** [__init__], what lines 32 and 41-49 do to [self.config]; the lines in
    between look for the storage and leave it alone.  [defaults] is the
    result of [_load_default_config] and [model_hashes] that of
    [_load_model_hashes].  [user_config] is the dict read from the
    configuration file: [None] when there is no file, or when reading or
    merging it raised, which [_load_user_config] catches (a dict is
    merged without exception, anything else is not merged at all).
    [true_] and [sixty] are the values [True] and [60]. *)
Definition init_config (defaults : list (string * Value))
    (user_config : option (list (string * Value))) (model_hashes : Value)
    (true_ sixty : A) : InitError + list (string * Value) :=
  let config := match user_config with
                | Some update => _deep_merge defaults update
                | None => defaults
                end in
  match set_item2 "ai" "model_hashes" model_hashes config with
  | inl e => inl e
  | inr config1 =>
      match set_item2 "performance" "lazy_loading" (Leaf true_) config1 with
      | inl e => inl e
      | inr config2 =>
          set_item2 "performance" "model_unload_timeout" (Leaf sixty) config2
      end
  end.

(** The update binds [k] to something that is not a dict. *)
Definition overrides_with_scalar (k : string)
    (user_config : option (list (string * Value))) : Prop :=
  exists update a, user_config = Some update /\ dict_get k update = Some (Leaf a).

End Values.

Arguments Value : clear implicits.

End Config.


(** ** More concrete inputs *)

Module Examples.

(** A loader that raises every time. *)
Definition failing_loader : LoaderFn Scenario.Inst Scenario.Exn Scenario.W :=
  fun e => (inl "unavailable"%string, mkEnv (clock e) (ext e + 1)).

(** A configuration with strings as its non-dict values. *)
Definition small_config : Config.Value string :=
  Config.Dict
    [("version"%string, Config.Leaf "V15.3.0"%string);
     ("ai"%string,
      Config.Dict
        [("core_model"%string, Config.Leaf "gemma"%string);
         ("temperature"%string, Config.Leaf "0.7"%string)])].

Definition user_config : list (string * Config.Value string) :=
  [("ai"%string, Config.Dict [("temperature"%string, Config.Leaf "0.2"%string)]);
   ("gui"%string, Config.Dict [("theme"%string, Config.Leaf "light"%string)])].

(** A user file that turns lazy loading off and sets the timeout to one
    hour. *)
Definition eager_config : list (string * Config.Value string) :=
  [("performance"%string,
    Config.Dict [("lazy_loading"%string, Config.Leaf "False"%string);
                 ("model_unload_timeout"%string, Config.Leaf "3600"%string)])].

Definition default_config : list (string * Config.Value string) :=
  [("ai"%string, Config.Dict [("core_model"%string, Config.Leaf "gemma"%string)]);
   ("performance"%string,
    Config.Dict [("lazy_loading"%string, Config.Leaf "True"%string);
                 ("model_unload_timeout"%string, Config.Leaf "60"%string)])].

End Examples.


(** * The callers of the manager

    The modules share one manager ([get_lazy_loader] hands out a single
    [DracoLazyLoader]), so a caller is a function on its own fields and on
    the manager's state. *)

(** ** [ai_core_fixed.py]: [process_query] *)

Section AICore.

Context {Inst Exn W Text Danger : Type}.

(** The dict that [process_query] returns: the one built on lines 199-208,
    or the one of the [except] clause.  The session is fixed, so a request
    id is the request count. *)
Inductive QueryResult : Type :=
| QueryDone (response : Text) (processing_time : Z) (request_id : Z)
    (danger_check : Danger)
| QueryError (e : PyExn Exn) (processing_time : Z) (request_id : Z).

(** Lines 166-224.  [generate] stands for lines 179-190: the prompt, the
    call of the model and the extraction of the text, any of which may
    raise; [check_dangerous_command] is the configuration's.  The second
    component of the result is [self.request_count]. *)
Definition process_query
    (generate : PyVal Inst -> Env W -> (Exn + Text) * Env W)
    (check_dangerous_command : Text -> Exn + Danger)
    (request_count : Z) (st : State Inst Exn W)
  : QueryResult * Z * State Inst Exn W :=
  let start_time := clock (env st) in
  let request_count := request_count + 1 in
  let failed (e : PyExn Exn) (st' : State Inst Exn W) :=
    (QueryError e (clock (env st') - start_time) request_count,
     request_count, st') in
  match get_component "chat_model" false st with
  | (Raise e, st1) => failed e st1
  | (Return model, st1) =>
      let '(outcome, e2) := generate model (env st1) in
      let st2 := set_env e2 st1 in
      match outcome with
      | inl x => failed (Raised x) st2
      | inr response_text =>
          let processing_time := clock e2 - start_time in
          let st3 := exec (schedule_unload "chat_model" (Some 60000)) st2 in
          match check_dangerous_command response_text with
          | inl x => failed (Raised x) st3
          | inr danger_check =>
              (QueryDone response_text processing_time request_count
                 danger_check,
               request_count, st3)
          end
      end
  end.

(** The timer stored under [name] has neither run nor been cancelled. *)
Definition live_timer (name : string) (st : State Inst Exn W) : Prop :=
  exists t, unload_timers st !! name = Some t /\ finished t = false.


End AICore.

Arguments QueryResult : clear implicits.

(** ** [ai_core_fixed.py]: [_verify_model_integrity] *)

(** [_load_model_hashes] of [config.py], lines 62-67: the table used when
    there is no readable [model_hashes.json]. *)
Definition fallback_hashes : list (string * string) :=
  [("gemma-2-2b-it-Q4_K_M", "a1b2c3d4e5f67890abcdef1234567890");
   ("moondream2", "f1e2d3c4b5a67890fedcba9876543210");
   ("whisper-tiny", "1234567890abcdef1234567890abcdef");
   ("yolov4-tiny", "7890abcdef1234567890abcdef123456")]%string.

(** Lines 135-164.  [hashes] is the table under [ai.model_hashes]; [file]
    is the content of the model file, [None] when it cannot be read (the
    exception ends in the [except] clause).  The file is hashed in blocks,
    which gives the digest of the whole content. *)
Definition _verify_model_integrity
    (sha256_hexdigest : list Byte.byte -> string)
    (hashes : list (string * string)) (file : option (list Byte.byte))
    (model_name : string) : bool :=
  match dict_get model_name hashes with
  | None => true
  | Some expected_hash =>
      if String.eqb expected_hash "" || String.prefix "to_be_filled" expected_hash
      then true
      else
        match file with
        | None => true
        | Some data => String.eqb expected_hash (sha256_hexdigest data)
        end
  end.

(** ** [search_agent.py]: the cache of search results *)

(** One result as [search] stores it. *)
Record Hit : Type := mkHit {
  title : string;
  url : string;
  snippet : string;
  source : string
}.

(** A cache entry.  [search] writes all four items; an entry that
    [_load_cache] read from the cache file may lack some, and the code
    reads ["timestamp"] with [.get] and ["results"] with a subscript. *)
Record Entry : Type := mkEntry {
  entry_query : option string;
  results : option (list Hit);
  timestamp : option Z;
  result_count : option Z
}.

(** The agent's own fields: [self.cache] and [self.last_search_time]. *)
Record Agent : Type := mkAgent {
  cache : list (string * Entry);
  last_search_time : Z
}.

(** The age counters of [get_cache_stats]. *)
Record AgeDistribution : Type := mkAges {
  last_hour : Z;
  last_day : Z;
  older : Z
}.

Section SearchAgent.

Context {Inst Exn W : Type}.

(** What [search] returns: the dict of a cache hit, of a search that was
    made, or of the [except] clause. *)
Inductive SearchResult : Type :=
| FromCache (query : string) (results : list Hit) (cache_age : Z)
| Searched (query : string) (results : list Hit) (result_count : Z)
| SearchFailed (e : PyExn Exn) (query : string).

(** [entry.get("timestamp", 0)] *)
Definition timestamp_or_0 (entry : Entry) : Z :=
  match timestamp entry with
  | Some t => t
  | None => 0
  end.

(** [self.min_search_interval = 2.0] *)
Definition min_search_interval : Z := 2000.

(** [time.sleep(d)] *)
Definition sleep (d : Z) (st : State Inst Exn W) : State Inst Exn W :=
  set_env (mkEnv (clock (env st) + d) (ext (env st))) st.

(** Lines 128-130: rate limiting. *)
Definition rate_limit (a : Agent) (st : State Inst Exn W) : State Inst Exn W :=
  let current_time := clock (env st) in
  if current_time - last_search_time a <? min_search_interval
  then sleep (min_search_interval - (current_time - last_search_time a)) st
  else st.

(** [f"{query}_{max_results}"] *)
Definition cache_key (query : string) (max_results : Z) : string :=
  (query ++ "_" ++ pretty max_results)%string.

(** Lines 162-167: one result of the engine, a dict of strings, as it is
    stored. *)
Definition to_hit (result : list (string * string)) : Hit :=
  mkHit (default ""%string (dict_get "title" result))
        (default ""%string (dict_get "href" result))
        (default ""%string (dict_get "body" result))
        "duckduckgo".

(** Lines 151-199: the search proper.  [text] stands for
    [search_engine.text(query, max_results=max_results)] and the iteration
    over what it returns.  [_save_cache] writes the cache file and swallows
    its exceptions: it changes the outside world and takes time. *)
Definition search_engine_query
    (text : PyVal Inst -> string -> Z -> Env W
            -> (Exn + list (list (string * string))) * Env W)
    (_save_cache : list (string * Entry) -> Env W -> Env W)
    (query : string) (max_results : Z) (a : Agent) (st : State Inst Exn W)
  : SearchResult * Agent * State Inst Exn W :=
  match get_component "search_engine" false st with
  | (Raise e, st1) => (SearchFailed e query, a, st1)
  | (Return search_engine, st1) =>
      let '(outcome, e2) := text search_engine query max_results (env st1) in
      match outcome with
      | inl x => (SearchFailed (Raised x) query, a, set_env e2 st1)
      | inr search_results =>
          let results := map to_hit search_results in
          let entry := mkEntry (Some query) (Some results) (Some (clock e2))
                         (Some (Z.of_nat (length results))) in
          let cache' := dict_set (cache_key query max_results) entry (cache a) in
          let e3 := _save_cache cache' e2 in
          let st3 := exec (schedule_unload "search_engine" (Some 30000))
                       (set_env e3 st1) in
          (Searched query results (Z.of_nat (length results)),
           mkAgent cache' (clock e3), st3)
      end
  end.

(** Lines 123-199.  [cache_duration] is what
    [self.config.get("search.cache_duration", 3600)] gives.  The cache
    lookup is outside the [try], so its [KeyError] reaches the caller. *)
Definition search
    (text : PyVal Inst -> string -> Z -> Env W
            -> (Exn + list (list (string * string))) * Env W)
    (_save_cache : list (string * Entry) -> Env W -> Env W)
    (cache_duration : Z)
    (query : string) (max_results : Z) (use_cache : bool)
    (a : Agent) (st : State Inst Exn W)
  : Result Exn SearchResult * Agent * State Inst Exn W :=
  let st0 := rate_limit a st in
  let fresh_search :=
    let '(r, a', st') :=
      search_engine_query text _save_cache query max_results a st0 in
    (Return r, a', st') in
  if use_cache then
    match dict_get (cache_key query max_results) (cache a) with
    | Some cached_result =>
        let cache_age := clock (env st0) - timestamp_or_0 cached_result in
        if cache_age <? cache_duration then
          match results cached_result with
          | Some rs => (Return (FromCache query rs cache_age), a, st0)
          | None => (Raise (KeyError "results"), a, st0)
          end
        else fresh_search
    | None => fresh_search
    end
  else fresh_search.

(** Lines 108-121: [_clean_cache].  The expired keys are collected first
    and deleted afterwards. *)
Fixpoint expired_keys (cutoff_time : Z) (c : list (string * Entry))
  : list string :=
  match c with
  | [] => []
  | (key, entry) :: c' =>
      if timestamp_or_0 entry <? cutoff_time
      then key :: expired_keys cutoff_time c'
      else expired_keys cutoff_time c'
  end.

Definition _clean_cache (cache_duration : Z) (a : Agent)
    (st : State Inst Exn W) : Agent :=
  let cutoff_time := clock (env st) - cache_duration in
  mkAgent
    (fold_left (fun d0 key => dict_del key d0)
       (expired_keys cutoff_time (cache a)) (cache a))
    (last_search_time a).

(** Lines 301-309: one round of the loop of [get_cache_stats]. *)
Definition count_age (now : Z) (d : AgeDistribution) (entry : Entry)
  : AgeDistribution :=
  let age := now - timestamp_or_0 entry in
  if age <? 3600000 then mkAges (last_hour d + 1) (last_day d) (older d)
  else if age <? 86400000 then mkAges (last_hour d) (last_day d + 1) (older d)
  else mkAges (last_hour d) (last_day d) (older d + 1).

(** Lines 288-315: [total_entries] and [age_distribution]. *)
Definition get_cache_stats (a : Agent) (st : State Inst Exn W)
  : Z * AgeDistribution :=
  (Z.of_nat (length (cache a)),
   fold_left (count_age (clock (env st))) (map snd (cache a)) (mkAges 0 0 0)).

(** An entry that [_clean_cache] does not delete. *)
Definition kept (cutoff_time : Z) (item : string * Entry) : bool :=
  negb (timestamp_or_0 (snd item) <? cutoff_time).

(** [now - entry.get("timestamp", 0)] *)
Definition age_of (now : Z) (item : string * Entry) : Z :=
  now - timestamp_or_0 (snd item).


End SearchAgent.

Arguments SearchResult : clear implicits.


(** ** Concrete callers *)

Module CallerExamples.

Import Scenario.

(** The chat model as [ai_core_fixed.py] registers it. *)
Definition chat_registered : State Inst Exn W :=
  exec (register_component "chat_model" counter_loader (Some ok_unloader) 1600)
    start.

(** A model that answers after a second and a half. *)
Definition answer : PyVal Inst -> Env W -> (Exn + string) * Env W :=
  fun _ e => (inr "hello"%string, mkEnv (clock e + 1500) (ext e)).


Definition no_danger : string -> Exn + bool :=
  fun _ => inr false.

(** The search engine as [search_agent.py] registers it. *)
Definition engine_registered : State Inst Exn W :=
  exec (register_component "search_engine" counter_loader None 10) start.

(** An engine that finds one page in 300 ms. *)
Definition one_page : PyVal Inst -> string -> Z -> Env W
    -> (Exn + list (list (string * string))) * Env W :=
  fun _ _ _ e =>
    (inr [[("title", "Rocq"); ("href", "https://rocq-prover.org")]]%string,
     mkEnv (clock e + 300) (ext e)).

(** Writing the cache file takes 5 ms. *)
Definition write_file : list (string * Entry) -> Env W -> Env W :=
  fun _ e => mkEnv (clock e + 5) (ext e).

Definition no_cache : Agent := mkAgent [] 0.

(** A cache read from a file: an entry of the first second, an entry
    without timestamp, and an entry written at 9000 s. *)
Definition old_cache : Agent :=
  mkAgent
    [("a_5", mkEntry (Some "a") (Some []) (Some 1000) (Some 0));
     ("b_5", mkEntry (Some "b") (Some []) None None);
     ("c_5", mkEntry (Some "c") (Some []) (Some 9000000) (Some 0))]%string
    0.

End CallerExamples.


(** * Properties *)

Section Properties.

Context {Inst Exn W : Type}.

Implicit Types (st : State Inst Exn W) (comp : Component Inst Exn W).
Implicit Types (l : list (string * Component Inst Exn W)).
Implicit Types (name : string) (v : PyVal Inst) (e : Env W).

(** ** The component dictionary *)

Lemma lookup_write_eq name comp comp' l :
  lookup_comp name l = Some comp ->
  lookup_comp name (write_comp name comp' l) = Some comp'.
Proof.
  induction l as [|[k c] l IH]; simpl; [discriminate|].
  destruct (String.eqb k name) eqn:E; simpl; rewrite E; auto.
Qed.

Lemma lookup_write_ne name name' comp' l :
  name <> name' ->
  lookup_comp name' (write_comp name comp' l) = lookup_comp name' l.
Proof.
  intros Hne. induction l as [|[k c] l IH]; simpl; [reflexivity|].
  destruct (String.eqb k name) eqn:E; simpl.
  - apply String.eqb_eq in E. subst k.
    destruct (String.eqb name name') eqn:E'; [|reflexivity].
    apply String.eqb_eq in E'. contradiction.
  - rewrite IH. reflexivity.
Qed.

Lemma write_absent name comp' l :
  lookup_comp name l = None -> write_comp name comp' l = l.
Proof.
  induction l as [|[k c] l IH]; simpl; [reflexivity|].
  destruct (String.eqb k name); [discriminate|].
  intros H. rewrite IH; auto.
Qed.

Lemma lookup_store_eq name comp' l :
  lookup_comp name (store_comp name comp' l) = Some comp'.
Proof.
  induction l as [|[k c] l IH]; simpl.
  - rewrite String.eqb_refl. reflexivity.
  - destruct (String.eqb k name) eqn:E; simpl; rewrite E; auto.
Qed.

Lemma lookup_store_ne name name' comp' l :
  name <> name' ->
  lookup_comp name' (store_comp name comp' l) = lookup_comp name' l.
Proof.
  intros Hne. induction l as [|[k c] l IH]; simpl.
  - destruct (String.eqb name name') eqn:E; [|reflexivity].
    apply String.eqb_eq in E. contradiction.
  - destruct (String.eqb k name) eqn:E; simpl.
    + apply String.eqb_eq in E. subst k.
      destruct (String.eqb name name') eqn:E'; [|reflexivity].
      apply String.eqb_eq in E'. contradiction.
    + rewrite IH. reflexivity.
Qed.

Lemma lookup_put name name' comp' st :
  lookup_comp name' (components (put_comp name comp' st)) =
    if decide (name = name') then
      match lookup_comp name (components st) with
      | Some _ => Some comp'
      | None => None
      end
    else lookup_comp name' (components st).
Proof.
  unfold put_comp. simpl. destruct (decide (name = name')) as [<-|Hne].
  - destruct (lookup_comp name (components st)) eqn:E.
    + eapply lookup_write_eq; eauto.
    + rewrite write_absent; auto.
  - apply lookup_write_ne; auto.
Qed.

(** ** The polling loop *)

Lemma wait_not_loading name comp ws st :
  state comp <> LOADING ->
  wait_while_loading name comp ws st = (Return tt, st).
Proof.
  intros H. simp wait_while_loading.
  destruct (decide (state comp = LOADING)); [contradiction|reflexivity].
Qed.

(** ** [get_component] on a component that is not being loaded *)

Lemma get_component_load name force_reload comp st :
  lookup_comp name (components st) = Some comp ->
  state comp <> LOADING ->
  needs_load force_reload comp = true ->
  get_component name force_reload st =
    finish_load name (set_state LOADING comp)
      (begin_load name comp (cancel_timer name st)).
Proof.
  intros Hl Hs Hn. unfold get_component, bind. rewrite Hl.
  rewrite wait_not_loading by assumption.
  unfold load_or_reuse. rewrite Hn. reflexivity.
Qed.

Lemma get_component_reuse name comp st :
  lookup_comp name (components st) = Some comp ->
  state comp <> LOADING ->
  needs_load false comp = false ->
  get_component name false st =
    (Return (instance comp),
     put_comp name (touch (clock (env st)) comp) (cancel_timer name st)).
Proof.
  intros Hl Hs Hn. unfold get_component, bind. rewrite Hl.
  rewrite wait_not_loading by assumption.
  unfold load_or_reuse. rewrite Hn. reflexivity.
Qed.

Lemma needs_load_loaded comp :
  state comp = LOADED -> needs_load false comp = false.
Proof. intros H. unfold needs_load. rewrite H. reflexivity. Qed.

Lemma finish_load_ok name comp st v e' :
  loader comp (env st) = (inr v, e') ->
  finish_load name comp st =
    (Return v,
     put_comp name (touch (clock e') (set_state LOADED (set_instance v comp)))
       (log_call (CallLoader name) (set_env e' st))).
Proof. intros H. unfold finish_load. rewrite H. reflexivity. Qed.

Lemma finish_load_raise name comp st x e' :
  loader comp (env st) = (inl x, e') ->
  finish_load name comp st =
    (Raise (Raised x),
     put_comp name (set_state ERROR comp)
       (log_call (CallLoader name) (set_env e' st))).
Proof. intros H. unfold finish_load. rewrite H. reflexivity. Qed.

(** A load that succeeds: the caller gets the loader's value, the
    component is [LOADED] with that value, and the only callback that ran
    is the loader. *)
Lemma get_component_load_ok name force_reload comp st v e' :
  lookup_comp name (components st) = Some comp ->
  state comp <> LOADING ->
  needs_load force_reload comp = true ->
  loader comp (env st) = (inr v, e') ->
  exists st',
    get_component name force_reload st = (Return v, st') /\
    calls st' = calls st ++ [CallLoader name] /\
    env st' = e' /\
    lookup_comp name (components st') =
      Some (touch (clock e') (set_state LOADED (set_instance v comp))).
Proof.
  intros Hl Hs Hn Hld.
  rewrite (get_component_load _ _ _ _ Hl Hs Hn).
  erewrite finish_load_ok by exact Hld.
  eexists; split; [reflexivity|]. split; [reflexivity|]. split; [reflexivity|].
  rewrite lookup_put. rewrite decide_True by reflexivity.
  simpl. erewrite lookup_write_eq by exact Hl. reflexivity.
Qed.

(** A load that fails: the loader's exception reaches the caller and the
    component is left in [ERROR]. *)
Lemma get_component_load_raise name force_reload comp st x e' :
  lookup_comp name (components st) = Some comp ->
  state comp <> LOADING ->
  needs_load force_reload comp = true ->
  loader comp (env st) = (inl x, e') ->
  exists st',
    get_component name force_reload st = (Raise (Raised x), st') /\
    calls st' = calls st ++ [CallLoader name] /\
    env st' = e' /\
    lookup_comp name (components st') = Some (set_state ERROR comp).
Proof.
  intros Hl Hs Hn Hld.
  rewrite (get_component_load _ _ _ _ Hl Hs Hn).
  erewrite finish_load_raise by exact Hld.
  eexists; split; [reflexivity|]. split; [reflexivity|]. split; [reflexivity|].
  rewrite lookup_put. rewrite decide_True by reflexivity.
  simpl. erewrite lookup_write_eq by exact Hl. reflexivity.
Qed.

(** C10.  On a [LOADED] component, [get_component(name, force_reload=True)]
    calls the loader again and nothing else (in particular not the
    unloader), and when the loader returns [v] the caller gets [v] and [v]
    replaces the stored instance. *)
Theorem force_reload_replaces_instance name comp st :
  lookup_comp name (components st) = Some comp ->
  state comp = LOADED ->
  calls (exec (get_component name true) st) = calls st ++ [CallLoader name] /\
  env (exec (get_component name true) st) = snd (loader comp (env st)) /\
  forall v, fst (loader comp (env st)) = inr v ->
    fst (get_component name true st) = Return v /\
    exists comp',
      lookup_comp name (components (exec (get_component name true) st)) = Some comp' /\
      state comp' = LOADED /\ instance comp' = v.
Proof.
  intros Hl Hs.
  assert (Hnl : state comp <> LOADING) by (rewrite Hs; discriminate).
  destruct (loader comp (env st)) as [[x|v0] e'] eqn:Hld.
  - destruct (get_component_load_raise name true comp st x e' Hl Hnl eq_refl Hld)
      as (st' & Hg & Hc & He & _).
    unfold exec. rewrite Hg. simpl.
    split; [exact Hc|]. split; [exact He|]. intros v [=].
  - destruct (get_component_load_ok name true comp st v0 e' Hl Hnl eq_refl Hld)
      as (st' & Hg & Hc & He & Hl').
    unfold exec. rewrite Hg. simpl.
    split; [exact Hc|]. split; [exact He|]. intros v [= <-].
    split; [reflexivity|].
    eexists. split; [exact Hl'|]. split; reflexivity.
Qed.

(** C7.  When the loader raises, [get_component] re-raises the loader's
    exception and leaves the component in [ERROR]; the next
    [get_component] on the same name calls the loader again, and when
    that call returns [v] the caller gets [v] and the component is
    [LOADED] with [v]. *)
Theorem error_is_retried name force_reload force_reload' comp st x e1 :
  lookup_comp name (components st) = Some comp ->
  state comp <> LOADING ->
  needs_load force_reload comp = true ->
  loader comp (env st) = (inl x, e1) ->
  exists st1 comp1,
    get_component name force_reload st = (Raise (Raised x), st1) /\
    lookup_comp name (components st1) = Some comp1 /\
    state comp1 = ERROR /\
    calls st1 = calls st ++ [CallLoader name] /\
    forall e v e2, loader comp e = (inr v, e2) ->
      exists st2 comp2,
        get_component name force_reload' (set_env e st1) = (Return v, st2) /\
        calls st2 = calls st ++ [CallLoader name; CallLoader name] /\
        lookup_comp name (components st2) = Some comp2 /\
        state comp2 = LOADED /\ instance comp2 = v.
Proof.
  intros Hl Hs Hn Hld.
  destruct (get_component_load_raise name force_reload comp st x e1 Hl Hs Hn Hld)
    as (st1 & Hg & Hc & He & Hl1).
  exists st1, (set_state ERROR comp).
  split; [exact Hg|]. split; [exact Hl1|]. split; [reflexivity|].
  split; [exact Hc|].
  intros e v e2 Hld2.
  assert (Hn1 : needs_load force_reload' (set_state ERROR comp) = true).
  { unfold needs_load. simpl. apply orb_true_r. }
  destruct (get_component_load_ok name force_reload' (set_state ERROR comp)
              (set_env e st1) v e2) as (st2 & Hg2 & Hc2 & He2 & Hl2);
    [exact Hl1 | discriminate | exact Hn1 | exact Hld2 |].
  exists st2. eexists. split; [exact Hg2|].
  split; [rewrite Hc2; simpl; rewrite Hc, <- app_assoc; reflexivity|].
  split; [exact Hl2|]. split; reflexivity.
Qed.

(** ** [unload_component] *)

Lemma unload_component_unregistered name st :
  lookup_comp name (components st) = None ->
  unload_component name st = (Return tt, st).
Proof. intros H. unfold unload_component. rewrite H. reflexivity. Qed.

Lemma unload_component_not_loaded name comp st :
  lookup_comp name (components st) = Some comp ->
  state comp <> LOADED ->
  unload_component name st = (Return tt, st).
Proof.
  intros H Hs. unfold unload_component. rewrite H.
  rewrite bool_decide_eq_false_2 by assumption. reflexivity.
Qed.

Lemma unload_component_no_unloader name comp st :
  lookup_comp name (components st) = Some comp ->
  unloader comp = None ->
  unload_component name st = (Return tt, st).
Proof.
  intros H Hu. unfold unload_component. rewrite H, Hu.
  destruct (bool_decide (state comp = LOADED)); reflexivity.
Qed.

Lemma unload_component_ok name comp u e' st :
  lookup_comp name (components st) = Some comp ->
  state comp = LOADED ->
  unloader comp = Some u ->
  u (instance comp) (env st) = (None, e') ->
  unload_component name st =
    (Return tt,
     put_comp name (set_state NOT_LOADED (set_instance PyNone comp))
       (log_call (CallUnloader name (instance comp)) (set_env e' st))).
Proof.
  intros H Hs Hu Hr. unfold unload_component. rewrite H, Hu.
  rewrite bool_decide_eq_true_2 by assumption. rewrite Hr. reflexivity.
Qed.

Lemma unload_component_raise name comp u x e' st :
  lookup_comp name (components st) = Some comp ->
  state comp = LOADED ->
  unloader comp = Some u ->
  u (instance comp) (env st) = (Some x, e') ->
  unload_component name st =
    (Return tt, log_call (CallUnloader name (instance comp)) (set_env e' st)).
Proof.
  intros H Hs Hu Hr. unfold unload_component. rewrite H, Hu.
  rewrite bool_decide_eq_true_2 by assumption. rewrite Hr. reflexivity.
Qed.

Lemma unload_component_returns name st :
  fst (unload_component name st) = Return tt.
Proof.
  unfold unload_component.
  destruct (lookup_comp name (components st)) as [comp|]; [|reflexivity].
  destruct (bool_decide (state comp = LOADED)); [|reflexivity].
  destruct (unloader comp) as [u|]; [|reflexivity].
  destruct (u (instance comp) (env st)) as [[x|] e']; reflexivity.
Qed.

(** C4, as the code has it.  When the unloader of a [LOADED] component
    raises, [unload_component] returns normally, and the component stays
    [LOADED] with its instance: only the unloader's own effects remain. *)
Theorem unloader_exception_keeps_component name comp u x e' st :
  lookup_comp name (components st) = Some comp ->
  state comp = LOADED ->
  unloader comp = Some u ->
  u (instance comp) (env st) = (Some x, e') ->
  exists st',
    unload_component name st = (Return tt, st') /\
    components st' = components st /\
    lookup_comp name (components st') = Some comp /\
    unload_timers st' = unload_timers st /\
    env st' = e' /\
    calls st' = calls st ++ [CallUnloader name (instance comp)].
Proof.
  intros H Hs Hu Hr.
  rewrite (unload_component_raise _ _ _ _ _ _ H Hs Hu Hr).
  eexists. split; [reflexivity|]. simpl. auto 10.
Qed.

(** C5, as the code has it.  A freshly registered component whose loader
    returns [v1]: the first [get_component] returns [v1], the second
    returns [v1] again without calling the loader.  Then
    [unload_component]: with no unloader it changes nothing and the next
    [get_component] still returns [v1] without calling the loader; with
    an unloader that returns normally the component becomes [NOT_LOADED]
    with its instance cleared and the next [get_component] returns what
    the loader's second call returns. *)
Theorem evict_needs_an_unloader name loader_func unloader_func mem st0 v1 e1 :
  loader_func (env st0) = (inr v1, e1) ->
  exists st1 st2,
    get_component name false
      (exec (register_component name loader_func unloader_func mem) st0)
      = (Return v1, st1) /\
    get_component name false st1 = (Return v1, st2) /\
    calls st2 = calls st0 ++ [CallLoader name] /\
    env st2 = e1 /\
    (unloader_func = None ->
       unload_component name st2 = (Return tt, st2) /\
       exists st3,
         get_component name false st2 = (Return v1, st3) /\
         calls st3 = calls st2) /\
    (forall u e2 v2 e3,
       unloader_func = Some u ->
       u v1 e1 = (None, e2) ->
       loader_func e2 = (inr v2, e3) ->
       exists st3 comp3 st4,
         unload_component name st2 = (Return tt, st3) /\
         lookup_comp name (components st3) = Some comp3 /\
         state comp3 = NOT_LOADED /\ instance comp3 = PyNone /\
         get_component name false st3 = (Return v2, st4) /\
         calls st4 =
           calls st0 ++ [CallLoader name; CallUnloader name v1; CallLoader name]).
Proof.
  intros Hld.
  set (c0 := mkComponent loader_func unloader_func NOT_LOADED PyNone mem 0 0).
  set (st := exec (register_component name loader_func unloader_func mem) st0).
  assert (Hl0 : lookup_comp name (components st) = Some c0)
    by apply lookup_store_eq.
  destruct (get_component_load_ok name false c0 st v1 e1)
    as (st1 & Hg1 & Hc1 & He1 & Hl1);
    [exact Hl0 | discriminate | reflexivity | exact Hld |].
  set (c1 := touch (clock e1) (set_state LOADED (set_instance v1 c0))) in *.
  pose proof (get_component_reuse name c1 st1 Hl1) as Hg2.
  specialize (Hg2 ltac:(discriminate) eq_refl). simpl in Hg2.
  set (c2 := touch (clock (env st1)) c1) in *.
  set (st2 := put_comp name c2 (cancel_timer name st1)) in *.
  assert (Hl2 : lookup_comp name (components st2) = Some c2).
  { subst st2. rewrite lookup_put, decide_True by reflexivity.
    simpl. rewrite Hl1. reflexivity. }
  exists st1, st2.
  split; [exact Hg1|]. split; [exact Hg2|].
  split; [exact Hc1|]. split; [exact He1|]. split.
  - intros ->. split.
    + eapply unload_component_no_unloader; [exact Hl2|reflexivity].
    + eexists. split.
      * rewrite (get_component_reuse name c2 st2 Hl2); [reflexivity| |];
          [discriminate|reflexivity].
      * reflexivity.
  - intros u e2 v2 e3 -> Hu Hld2.
    assert (Hun : unload_component name st2 =
              (Return tt,
               put_comp name (set_state NOT_LOADED (set_instance PyNone c2))
                 (log_call (CallUnloader name v1) (set_env e2 st2)))).
    { apply (unload_component_ok name c2 u e2 st2 Hl2 eq_refl eq_refl).
      simpl. rewrite He1. exact Hu. }
    set (c3 := set_state NOT_LOADED (set_instance PyNone c2)) in *.
    set (st3 := put_comp name c3 _) in Hun.
    assert (Hl3 : lookup_comp name (components st3) = Some c3).
    { subst st3. unfold put_comp. simpl.
      eapply lookup_write_eq. exact Hl2. }
    destruct (get_component_load_ok name false c3 st3 v2 e3)
      as (st4 & Hg4 & Hc4 & _);
      [exact Hl3 | discriminate | reflexivity | exact Hld2 |].
    exists st3, c3, st4.
    split; [exact Hun|]. split; [exact Hl3|].
    split; [reflexivity|]. split; [reflexivity|]. split; [exact Hg4|].
    rewrite Hc4. simpl. rewrite Hc1. simpl. rewrite <- !app_assoc. reflexivity.
Qed.

(** ** The polling loop on a component that is being loaded *)

(** Nothing but the clock moves while a caller polls, and the caller
    gives up at the first poll later than 30 s after it started. *)
Lemma wait_loading_times_out name comp ws st :
  state comp = LOADING ->
  exists st',
    wait_while_loading name comp ws st = (Raise (TimeoutError name), st') /\
    components st' = components st /\
    unload_timers st' = unload_timers st /\
    calls st' = calls st /\
    ext (env st') = ext (env st) /\
    clock (env st) <= clock (env st') /\
    30000 < clock (env st') - ws /\
    clock (env st') - ws <= Z.max (clock (env st) - ws) 30100.
Proof.
  intros Hs.
  funelim (wait_while_loading name comp ws st); try contradiction.
  - eexists. split; [reflexivity|].
    repeat split; auto; lia.
  - match goal with
    | IH : forall _ _ _ _, state _ = LOADING -> _ |- _ =>
        destruct (IH _ _ _ _ Hs eq_refl eq_refl)
          as (st' & Hw & Hc & Ht & Hk & Hx & Hmono & Hlo & Hhi)
    end.
    exists st'. split; [exact Hw|]. simpl in *.
    repeat split; auto; lia.
Qed.

Lemma get_component_loading name force_reload comp st :
  lookup_comp name (components st) = Some comp ->
  state comp = LOADING ->
  exists st',
    get_component name force_reload st = (Raise (TimeoutError name), st') /\
    components st' = components st /\
    unload_timers st' = alter cancel name (unload_timers st) /\
    calls st' = calls st /\
    30000 < clock (env st') - clock (env st) <= 30100.
Proof.
  intros Hl Hs. unfold get_component, bind. rewrite Hl.
  destruct (wait_loading_times_out name comp (clock (env (cancel_timer name st)))
              (cancel_timer name st) Hs)
    as (st' & Hw & Hc & Ht & Hk & Hx & Hmono & Hlo & Hhi).
  rewrite Hw. exists st'. split; [reflexivity|]. simpl in *.
  repeat split; auto; lia.
Qed.

(** ** What [get_component] leaves behind *)

Lemma get_component_timers name force_reload comp st :
  lookup_comp name (components st) = Some comp ->
  unload_timers (exec (get_component name force_reload) st) =
    alter cancel name (unload_timers st).
Proof.
  intros Hl. destruct (decide (state comp = LOADING)) as [Hs|Hs].
  - destruct (get_component_loading name force_reload comp st Hl Hs)
      as (st' & Hg & _ & Ht & _).
    unfold exec. rewrite Hg. exact Ht.
  - unfold exec, get_component, bind. rewrite Hl.
    rewrite wait_not_loading by assumption.
    unfold load_or_reuse, finish_load, reuse.
    destruct (needs_load force_reload comp); [|reflexivity].
    simpl. destruct (loader comp (env st)) as [[x|v] e']; reflexivity.
Qed.

Lemma get_component_stamps name force_reload st v st1 :
  get_component name force_reload st = (Return v, st1) ->
  exists comp1,
    lookup_comp name (components st1) = Some comp1 /\
    last_used comp1 = clock (env st1).
Proof.
  unfold get_component, bind.
  destruct (lookup_comp name (components st)) as [comp|] eqn:Hl; [|discriminate].
  destruct (decide (state comp = LOADING)) as [Hs|Hs].
  - destruct (wait_loading_times_out name comp (clock (env (cancel_timer name st)))
                (cancel_timer name st) Hs) as (st' & Hw & _).
    rewrite Hw. discriminate.
  - rewrite wait_not_loading by assumption.
    unfold load_or_reuse, finish_load, reuse.
    destruct (needs_load force_reload comp).
    + simpl. destruct (loader comp (env st)) as [[x|v0] e']; [discriminate|].
      intros [= <- <-].
      exists (touch (clock e')
                (set_state LOADED (set_instance v0 (set_state LOADING comp)))).
      split; [|reflexivity].
      rewrite lookup_put, decide_True by reflexivity.
      simpl. erewrite lookup_write_eq by exact Hl. reflexivity.
    + intros [= <- <-].
      exists (touch (clock (env (cancel_timer name st))) comp).
      split; [|reflexivity].
      rewrite lookup_put, decide_True by reflexivity.
      simpl. rewrite Hl. reflexivity.
Qed.

(** ** [_unload_if_idle] *)

Lemma unload_if_idle_unregistered name timeout st :
  lookup_comp name (components st) = None ->
  _unload_if_idle name timeout st = (Return tt, st).
Proof. intros H. unfold _unload_if_idle. rewrite H. reflexivity. Qed.

Lemma unload_if_idle_skips name timeout comp st :
  lookup_comp name (components st) = Some comp ->
  clock (env st) - last_used comp < timeout \/ state comp <> LOADED ->
  _unload_if_idle name timeout st = (Return tt, st).
Proof.
  intros H Hc. unfold _unload_if_idle. rewrite H.
  destruct Hc as [Hc|Hc].
  - rewrite (proj2 (Z.leb_gt _ _)) by exact Hc. reflexivity.
  - rewrite bool_decide_eq_false_2 by exact Hc. rewrite andb_false_r. reflexivity.
Qed.

Lemma unload_if_idle_evicts name timeout comp st :
  lookup_comp name (components st) = Some comp ->
  timeout <= clock (env st) - last_used comp ->
  state comp = LOADED ->
  _unload_if_idle name timeout st = unload_component name st.
Proof.
  intros H Hc Hs. unfold _unload_if_idle. rewrite H.
  rewrite (proj2 (Z.leb_le _ _)) by exact Hc.
  rewrite bool_decide_eq_true_2 by exact Hs. reflexivity.
Qed.

Lemma timer_fire_cancelled name st :
  (forall t, unload_timers st !! name = Some t -> finished t = true) ->
  timer_fire name st = (Return tt, st).
Proof.
  intros H. unfold timer_fire.
  destruct (unload_timers st !! name) as [t|] eqn:E; [|reflexivity].
  rewrite (H t eq_refl). reflexivity.
Qed.

(** C8.  The check run by a timer changes something only when the
    component is registered, has been idle for at least the timeout and
    is [LOADED]; then it is [unload_component].  In every other case it
    returns with the state as it was.  After a [get_component] that
    returned, a check that runs less than its timeout later changes
    nothing, and the timer that was pending under that name is cancelled:
    when its thread wakes up it does nothing. *)
Theorem idle_check_guard name timeout st :
  (_unload_if_idle name timeout st <> (Return tt, st) ->
     exists comp,
       lookup_comp name (components st) = Some comp /\
       timeout <= clock (env st) - last_used comp /\
       state comp = LOADED /\
       _unload_if_idle name timeout st = unload_component name st) /\
  ((forall comp, lookup_comp name (components st) = Some comp ->
      clock (env st) - last_used comp < timeout \/ state comp <> LOADED) ->
     _unload_if_idle name timeout st = (Return tt, st)) /\
  (forall force_reload v st1 e,
     get_component name force_reload st = (Return v, st1) ->
     clock e - clock (env st1) < timeout ->
     _unload_if_idle name timeout (set_env e st1) = (Return tt, set_env e st1)) /\
  (forall force_reload r st1 e,
     lookup_comp name (components st) <> None ->
     get_component name force_reload st = (r, st1) ->
     timer_fire name (set_env e st1) = (Return tt, set_env e st1)).
Proof.
  split; [|split; [|split]].
  - intros Hne.
    destruct (lookup_comp name (components st)) as [comp|] eqn:Hl.
    + destruct (Z_lt_le_dec (clock (env st) - last_used comp) timeout) as [Hlt|Hle].
      { exfalso. apply Hne. eapply unload_if_idle_skips; eauto. }
      destruct (decide (state comp = LOADED)) as [Hs|Hs].
      * exists comp. repeat split; auto.
        eapply unload_if_idle_evicts; eauto.
      * exfalso. apply Hne. eapply unload_if_idle_skips; eauto.
    + exfalso. apply Hne. apply unload_if_idle_unregistered. exact Hl.
  - intros H.
    destruct (lookup_comp name (components st)) as [comp|] eqn:Hl.
    + eapply unload_if_idle_skips; eauto.
    + apply unload_if_idle_unregistered. exact Hl.
  - intros force_reload v st1 e Hg Hlt.
    destruct (get_component_stamps _ _ _ _ _ Hg) as (comp1 & Hl1 & Hu1).
    eapply unload_if_idle_skips; [exact Hl1|].
    left. simpl. rewrite Hu1. exact Hlt.
  - intros force_reload r st1 e Hreg Hg.
    apply timer_fire_cancelled. simpl. intros t Ht.
    destruct (lookup_comp name (components st)) as [comp|] eqn:Hl;
      [|contradiction].
    pose proof (get_component_timers name force_reload comp st Hl) as Hts.
    unfold exec in Hts. rewrite Hg in Hts. simpl in Hts.
    rewrite Hts, lookup_alter_eq in Ht.
    destruct (unload_timers st !! name); simpl in Ht; [|discriminate].
    injection Ht as <-. reflexivity.
Qed.

(** C9.  [schedule_unload] returns normally for every name, registered
    or not, and leaves a running timer for that name with the given (or
    default) timeout; it touches nothing else.  For a name that is not
    registered the check does nothing in any state, and the timer's
    thread only marks its own timer finished. *)
Theorem schedule_unload_never_fails name timeout st :
  exists t st',
    schedule_unload name timeout st = (Return tt, st') /\
    unload_timers st' !! name = Some t /\
    finished t = false /\
    arg_name t = name /\
    arg_timeout t = default (default_timeout st) timeout /\
    interval t = default (default_timeout st) timeout /\
    components st' = components st /\
    env st' = env st /\
    calls st' = calls st /\
    (forall st2 timeout2,
       lookup_comp name (components st2) = None ->
       _unload_if_idle name timeout2 st2 = (Return tt, st2)) /\
    (lookup_comp name (components st) = None ->
       timer_fire name st' =
         (Return tt, set_timers (alter cancel name (unload_timers st')) st')).
Proof.
  eexists. eexists. split; [reflexivity|]. simpl.
  split; [apply lookup_insert_eq|].
  split; [reflexivity|]. split; [reflexivity|].
  split; [destruct timeout; reflexivity|].
  split; [destruct timeout; reflexivity|].
  split; [reflexivity|]. split; [reflexivity|]. split; [reflexivity|].
  split.
  - intros st2 timeout2 Hl. apply unload_if_idle_unregistered. exact Hl.
  - intros Hl. unfold timer_fire, bind. simpl.
    rewrite lookup_insert_eq. simpl.
    rewrite unload_if_idle_unregistered by exact Hl. reflexivity.
Qed.

(** ** [unload_all] *)

Lemma exec_unload_each_cons name names st :
  exec (unload_each (name :: names)) st =
    exec (unload_each names) (exec (unload_component name) st).
Proof.
  unfold exec. simpl. unfold bind.
  pose proof (unload_component_returns name st) as Hr.
  destruct (unload_component name st) as [r st']. simpl in *.
  rewrite Hr. reflexivity.
Qed.

Lemma unload_each_returns names st :
  fst (unload_each names st) = Return tt.
Proof.
  revert st. induction names as [|n names IH]; intros st; [reflexivity|].
  simpl. unfold bind.
  pose proof (unload_component_returns n st) as Hr.
  destruct (unload_component n st) as [r st']. simpl in Hr. rewrite Hr.
  apply IH.
Qed.

Lemma unload_each_preserves (P : State Inst Exn W -> Prop) names :
  (forall n st, P st -> P (exec (unload_component n) st)) ->
  forall st, P st -> P (exec (unload_each names) st).
Proof.
  intros Hstep. induction names as [|n names IH]; intros st HP; [exact HP|].
  rewrite exec_unload_each_cons. apply IH, Hstep, HP.
Qed.

Lemma unload_all_exec st :
  unload_all st =
    (Return tt,
     set_timers ∅ (exec (unload_each (map fst (components st))) st)).
Proof.
  unfold unload_all, bind, exec.
  pose proof (unload_each_returns (map fst (components st)) st) as Hr.
  destruct (unload_each (map fst (components st)) st) as [r st'].
  simpl in Hr. rewrite Hr. reflexivity.
Qed.

Lemma unload_component_skip name comp st :
  lookup_comp name (components st) = Some comp ->
  ~ evictable comp ->
  unload_component name st = (Return tt, st).
Proof.
  intros Hl Hne. destruct (decide (state comp = LOADED)) as [Hs|Hs].
  - destruct (unloader comp) as [u|] eqn:Hu.
    + exfalso. apply Hne. split; [exact Hs|]. rewrite Hu. discriminate.
    + eapply unload_component_no_unloader; eauto.
  - eapply unload_component_not_loaded; eauto.
Qed.

Lemma unload_component_other name name' st :
  name <> name' ->
  lookup_comp name' (components (exec (unload_component name) st)) =
    lookup_comp name' (components st).
Proof.
  intros Hne. unfold exec, unload_component.
  destruct (lookup_comp name (components st)) as [comp|]; [|reflexivity].
  destruct (bool_decide (state comp = LOADED)); [|reflexivity].
  destruct (unloader comp) as [u|]; [|reflexivity].
  destruct (u (instance comp) (env st)) as [[x|] e']; [reflexivity|].
  simpl. apply lookup_write_ne. exact Hne.
Qed.

Lemma unload_component_keeps name k comp st :
  lookup_comp k (components st) = Some comp ->
  ~ evictable comp ->
  lookup_comp k (components (exec (unload_component name) st)) = Some comp.
Proof.
  intros Hl Hne. destruct (decide (name = k)) as [->|Hk].
  - unfold exec. rewrite (unload_component_skip k comp st Hl Hne). exact Hl.
  - rewrite unload_component_other by exact Hk. exact Hl.
Qed.

Lemma released_not_evictable comp :
  state comp = NOT_LOADED -> ~ evictable comp.
Proof. intros Hs [Hl _]. congruence. Qed.

Lemma unload_component_released name k st :
  released k st -> released k (exec (unload_component name) st).
Proof.
  intros (comp & Hl & Hs & Hi). exists comp. split; [|auto].
  apply unload_component_keeps; [exact Hl|].
  apply released_not_evictable, Hs.
Qed.

Lemma lookup_in_keys k comp l :
  lookup_comp k l = Some comp -> In k (map fst l).
Proof.
  induction l as [|[k' c] l IH]; simpl; [discriminate|].
  destruct (String.eqb k' k) eqn:E.
  - apply String.eqb_eq in E. auto.
  - auto.
Qed.

Lemma unload_component_registered name k st :
  lookup_comp k (components (exec (unload_component name) st)) = None <->
  lookup_comp k (components st) = None.
Proof.
  destruct (decide (name = k)) as [->|Hk].
  - unfold exec, unload_component.
    destruct (lookup_comp k (components st)) as [comp|] eqn:Hl;
      [|simpl; rewrite Hl; reflexivity].
    destruct (bool_decide (state comp = LOADED));
      [|simpl; rewrite Hl; reflexivity].
    destruct (unloader comp) as [u|]; [|simpl; rewrite Hl; reflexivity].
    destruct (u (instance comp) (env st)) as [[x|] e'];
      simpl; [rewrite Hl; reflexivity|].
    erewrite lookup_write_eq by exact Hl. split; discriminate.
  - rewrite unload_component_other by exact Hk. reflexivity.
Qed.

Lemma unload_each_noop names st :
  (forall k comp, lookup_comp k (components st) = Some comp -> ~ evictable comp) ->
  unload_each names st = (Return tt, st).
Proof.
  intros Hne. induction names as [|n names IH]; [reflexivity|].
  simpl. unfold bind.
  destruct (lookup_comp n (components st)) as [comp|] eqn:Hl.
  - rewrite (unload_component_skip n comp st Hl (Hne n comp Hl)). exact IH.
  - rewrite (unload_component_unregistered n st Hl). exact IH.
Qed.

Lemma unload_each_keeps k comp names st :
  lookup_comp k (components st) = Some comp ->
  ~ evictable comp ->
  lookup_comp k (components (exec (unload_each names) st)) = Some comp.
Proof.
  intros Hl Hne.
  apply (unload_each_preserves
           (fun s => lookup_comp k (components s) = Some comp)); [|exact Hl].
  intros n s Hs. apply unload_component_keeps; assumption.
Qed.

Lemma unload_each_registered k names st :
  lookup_comp k (components (exec (unload_each names) st)) = None <->
  lookup_comp k (components st) = None.
Proof.
  apply (unload_each_preserves
           (fun s => lookup_comp k (components s) = None <->
                     lookup_comp k (components st) = None)); [|reflexivity].
  intros n s Hs. rewrite unload_component_registered. exact Hs.
Qed.

Lemma evictable_dec comp : {evictable comp} + {~ evictable comp}.
Proof.
  unfold evictable.
  destruct (decide (state comp = LOADED)) as [Hs|Hs];
    [|right; intros [? _]; contradiction].
  destruct (unloader comp) as [u|].
  - left. split; [exact Hs|discriminate].
  - right. intros [_ H]. apply H. reflexivity.
Qed.

Lemma exec_unload_each_app names1 names2 st :
  exec (unload_each (names1 ++ names2)) st =
    exec (unload_each names2) (exec (unload_each names1) st).
Proof.
  revert st. induction names1 as [|n names1 IH]; intros st; [reflexivity|].
  simpl app. rewrite !exec_unload_each_cons. apply IH.
Qed.

Lemma unload_each_other k names st :
  ~ In k names ->
  lookup_comp k (components (exec (unload_each names) st)) =
    lookup_comp k (components st).
Proof.
  revert st. induction names as [|n names IH]; intros st Hk; [reflexivity|].
  rewrite exec_unload_each_cons, IH by (intros H; apply Hk; right; exact H).
  apply unload_component_other. intros ->. apply Hk. left. reflexivity.
Qed.

Lemma NoDup_split_notin (k : string) pre post :
  NoDup (pre ++ k :: post) -> ~ In k pre /\ ~ In k post.
Proof.
  intros Hnd. apply NoDup_app in Hnd as (_ & Hdis & Hpost).
  apply NoDup_cons in Hpost as [Hpost _].
  split.
  - intros Hin. apply (Hdis k); [apply list_elem_of_In; exact Hin|].
    apply list_elem_of_here.
  - intros Hin. apply Hpost. apply list_elem_of_In. exact Hin.
Qed.

(** The turn of [k] in [unload_all]: its unloader is called in the
    environment that the evictions before it have left. *)
Lemma unload_each_turn pre k post comp u st :
  NoDup (pre ++ k :: post) ->
  lookup_comp k (components st) = Some comp ->
  state comp = LOADED ->
  unloader comp = Some u ->
  (fst (u (instance comp) (env (exec (unload_each pre) st))) = None ->
   released k (exec (unload_each (pre ++ k :: post)) st)) /\
  (fst (u (instance comp) (env (exec (unload_each pre) st))) <> None ->
   lookup_comp k (components (exec (unload_each (pre ++ k :: post)) st))
     = Some comp).
Proof.
  intros Hnd Hl Hs Hu.
  destruct (NoDup_split_notin k pre post Hnd) as [Hpre Hpost].
  rewrite exec_unload_each_app, exec_unload_each_cons.
  set (st_k := exec (unload_each pre) st).
  assert (Hlk : lookup_comp k (components st_k) = Some comp).
  { unfold st_k. rewrite unload_each_other by exact Hpre. exact Hl. }
  destruct (u (instance comp) (env st_k)) as [[x|] e'] eqn:Hr; simpl.
  - split; [discriminate|]. intros _.
    rewrite unload_each_other by exact Hpost.
    unfold exec. rewrite (unload_component_raise k comp u x e' st_k Hlk Hs Hu Hr).
    exact Hlk.
  - split; [|intros H; contradiction]. intros _.
    apply unload_each_preserves.
    + intros n' st'. apply unload_component_released.
    + unfold exec. rewrite (unload_component_ok k comp u e' st_k Hlk Hs Hu Hr).
      eexists. split; [simpl; eapply lookup_write_eq; exact Hlk|].
      split; reflexivity.
Qed.

(** C6, as the code has it.  The names of [self.components] are distinct,
    as the keys of a dict are.  [unload_all] returns normally and leaves
    the timer dict empty.  It goes through the names in order; the
    unloader of a [LOADED] component [k] is called in the environment
    that the evictions before [k] have left.  If that call returns
    normally the component ends [NOT_LOADED] with its instance cleared;
    if it raises, the component is left exactly as it was.  A component
    that is not [LOADED] or has no unloader is left exactly as it was.
    When none of these unloader calls raises, calling [unload_all] again
    changes nothing. *)
Theorem unload_all_effect st :
  NoDup (map fst (components st)) ->
  exists st',
    unload_all st = (Return tt, st') /\
    unload_timers st' = ∅ /\
    (forall pre k post comp u,
       map fst (components st) = pre ++ k :: post ->
       lookup_comp k (components st) = Some comp ->
       state comp = LOADED ->
       unloader comp = Some u ->
       (fst (u (instance comp) (env (exec (unload_each pre) st))) = None ->
        released k st') /\
       (fst (u (instance comp) (env (exec (unload_each pre) st))) <> None ->
        lookup_comp k (components st') = Some comp)) /\
    (forall k comp,
       lookup_comp k (components st) = Some comp ->
       ~ evictable comp ->
       lookup_comp k (components st') = Some comp) /\
    ((forall pre k post comp u,
        map fst (components st) = pre ++ k :: post ->
        lookup_comp k (components st) = Some comp ->
        state comp = LOADED ->
        unloader comp = Some u ->
        fst (u (instance comp) (env (exec (unload_each pre) st))) = None) ->
     unload_all st' = (Return tt, st')).
Proof.
  intros Hnd.
  rewrite unload_all_exec.
  set (st1 := exec (unload_each (map fst (components st))) st).
  exists (set_timers ∅ st1).
  split; [reflexivity|]. split; [reflexivity|].
  assert (Hturn : forall pre k post comp u,
             map fst (components st) = pre ++ k :: post ->
             lookup_comp k (components st) = Some comp ->
             state comp = LOADED ->
             unloader comp = Some u ->
             (fst (u (instance comp) (env (exec (unload_each pre) st))) = None ->
              released k st1) /\
             (fst (u (instance comp) (env (exec (unload_each pre) st))) <> None ->
              lookup_comp k (components st1) = Some comp)).
  { intros pre k post comp u Hsplit Hl Hs Hu. unfold st1. rewrite Hsplit.
    apply unload_each_turn; [rewrite <- Hsplit; exact Hnd|assumption..]. }
  split; [exact Hturn|]. split.
  - intros k comp Hl Hne. simpl. apply unload_each_keeps; assumption.
  - intros Hok. rewrite unload_all_exec. simpl.
    assert (Hnone : forall k comp,
               lookup_comp k (components st1) = Some comp -> ~ evictable comp).
    { intros k c1 Hl1.
      destruct (lookup_comp k (components st)) as [c|] eqn:Hl.
      - destruct (evictable_dec c) as [[Hs Hu]|Hne].
        + destruct (unloader c) as [u|] eqn:Eu; [|contradiction].
          destruct (in_split k (map fst (components st)))
            as (pre & post & Hsplit); [eapply lookup_in_keys; exact Hl|].
          destruct (proj1 (Hturn pre k post c u Hsplit Hl Hs Eu)
                      (Hok pre k post c u Hsplit Hl Hs Eu))
            as (c' & Hl' & Hs' & _).
          rewrite Hl1 in Hl'. injection Hl' as <-.
          apply released_not_evictable, Hs'.
        + pose proof (unload_each_keeps k c (map fst (components st)) st Hl Hne)
            as Hk.
          fold st1 in Hk. rewrite Hl1 in Hk. injection Hk as ->. exact Hne.
      - apply (unload_each_registered k (map fst (components st)) st) in Hl.
        fold st1 in Hl. congruence. }
    unfold exec at 1.
    rewrite (unload_each_noop (map fst (components st1)) (set_timers ∅ st1));
      [reflexivity|].
    intros k comp Hl. apply (Hnone k comp). exact Hl.
Qed.

(** ** More on writes and on the idle check *)

Lemma write_write name comp1 comp2 l :
  write_comp name comp2 (write_comp name comp1 l) = write_comp name comp2 l.
Proof.
  induction l as [|[k c] l IH]; simpl; [reflexivity|].
  destruct (String.eqb k name) eqn:E; simpl; rewrite E; [reflexivity|].
  rewrite IH. reflexivity.
Qed.

Lemma unload_if_idle_returns name timeout st :
  fst (_unload_if_idle name timeout st) = Return tt.
Proof.
  unfold _unload_if_idle.
  destruct (lookup_comp name (components st)) as [comp|]; [|reflexivity].
  destruct ((timeout <=? clock (env st) - last_used comp)
            && bool_decide (state comp = LOADED)); [|reflexivity].
  apply unload_component_returns.
Qed.

(** ** Concurrent callers of one component *)

Lemma weight_insert (ths : list (Pc Inst Exn)) i pc pc' :
  ths !! i = Some pc ->
  (list_sum (map pc_weight (<[i := pc']> ths)) + pc_weight pc =
   list_sum (map pc_weight ths) + pc_weight pc')%nat.
Proof.
  revert i. induction ths as [|t ths IH]; intros [|i] H; simpl in *;
    try discriminate.
  - injection H as ->. lia.
  - specialize (IH i H). lia.
Qed.

Section Callers.

Variables (n : nat) (name : string) (st0 : State Inst Exn W).
Variables (comp0 : Component Inst Exn W) (v : PyVal Inst) (e1 : Env W).
Hypothesis Hreg : lookup_comp name (components st0) = Some comp0.
Hypothesis Hfresh : state comp0 = NOT_LOADED.
Hypothesis Hload : loader comp0 (env st0) = (inr v, e1).

Local Abbreviation phase' := (phase n name st0 comp0 v e1).

(** The first caller to get the lock marks the component [LOADING]
    and keeps the lock. *)
Lemma enter_fresh :
  thread_step (AtCall name false) st0 =
    Some (InLoader name, begin_load name comp0 (cancel_timer name st0)).
Proof.
  simpl. rewrite Hreg.
  destruct (decide (state comp0 = LOADING)) as [E|_]; [congruence|].
  unfold dispatch, needs_load. rewrite Hfresh. reflexivity.
Qed.

(** The owner of the lock runs the loader and publishes its value. *)
Lemma run_loader :
  exists st1,
    thread_step (InLoader name)
      (begin_load name comp0 (cancel_timer name st0)) =
      Some (Finished (Return v), st1) /\
    lookup_comp name (components st1) =
      Some (touch (clock e1)
              (set_state LOADED (set_instance v (set_state LOADING comp0)))) /\
    env st1 = e1 /\
    calls st1 = calls st0 ++ [CallLoader name].
Proof.
  simpl. erewrite lookup_write_eq by exact Hreg.
  unfold finish_load. simpl. rewrite Hload.
  eexists. split; [reflexivity|]. simpl.
  split; [|split; reflexivity].
  rewrite write_write. eapply lookup_write_eq. exact Hreg.
Qed.

(** A caller that arrives after the load takes the cached instance. *)
Lemma enter_loaded st comp :
  lookup_comp name (components st) = Some comp ->
  state comp = LOADED ->
  thread_step (AtCall name false) st =
    Some (Finished (Return (instance comp)),
          put_comp name (touch (clock (env st)) comp) (cancel_timer name st)).
Proof.
  intros Hl Hs. simpl. rewrite Hl.
  destruct (decide (state comp = LOADING)) as [E|_]; [congruence|].
  unfold dispatch. rewrite (needs_load_loaded comp Hs). reflexivity.
Qed.

Lemma phase_step cfg cfg' :
  phase' cfg -> step cfg cfg' ->
  phase' cfg' /\ (weight cfg' < weight cfg)%nat.
Proof.
  intros Hph Hst. destruct Hst as [i pc pc' st' cfg Hth Hrun Hstep].
  destruct Hph as [|j Hj|st ths comp Hl Hs Hi He Hc Hlen Hall];
    simpl in Hth, Hrun, Hstep.
  - apply lookup_replicate in Hth. destruct Hth as [-> Hi].
    rewrite enter_fresh in Hstep. injection Hstep as <- <-.
    split; [apply phase_busy; exact Hi|].
    unfold weight. simpl.
    pose proof (weight_insert (replicate n (AtCall name false)) i
                  (AtCall name false) (InLoader name)
                  (lookup_replicate_2 _ _ _ Hi)) as Hw.
    simpl in Hw. lia.
  - destruct (decide (j = i)) as [->|Hne].
    + rewrite list_lookup_insert_eq in Hth
        by (rewrite length_replicate; exact Hj).
      injection Hth as <-.
      destruct run_loader as (st1 & Hrl & Hl1 & He1 & Hc1).
      rewrite Hrl in Hstep. injection Hstep as <- <-.
      split.
      * simpl. rewrite list_insert_insert_eq.
        eapply phase_ready; eauto.
        -- rewrite length_insert, length_replicate. reflexivity.
        -- apply Forall_insert; [|right; reflexivity].
           apply Forall_replicate. left. reflexivity.
      * unfold weight. simpl.
        pose proof (weight_insert
                      (<[i := InLoader name]> (replicate n (AtCall name false)))
                      i (InLoader name) (Finished (Return v))) as Hw.
        rewrite list_lookup_insert_eq in Hw
          by (rewrite length_replicate; exact Hj).
        specialize (Hw eq_refl). simpl in Hw. lia.
    + rewrite list_lookup_insert_ne in Hth by exact Hne.
      apply lookup_replicate in Hth. destruct Hth as [-> _].
      simpl in Hrun. discriminate.
  - pose proof (Forall_lookup_1 _ _ _ _ Hall Hth) as [->| ->];
      [|destruct Hrun].
    rewrite (enter_loaded st comp Hl Hs) in Hstep.
    injection Hstep as <- <-. rewrite Hi.
    split.
    + simpl. eapply phase_ready with (comp := touch (clock (env st)) comp);
        eauto.
      * rewrite lookup_put, decide_True by reflexivity.
        simpl. rewrite Hl. reflexivity.
      * rewrite length_insert. exact Hlen.
      * apply Forall_insert; [exact Hall|]. right. reflexivity.
    + unfold weight. simpl.
      pose proof (weight_insert ths i (AtCall name false)
                    (Finished (Return v)) Hth) as Hw.
      simpl in Hw. lia.
Qed.

Lemma phase_nsteps k cfg cfg' :
  phase' cfg -> nsteps step k cfg cfg' ->
  phase' cfg' /\ (k + weight cfg' <= weight cfg)%nat.
Proof.
  intros Hph Hsteps. induction Hsteps as [cfg|k cfg cfg1 cfg2 Hst _ IH].
  - split; [exact Hph|lia].
  - destruct (phase_step cfg cfg1 Hph Hst) as [Hph1 Hw].
    destruct (IH Hph1) as [Hph2 Hk]. split; [exact Hph2|lia].
Qed.

Lemma weight_callers : weight (callers n name st0) = (2 * n)%nat.
Proof.
  unfold weight. simpl. induction n as [|m IH]; simpl; [reflexivity|].
  rewrite IH. lia.
Qed.

Lemma ready_progress (ths : list (Pc Inst Exn)) :
  Forall (fun pc => pc = AtCall name false \/ pc = Finished (Return v)) ths ->
  Forall (fun pc => exists r, pc = Finished r) ths \/
  exists i, ths !! i = Some (AtCall name false).
Proof.
  induction 1 as [|pc ths [->| ->] _ IH].
  - left. constructor.
  - right. exists O. reflexivity.
  - destruct IH as [IH|[i IH]].
    + left. constructor; [eexists; reflexivity|exact IH].
    + right. exists (S i). exact IH.
Qed.

Lemma phase_progress cfg :
  phase' cfg -> all_finished cfg \/ exists cfg', step cfg cfg'.
Proof.
  intros [|i Hi|st ths comp Hl Hs Hi He Hc Hlen Hall].
  - destruct (Nat.eq_dec n O) as [E|E].
    + left. unfold all_finished, callers. simpl. rewrite E. constructor.
    + right. eexists.
      eapply (step_thread O (AtCall name false)); simpl.
      * apply lookup_replicate_2. lia.
      * reflexivity.
      * apply enter_fresh.
  - right. destruct run_loader as (st1 & Hrl & _).
    eexists. eapply (step_thread i (InLoader name)); simpl.
    + apply list_lookup_insert_eq. rewrite length_replicate. exact Hi.
    + reflexivity.
    + exact Hrl.
  - destruct (ready_progress ths Hall) as [Hfin|[i Hth]].
    + left. exact Hfin.
    + right. eexists. eapply (step_thread i (AtCall name false)); simpl.
      * exact Hth.
      * reflexivity.
      * apply (enter_loaded st comp Hl Hs).
Qed.

(** What a finished caller tells about the configuration. *)
Lemma phase_finished cfg i r :
  phase' cfg ->
  threads cfg !! i = Some (Finished r) ->
  r = Return v /\
  lock cfg = None /\
  env (shared cfg) = e1 /\
  calls (shared cfg) = calls st0 ++ [CallLoader name] /\
  exists comp,
    lookup_comp name (components (shared cfg)) = Some comp /\
    state comp = LOADED /\ instance comp = v.
Proof.
  intros [|j Hj|st ths comp Hl Hs Hi He Hc Hlen Hall] Hth; simpl in Hth.
  - apply lookup_replicate in Hth. destruct Hth as [[=] _].
  - destruct (decide (j = i)) as [->|Hne].
    + rewrite list_lookup_insert_eq in Hth
        by (rewrite length_replicate; exact Hj).
      discriminate.
    + rewrite list_lookup_insert_ne in Hth by exact Hne.
      apply lookup_replicate in Hth. destruct Hth as [[=] _].
  - pose proof (Forall_lookup_1 _ _ _ _ Hall Hth) as [[=]|[= ->]].
    simpl. repeat split; auto. exists comp. auto.
Qed.

Lemma phase_calls cfg :
  phase' cfg ->
  calls (shared cfg) = calls st0 \/
  calls (shared cfg) = calls st0 ++ [CallLoader name].
Proof.
  intros [|j Hj|st ths comp Hl Hs Hi He Hc Hlen Hall]; simpl; auto.
Qed.

Lemma phase_pcs cfg i pc :
  phase' cfg ->
  threads cfg !! i = Some pc ->
  pc = AtCall name false \/ pc = InLoader name \/ pc = Finished (Return v).
Proof.
  intros [|j Hj|st ths comp Hl Hs Hi He Hc Hlen Hall] Hth; simpl in Hth.
  - apply lookup_replicate in Hth. destruct Hth as [-> _]. auto.
  - destruct (decide (j = i)) as [->|Hne].
    + rewrite list_lookup_insert_eq in Hth
        by (rewrite length_replicate; exact Hj).
      injection Hth as <-. auto.
    + rewrite list_lookup_insert_ne in Hth by exact Hne.
      apply lookup_replicate in Hth. destruct Hth as [-> _]. auto.
  - pose proof (Forall_lookup_1 _ _ _ _ Hall Hth) as [->| ->]; auto.
Qed.

Lemma phase_length cfg : phase' cfg -> length (threads cfg) = n.
Proof.
  intros [|j Hj|st ths comp Hl Hs Hi He Hc Hlen Hall]; simpl.
  - apply length_replicate.
  - rewrite length_insert. apply length_replicate.
  - exact Hlen.
Qed.

End Callers.

(** While a thread owns the lock no other thread moves. *)
Lemma others_wait_for_the_lock (cfg cfg' : Config Inst Exn W) (i j : nat) :
  lock cfg = Some i ->
  step cfg cfg' ->
  j <> i ->
  threads cfg' !! j = threads cfg !! j.
Proof.
  intros Hlock Hst Hne.
  destruct Hst as [i' pc pc' st' cfg Hth Hrun Hstep]. simpl.
  assert (i' = i) as ->.
  { rewrite Hlock in Hrun. destruct pc; simpl in Hrun;
      first [discriminate | contradiction | congruence]. }
  apply list_lookup_insert_ne. congruence.
Qed.

Lemma run_thread_step i cfg pc pc' st' :
  threads cfg !! i = Some pc ->
  may_run i pc (lock cfg) ->
  thread_step pc (shared cfg) = Some (pc', st') ->
  step cfg (run_thread i cfg).
Proof.
  intros Hth Hrun Hstep. unfold run_thread. rewrite Hth, Hstep.
  apply (step_thread i pc pc' st' cfg Hth Hrun Hstep).
Defined.

(** C1.  [n] callers of [get_component(name)] on a registered component
    that was never loaded and whose loader returns [v]: under every
    interleaving the loader is called at most once, and exactly once by
    the time all callers are done; every caller that is done returned
    [v], which is then the instance of the [LOADED] component; no caller
    ever polls or reads a component still being loaded; and every
    interleaving ends, after at most [2 * n] steps, with all callers
    done. *)
Theorem concurrent_callers_load_once n name st0 comp0 v e1 k cfg :
  (0 < n)%nat ->
  lookup_comp name (components st0) = Some comp0 ->
  state comp0 = NOT_LOADED ->
  loader comp0 (env st0) = (inr v, e1) ->
  nsteps step k (callers n name st0) cfg ->
  (calls (shared cfg) = calls st0 \/
   calls (shared cfg) = calls st0 ++ [CallLoader name]) /\
  (forall i pc, threads cfg !! i = Some pc ->
     pc = AtCall name false \/ pc = InLoader name \/ pc = Finished (Return v)) /\
  (forall i r, threads cfg !! i = Some (Finished r) ->
     r = Return v /\
     calls (shared cfg) = calls st0 ++ [CallLoader name] /\
     exists comp,
       lookup_comp name (components (shared cfg)) = Some comp /\
       state comp = LOADED /\ instance comp = v) /\
  length (threads cfg) = n /\
  (all_finished cfg -> calls (shared cfg) = calls st0 ++ [CallLoader name]) /\
  (all_finished cfg \/ exists cfg', step cfg cfg') /\
  (k <= 2 * n)%nat.
Proof.
  intros Hn Hreg Hfresh Hload Hsteps.
  destruct (phase_nsteps n name st0 comp0 v e1 Hreg Hfresh Hload k _ cfg
              (phase_idle _ _ _ _ _ _) Hsteps) as [Hph Hk].
  rewrite weight_callers in Hk.
  pose proof (phase_finished n name st0 comp0 v e1 cfg) as Hfin.
  pose proof (phase_length n name st0 comp0 v e1 cfg Hph) as Hlen.
  split; [eapply phase_calls; exact Hph|].
  split; [intros i pc; eapply phase_pcs; exact Hph|].
  split.
  { intros i r Hth. destruct (Hfin i r Hph Hth) as (Hr & _ & _ & Hc & Hcomp).
    auto. }
  split; [exact Hlen|].
  split.
  { intros Hall.
    destruct (threads cfg) as [|pc ths] eqn:Eths;
      [simpl in Hlen; lia|].
    unfold all_finished in Hall. rewrite Eths in Hall.
    inversion Hall as [|? ? [r ->] _]; subst.
    destruct (Hfin O r Hph) as (_ & _ & _ & Hc & _); [|exact Hc].
    reflexivity. }
  split; [eapply phase_progress; eauto|lia].
Qed.

End Properties.

(** * The scenarios *)

Section Scenarios.

Import Scenario.

(** C2, on the code: one caller's loader sleeps for an hour while a
    second caller asks for the same component.  Under every interleaving
    a caller that is done has the instance, not a [TimeoutError], and
    the clock then shows that the whole hour has passed: the second
    caller is held at the manager's lock until the loader returns. *)
Theorem second_caller_waits_for_the_loader k cfg :
  nsteps step k (callers 2 "model" (registered slow_loader None)) cfg ->
  forall i r, threads cfg !! i = Some (Finished r) ->
    r = Return (PyObj 7) /\ 3600000 <= clock (env (shared cfg)).
Proof.
  intros Hsteps i r Hth.
  pose (st0 := registered slow_loader None).
  assert (Hph : phase 2 "model" st0
                  (mkComponent slow_loader None NOT_LOADED PyNone 100 0 0)
                  (PyObj 7) (mkEnv 3600000 0) cfg).
  { eapply phase_nsteps; [| | |apply phase_idle|exact Hsteps]; reflexivity. }
  destruct (phase_finished _ _ _ _ _ _ cfg i r Hph Hth) as (Hr & _ & He & _).
  split; [exact Hr|]. rewrite He. simpl. lia.
Qed.

(** Two callers, first thread 0 twice (enter, load), then thread 1. *)
Lemma concurrent_callers_load_once_witness :
  let cfg := run_thread 1 (run_thread 0 (run_thread 0
               (callers 2 "model" (registered counter_loader None)))) in
  calls (shared cfg) = [CallLoader "model"] /\
  threads cfg = [Finished (Return (PyObj 1)); Finished (Return (PyObj 1))].
Proof.
  assert (Hrun : nsteps step 3
                   (callers 2 "model" (registered counter_loader None))
                   (run_thread 1 (run_thread 0 (run_thread 0
                      (callers 2 "model" (registered counter_loader None)))))).
  { eapply nsteps_l; [eapply (run_thread_step 0); reflexivity|].
    eapply nsteps_l; [eapply (run_thread_step 0); reflexivity|].
    eapply nsteps_l; [eapply (run_thread_step 1); reflexivity|].
    apply nsteps_O. }
  destruct (concurrent_callers_load_once 2 "model"
              (registered counter_loader None)
              (mkComponent counter_loader None NOT_LOADED PyNone 100 0 0)
              (PyObj 1) (mkEnv 0 1) 3 _
              ltac:(lia) eq_refl eq_refl eq_refl Hrun)
    as (_ & _ & _ & _ & Hall & _).
  split; [|reflexivity].
  apply Hall. repeat constructor; eexists; reflexivity.
Defined.

Lemma second_caller_waits_for_the_loader_witness :
  let cfg := run_thread 1 (run_thread 0 (run_thread 0
               (callers 2 "model" (registered slow_loader None)))) in
  threads cfg !! 1%nat = Some (Finished (Return (PyObj 7))) /\
  3600000 <= clock (env (shared cfg)).
Proof.
  assert (Hrun : nsteps step 3
                   (callers 2 "model" (registered slow_loader None))
                   (run_thread 1 (run_thread 0 (run_thread 0
                      (callers 2 "model" (registered slow_loader None)))))).
  { eapply nsteps_l; [eapply (run_thread_step 0); reflexivity|].
    eapply nsteps_l; [eapply (run_thread_step 0); reflexivity|].
    eapply nsteps_l; [eapply (run_thread_step 1); reflexivity|].
    apply nsteps_O. }
  split; [reflexivity|].
  apply (second_caller_waits_for_the_loader 3 _ Hrun 1%nat
           (Return (PyObj 7)) eq_refl).
Defined.

(** Counterexample to C3, in both directions: after a failed forced reload the
    component is in [ERROR] and still holds the old instance, and a
    loader that returns [None] leaves a [LOADED] component without
    instance. *)
Lemma instance_iff_loaded_fails :
  (exists comp,
     lookup_comp "model"
       (components
          (run_ops [Register "model" once_loader None 100;
                    Acquire "model" false;
                    Acquire "model" true] start)) = Some comp /\
     instance comp <> PyNone /\ state comp <> LOADED) /\
  (exists comp,
     lookup_comp "model"
       (components
          (run_ops [Register "model" none_loader None 100;
                    Acquire "model" false] start)) = Some comp /\
     state comp = LOADED /\ instance comp = PyNone).
Proof.
  split; eexists; (split; [reflexivity|]); split;
    try reflexivity; discriminate.
Qed.

(** Counterexample to C4: the unloader raises, [unload_component] returns, and the
    component is still [LOADED] with its instance. *)
Lemma raising_unloader_blocks_eviction :
  let st := loaded counter_loader (Some bad_unloader) in
  exists comp comp',
    lookup_comp "model" (components st) = Some comp /\
    state comp = LOADED /\
    (exists u, unloader comp = Some u /\
               fst (u (instance comp) (env st)) = Some "release failed"%string) /\
    fst (unload_component "model" st) = Return tt /\
    lookup_comp "model" (components (exec (unload_component "model") st))
      = Some comp' /\
    state comp' <> NOT_LOADED /\ instance comp' <> PyNone.
Proof.
  eexists. eexists. split; [reflexivity|]. split; [reflexivity|].
  split; [eexists; split; reflexivity|].
  split; [reflexivity|]. split; [reflexivity|]. split; discriminate.
Qed.

Lemma unloader_exception_keeps_component_witness :
  let st := loaded counter_loader (Some bad_unloader) in
  exists st',
    unload_component "model" st = (Return tt, st') /\
    components st' = components st /\
    calls st' = [CallLoader "model"; CallUnloader "model" (PyObj 1)].
Proof.
  destruct (unloader_exception_keeps_component "model"
              (mkComponent counter_loader (Some bad_unloader) LOADED
                 (PyObj 1) 100 0 1)
              bad_unloader "release failed"%string (mkEnv 0 1)
              (loaded counter_loader (Some bad_unloader))
              eq_refl eq_refl eq_refl eq_refl)
    as (st' & Hu & Hc & _ & _ & _ & Hk).
  exists st'. split; [exact Hu|]. split; [exact Hc|exact Hk].
Defined.

(** Counterexample to C5: no unloader was registered, and the [get_component] after
    [unload_component] returns the cached 1, not 2. *)
Lemma evict_without_unloader_keeps_instance :
  let st0 := registered counter_loader None in
  let st1 := exec (get_component "model" false) st0 in
  let st2 := exec (get_component "model" false) st1 in
  let st3 := exec (unload_component "model") st2 in
  fst (get_component "model" false st0) = Return (PyObj 1) /\
  fst (get_component "model" false st1) = Return (PyObj 1) /\
  fst (get_component "model" false st3) = Return (PyObj 1) /\
  fst (get_component "model" false st3) <> Return (PyObj 2).
Proof.
  split; [reflexivity|]. split; [reflexivity|]. split; [reflexivity|].
  discriminate.
Qed.

Lemma evict_needs_an_unloader_witness :
  exists st1 st2 st3 st4,
    get_component "model" false (registered counter_loader (Some ok_unloader))
      = (Return (PyObj 1), st1) /\
    get_component "model" false st1 = (Return (PyObj 1), st2) /\
    unload_component "model" st2 = (Return tt, st3) /\
    get_component "model" false st3 = (Return (PyObj 2), st4).
Proof.
  destruct (evict_needs_an_unloader "model" counter_loader (Some ok_unloader)
              100 start (PyObj 1) (mkEnv 0 1) eq_refl)
    as (st1 & st2 & Hg1 & Hg2 & _ & _ & _ & Hev).
  destruct (Hev ok_unloader (mkEnv 0 1) (PyObj 2) (mkEnv 0 2)
              eq_refl eq_refl eq_refl)
    as (st3 & c3 & st4 & Hu & _ & _ & _ & Hg4 & _).
  exists st1, st2, st3, st4. auto.
Defined.

(** Counterexample to C6, twice: a [LOADED] component without unloader is still
    [LOADED] after [unload_all]; and with an unloader that raises once
    the second [unload_all] changes what the first one left. *)
Lemma unload_all_leaves_loaded :
  (let st := loaded counter_loader None in
   exists comp comp',
     lookup_comp "model" (components st) = Some comp /\
     state comp = LOADED /\
     lookup_comp "model" (components (exec unload_all st)) = Some comp' /\
     state comp' <> NOT_LOADED /\ instance comp' <> PyNone) /\
  (let st := exec unload_all (loaded counter_loader (Some moody_unloader)) in
   exists comp comp',
     lookup_comp "model" (components st) = Some comp /\
     lookup_comp "model" (components (exec unload_all st)) = Some comp' /\
     state comp = LOADED /\ state comp' = NOT_LOADED).
Proof.
  split.
  - eexists. eexists. split; [reflexivity|]. split; [reflexivity|].
    split; [reflexivity|]. split; discriminate.
  - eexists. eexists. split; [reflexivity|]. split; [reflexivity|].
    split; reflexivity.
Qed.

(** The unloader raises while the world counter is at most 1: in the
    first [unload_all] it is called at 1 and raises, and the component is
    kept; in the second it is called at 2, returns, and the component is
    released. *)
Lemma unload_all_effect_witness :
  let st := loaded counter_loader (Some moody_unloader) in
  exists st' st'',
    unload_all st = (Return tt, st') /\
    lookup_comp "model" (components st')
      = Some (mkComponent counter_loader (Some moody_unloader) LOADED
                (PyObj 1) 100 0 1) /\
    unload_all st' = (Return tt, st'') /\
    released "model" st''.
Proof.
  cbv zeta.
  assert (Hnd : forall s : State Inst Exn W,
            map fst (components s) = ["model"%string] ->
            NoDup (map fst (components s))).
  { intros s ->. apply (bool_decide_unpack _). reflexivity. }
  destruct (unload_all_effect (loaded counter_loader (Some moody_unloader))
              (Hnd (loaded counter_loader (Some moody_unloader)) eq_refl))
    as (st' & Hu & _ & Hturn & _ & _).
  assert (Hst' : st' = exec unload_all (loaded counter_loader (Some moody_unloader))).
  { unfold exec. rewrite Hu. reflexivity. }
  subst st'.
  destruct (unload_all_effect
              (exec unload_all (loaded counter_loader (Some moody_unloader)))
              (Hnd (exec unload_all (loaded counter_loader (Some moody_unloader)))
                 eq_refl))
    as (st'' & Hu2 & _ & Hturn2 & _ & _).
  exists (exec unload_all (loaded counter_loader (Some moody_unloader))), st''.
  split; [exact Hu|]. split; [|split; [exact Hu2|]].
  - apply (proj2 (Hturn [] "model"%string []
                    (mkComponent counter_loader (Some moody_unloader) LOADED
                       (PyObj 1) 100 0 1)
                    moody_unloader eq_refl eq_refl eq_refl eq_refl)).
    discriminate.
  - apply (proj1 (Hturn2 [] "model"%string []
                    (mkComponent counter_loader (Some moody_unloader) LOADED
                       (PyObj 1) 100 0 1)
                    moody_unloader eq_refl eq_refl eq_refl eq_refl)).
    reflexivity.
Defined.

Lemma error_is_retried_witness :
  exists st1 st2,
    get_component "model" false (registered retry_loader None)
      = (Raise (Raised "unavailable"%string), st1) /\
    get_component "model" false (set_env (mkEnv 0 1) st1)
      = (Return (PyObj 1), st2).
Proof.
  destruct (error_is_retried "model" false false
              (mkComponent retry_loader None NOT_LOADED PyNone 100 0 0)
              (registered retry_loader None) "unavailable"%string (mkEnv 0 1)
              eq_refl ltac:(discriminate) eq_refl eq_refl)
    as (st1 & comp1 & Hg & _ & _ & _ & Hnext).
  destruct (Hnext (mkEnv 0 1) (PyObj 1) (mkEnv 0 2) eq_refl)
    as (st2 & comp2 & Hg2 & _).
  exists st1, st2. auto.
Defined.

(** Ten seconds after a load, the check of a 30 s timer does nothing;
    forty seconds after, it unloads. *)
Lemma idle_check_guard_witness :
  let st := loaded counter_loader (Some ok_unloader) in
  _unload_if_idle "model" 30000 (at_time 10000 st)
    = (Return tt, at_time 10000 st) /\
  _unload_if_idle "model" 30000 (at_time 40000 st)
    = unload_component "model" (at_time 40000 st).
Proof.
  split.
  - apply (proj1 (proj2 (idle_check_guard "model" 30000
                           (at_time 10000 (loaded counter_loader (Some ok_unloader)))))).
    intros comp Hl. vm_compute in Hl. injection Hl as <-.
    left. vm_compute. reflexivity.
  - destruct (proj1 (idle_check_guard "model" 30000
                       (at_time 40000 (loaded counter_loader (Some ok_unloader)))))
      as (comp & _ & _ & _ & Heq); [|exact Heq].
    vm_compute. discriminate.
Defined.

Lemma schedule_unload_never_fails_witness :
  let st := exec (schedule_unload "ghost" None) start in
  fst (schedule_unload "ghost" None start) = Return tt /\
  unload_timers st !! "ghost"%string = Some (mkTimer 60000 "ghost" 60000 false) /\
  _unload_if_idle "ghost" 60000 st = (Return tt, st).
Proof.
  destruct (schedule_unload_never_fails "ghost" None start)
    as (t & st' & Hs & Ht & _ & _ & _ & _ & _ & _ & _ & Hidle & _).
  split; [reflexivity|]. split; [reflexivity|].
  apply Hidle. reflexivity.
Defined.

Lemma force_reload_replaces_instance_witness :
  let st := loaded counter_loader (Some ok_unloader) in
  fst (get_component "model" true st) = Return (PyObj 2) /\
  calls (exec (get_component "model" true) st)
    = [CallLoader "model"; CallLoader "model"].
Proof.
  destruct (force_reload_replaces_instance "model"
              (mkComponent counter_loader (Some ok_unloader) LOADED
                 (PyObj 1) 100 0 1)
              (loaded counter_loader (Some ok_unloader)) eq_refl eq_refl)
    as (Hc & _ & Hv).
  split; [|exact Hc].
  apply (Hv (PyObj 2)). reflexivity.
Defined.

End Scenarios.

(** * More on the registry *)

Section Registry.

Context {Inst Exn W : Type}.

Implicit Types (st : State Inst Exn W) (comp : Component Inst Exn W).
Implicit Types (l : list (string * Component Inst Exn W)).
Implicit Types (name : string) (v : PyVal Inst) (e : Env W).
Implicit Types (op : Op Inst Exn W) (ops : list (Op Inst Exn W)).

(** ** Names *)

Lemma write_comp_keys name comp' l :
  map fst (write_comp name comp' l) = map fst l.
Proof.
  induction l as [|[k c] l IH]; simpl; [reflexivity|].
  destruct (String.eqb k name); simpl; congruence.
Qed.

Lemma store_comp_keys name comp' l :
  map fst (store_comp name comp' l) =
    match lookup_comp name l with
    | Some _ => map fst l
    | None => map fst l ++ [name]
    end.
Proof.
  induction l as [|[k c] l IH]; simpl; [reflexivity|].
  destruct (String.eqb k name); simpl; [reflexivity|].
  rewrite IH. destruct (lookup_comp name l); reflexivity.
Qed.

Lemma lookup_none_keys name l :
  lookup_comp name l = None <-> ~ In name (map fst l).
Proof.
  induction l as [|[k c] l IH]; simpl; [tauto|].
  destruct (String.eqb k name) eqn:E.
  - apply String.eqb_eq in E. split; [discriminate|]. intros H. tauto.
  - apply String.eqb_neq in E. rewrite IH. tauto.
Qed.

(** What [get_component] does to the component dictionary: nothing, or
    one write through the reference it holds. *)
Lemma get_component_components name force_reload st :
  components (exec (get_component name force_reload) st) = components st \/
  exists comp',
    components (exec (get_component name force_reload) st) =
      write_comp name comp' (components st).
Proof.
  unfold exec, get_component, bind.
  destruct (lookup_comp name (components st)) as [comp|] eqn:Hl;
    [|left; reflexivity].
  destruct (decide (state comp = LOADING)) as [Hs|Hs].
  - destruct (wait_loading_times_out name comp
                (clock (env (cancel_timer name st))) (cancel_timer name st) Hs)
      as (st' & Hw & Hc & _).
    rewrite Hw. left. exact Hc.
  - rewrite wait_not_loading by exact Hs.
    unfold load_or_reuse, finish_load, reuse.
    destruct (needs_load force_reload comp); simpl.
    + destruct (loader comp (env st)) as [[x|v] e']; simpl; right;
        rewrite write_write; eexists; reflexivity.
    + right. eexists. reflexivity.
Qed.

Lemma unload_component_components name st :
  components (exec (unload_component name) st) = components st \/
  exists comp',
    components (exec (unload_component name) st) =
      write_comp name comp' (components st).
Proof.
  unfold exec, unload_component.
  destruct (lookup_comp name (components st)) as [comp|]; [|left; reflexivity].
  destruct (bool_decide (state comp = LOADED)); [|left; reflexivity].
  destruct (unloader comp) as [u|]; [|left; reflexivity].
  destruct (u (instance comp) (env st)) as [[x|] e']; [left; reflexivity|].
  right. eexists. reflexivity.
Qed.

Lemma get_component_keys name force_reload st :
  map fst (components (exec (get_component name force_reload) st)) =
    map fst (components st).
Proof.
  destruct (get_component_components name force_reload st) as [->|[c ->]];
    [reflexivity|apply write_comp_keys].
Qed.

Lemma unload_component_keys name st :
  map fst (components (exec (unload_component name) st)) =
    map fst (components st).
Proof.
  destruct (unload_component_components name st) as [->|[c ->]];
    [reflexivity|apply write_comp_keys].
Qed.

Lemma unload_if_idle_exec name timeout st :
  exec (_unload_if_idle name timeout) st = st \/
  exec (_unload_if_idle name timeout) st = exec (unload_component name) st.
Proof.
  unfold exec at 1 2, _unload_if_idle.
  destruct (lookup_comp name (components st)) as [comp|]; [|left; reflexivity].
  destruct ((timeout <=? clock (env st) - last_used comp)
            && bool_decide (state comp = LOADED)); [right|left]; reflexivity.
Qed.

(** The thread of a timer does what its check does to the components,
    the environment and the callbacks. *)
Lemma timer_fire_exec name st :
  exec (timer_fire name) st = st \/
  exists t,
    unload_timers st !! name = Some t /\ finished t = false /\
    exec (timer_fire name) st =
      set_timers
        (alter cancel name
           (unload_timers (exec (_unload_if_idle (arg_name t) (arg_timeout t)) st)))
        (exec (_unload_if_idle (arg_name t) (arg_timeout t)) st).
Proof.
  unfold exec at 1 2, timer_fire, bind.
  destruct (unload_timers st !! name) as [t|]; [|left; reflexivity].
  destruct (finished t) eqn:Hf; [left; reflexivity|].
  right. exists t. split; [reflexivity|]. split; [exact Hf|].
  pose proof (unload_if_idle_returns (arg_name t) (arg_timeout t) st) as Hr.
  unfold exec.
  destruct (_unload_if_idle (arg_name t) (arg_timeout t) st) as [r st'].
  simpl in Hr. rewrite Hr. reflexivity.
Qed.

Lemma run_op_keys op st :
  map fst (components (run_op op st)) =
    match op with
    | Register name _ _ _ =>
        match lookup_comp name (components st) with
        | Some _ => map fst (components st)
        | None => map fst (components st) ++ [name]
        end
    | _ => map fst (components st)
    end.
Proof.
  destruct op; simpl.
  - apply store_comp_keys.
  - apply get_component_keys.
  - reflexivity.
  - destruct (timer_fire_exec name st) as [->|(t & _ & _ & ->)];
      [reflexivity|]. simpl.
    destruct (unload_if_idle_exec (arg_name t) (arg_timeout t) st) as [->| ->];
      [reflexivity|apply unload_component_keys].
  - destruct (unload_if_idle_exec name timeout st) as [->| ->];
      [reflexivity|apply unload_component_keys].
  - apply unload_component_keys.
  - unfold exec. rewrite unload_all_exec. simpl.
    apply (unload_each_preserves
             (fun s => map fst (components s) = map fst (components st)));
      [|reflexivity].
    intros n s Hs. rewrite unload_component_keys. exact Hs.
  - reflexivity.
Qed.

Lemma run_op_keys_prefix op st :
  map fst (components st) `prefix_of` map fst (components (run_op op st)).
Proof.
  rewrite run_op_keys. destruct op; try reflexivity.
  destruct (lookup_comp name (components st)); [reflexivity|].
  apply prefix_app_r. reflexivity.
Qed.

Lemma run_op_keys_nodup op st :
  NoDup (map fst (components st)) ->
  NoDup (map fst (components (run_op op st))).
Proof.
  intros Hnd. rewrite run_op_keys. destruct op; try exact Hnd.
  destruct (lookup_comp name (components st)) eqn:Hl; [exact Hnd|].
  apply NoDup_app. split; [exact Hnd|]. split.
  - intros x Hx Hx'. apply list_elem_of_In in Hx.
    apply list_elem_of_singleton in Hx'. subst x.
    apply lookup_none_keys in Hl. contradiction.
  - apply NoDup_singleton.
Qed.

Lemma run_ops_keys_nodup ops st :
  NoDup (map fst (components st)) ->
  NoDup (map fst (components (run_ops ops st))).
Proof.
  revert st. induction ops as [|op ops IH]; intros st Hnd; [exact Hnd|].
  simpl. apply IH, run_op_keys_nodup, Hnd.
Qed.

Lemma run_ops_keys_prefix ops st :
  map fst (components st) `prefix_of` map fst (components (run_ops ops st)).
Proof.
  revert st. induction ops as [|op ops IH]; intros st; [reflexivity|].
  simpl. etransitivity; [apply (run_op_keys_prefix op)|apply IH].
Qed.

Lemma run_ops_app ops ops' st :
  run_ops (ops ++ ops') st = run_ops ops' (run_ops ops st).
Proof. unfold run_ops. apply fold_left_app. Qed.

(** X1.  names.  On a manager that started empty there is one descriptor
    per name, and no operation removes or reorders names: whatever runs
    next, the names registered so far stay, in their order, at the front. *)
Theorem names_are_kept ops ops' e0 :
  NoDup (map fst (components (run_ops ops (init e0)))) /\
  map fst (components (run_ops ops (init e0)))
    `prefix_of` map fst (components (run_ops (ops ++ ops') (init e0))).
Proof.
  split.
  - apply run_ops_keys_nodup. simpl. constructor.
  - rewrite run_ops_app. apply run_ops_keys_prefix.
Qed.

(** ** [register_component] *)

Lemma not_loaded_not_evictable comp : state comp <> LOADED -> ~ evictable comp.
Proof. intros Hs [Hl _]. contradiction. Qed.

Lemma no_unloader_not_evictable comp : unloader comp = None -> ~ evictable comp.
Proof. intros Hu [_ Hn]. contradiction. Qed.

Lemma unload_if_idle_keeps name timeout k comp st :
  lookup_comp k (components st) = Some comp ->
  ~ evictable comp ->
  lookup_comp k (components (exec (_unload_if_idle name timeout) st)) = Some comp.
Proof.
  intros Hl Hne.
  destruct (unload_if_idle_exec name timeout st) as [->| ->]; [exact Hl|].
  apply unload_component_keeps; assumption.
Qed.

Lemma timer_fire_keeps name k comp st :
  lookup_comp k (components st) = Some comp ->
  ~ evictable comp ->
  lookup_comp k (components (exec (timer_fire name) st)) = Some comp.
Proof.
  intros Hl Hne.
  destruct (timer_fire_exec name st) as [->|(t & _ & _ & ->)]; [exact Hl|].
  simpl. apply unload_if_idle_keeps; assumption.
Qed.

(** X2.  registration.  [register_component] returns normally and puts a
    new descriptor under the name: [NOT_LOADED], no instance, counters at
    zero.  Every other descriptor, the timers, the environment and the
    callback log stay as they are: a component that was [LOADED] under
    the name is dropped without its unloader being called and its pending
    timer is not cancelled.  When such a timer fires later it leaves the
    new descriptor alone. *)
Theorem register_installs_fresh_descriptor name loader_func unloader_func mem st :
  let fresh := mkComponent loader_func unloader_func NOT_LOADED PyNone mem 0 0 in
  exists st',
    register_component name loader_func unloader_func mem st = (Return tt, st') /\
    lookup_comp name (components st') = Some fresh /\
    (forall name', name' <> name ->
       lookup_comp name' (components st') = lookup_comp name' (components st)) /\
    unload_timers st' = unload_timers st /\
    env st' = env st /\
    calls st' = calls st /\
    (forall k e,
       lookup_comp name (components (exec (timer_fire k) (set_env e st')))
         = Some fresh).
Proof.
  intros fresh. eexists. split; [reflexivity|]. simpl.
  split; [apply lookup_store_eq|].
  split; [intros name' Hne; apply lookup_store_ne; congruence|].
  split; [reflexivity|]. split; [reflexivity|]. split; [reflexivity|].
  intros k e. apply timer_fire_keeps.
  - simpl. apply lookup_store_eq.
  - apply not_loaded_not_evictable. discriminate.
Qed.

(** ** The outcomes of [get_component] *)

Lemma get_component_result name force_reload comp st :
  lookup_comp name (components st) = Some comp ->
  state comp <> LOADING ->
  fst (get_component name force_reload st) =
    if needs_load force_reload comp then
      match fst (loader comp (env st)) with
      | inl x => Raise (Raised x)
      | inr v => Return v
      end
    else Return (instance comp).
Proof.
  intros Hl Hs. unfold get_component, bind. rewrite Hl.
  rewrite wait_not_loading by exact Hs.
  unfold load_or_reuse, finish_load, reuse.
  destruct (needs_load force_reload comp); [|reflexivity].
  simpl. destruct (loader comp (env st)) as [[x|v] e']; reflexivity.
Qed.

(** X3.  outcomes of [get_component], by what it finds.  A name that is
    not registered: the manager's [KeyError], and nothing at all has
    changed (a timer pending under that name is not cancelled).  A
    component in state [LOADING]: the manager's [TimeoutError] after 30 to
    30.1 seconds of polling, without a call of the loader.  Any other
    component: the cached instance, or the loader is called and either
    its value is returned or what it raised reaches the caller as it is.
    The class of that exception is the loader's business (it may itself
    be a [KeyError] or a [TimeoutError]), so the class alone does not tell
    a caller which of the cases it is in. *)
Theorem get_component_errors name force_reload st :
  (lookup_comp name (components st) = None ->
     get_component name force_reload st = (Raise (KeyError name), st)) /\
  (forall comp,
     lookup_comp name (components st) = Some comp ->
     state comp = LOADING ->
     exists st',
       get_component name force_reload st = (Raise (TimeoutError name), st') /\
       components st' = components st /\
       calls st' = calls st /\
       30000 < clock (env st') - clock (env st) <= 30100) /\
  (forall comp,
     lookup_comp name (components st) = Some comp ->
     state comp <> LOADING ->
     fst (get_component name force_reload st) =
       (if needs_load force_reload comp then
          match fst (loader comp (env st)) with
          | inl x => Raise (Raised x)
          | inr v => Return v
          end
        else Return (instance comp)) /\
     calls (exec (get_component name force_reload) st) =
       (if needs_load force_reload comp
        then calls st ++ [CallLoader name] else calls st)).
Proof.
  split; [|split].
  - intros Hl. unfold get_component. rewrite Hl. reflexivity.
  - intros comp Hl Hs.
    destruct (get_component_loading name force_reload comp st Hl Hs)
      as (st' & Hg & Hc & _ & Hk & Ht).
    exists st'. auto.
  - intros comp Hl Hs.
    split; [apply get_component_result; assumption|].
    destruct (needs_load force_reload comp) eqn:Hn.
    + destruct (loader comp (env st)) as [[x|v] e'] eqn:Hld.
      * destruct (get_component_load_raise name force_reload comp st x e'
                    Hl Hs Hn Hld) as (st' & Hg & Hk & _).
        unfold exec. rewrite Hg. exact Hk.
      * destruct (get_component_load_ok name force_reload comp st v e'
                    Hl Hs Hn Hld) as (st' & Hg & Hk & _).
        unfold exec. rewrite Hg. exact Hk.
    + assert (Hf : force_reload = false).
      { destruct force_reload; [discriminate Hn|reflexivity]. }
      subst force_reload.
      unfold exec. rewrite (get_component_reuse name comp st Hl Hs Hn).
      reflexivity.
Qed.

(** X4.  usage statistics.  A [get_component] that returns adds one to
    [access_count] and sets [last_used] to the time of its return; one
    that raises leaves both as they were.  The callbacks and the memory
    estimate of the descriptor never change. *)
Theorem usage_is_counted name force_reload st comp r st' :
  lookup_comp name (components st) = Some comp ->
  get_component name force_reload st = (r, st') ->
  exists comp',
    lookup_comp name (components st') = Some comp' /\
    loader comp' = loader comp /\
    unloader comp' = unloader comp /\
    memory_mb comp' = memory_mb comp /\
    match r with
    | Return _ =>
        access_count comp' = access_count comp + 1 /\
        last_used comp' = clock (env st')
    | Raise _ =>
        access_count comp' = access_count comp /\
        last_used comp' = last_used comp
    end.
Proof.
  intros Hl Hg. destruct (decide (state comp = LOADING)) as [Hs|Hs].
  - destruct (get_component_loading name force_reload comp st Hl Hs)
      as (st1 & Hg1 & Hc & _).
    rewrite Hg1 in Hg. injection Hg as <- <-.
    exists comp. rewrite Hc. auto 10.
  - destruct (needs_load force_reload comp) eqn:Hn.
    + destruct (loader comp (env st)) as [[x|v] e'] eqn:Hld.
      * destruct (get_component_load_raise name force_reload comp st x e'
                    Hl Hs Hn Hld) as (st1 & Hg1 & _ & _ & Hl1).
        rewrite Hg1 in Hg. injection Hg as <- <-.
        eexists. split; [exact Hl1|]. simpl. auto 10.
      * destruct (get_component_load_ok name force_reload comp st v e'
                    Hl Hs Hn Hld) as (st1 & Hg1 & _ & He1 & Hl1).
        rewrite Hg1 in Hg. injection Hg as <- <-.
        eexists. split; [exact Hl1|]. simpl. rewrite He1. auto 10.
    + assert (force_reload = false) as ->.
      { destruct force_reload; [discriminate Hn|reflexivity]. }
      rewrite (get_component_reuse name comp st Hl Hs Hn) in Hg.
      injection Hg as <- <-.
      eexists. split.
      * rewrite lookup_put, decide_True by reflexivity.
        simpl. rewrite Hl. reflexivity.
      * simpl. auto 10.
Qed.

(** ** Operations on one name and the rest of the registry *)

Lemma unload_component_timers name st :
  unload_timers (exec (unload_component name) st) = unload_timers st.
Proof.
  unfold exec, unload_component.
  destruct (lookup_comp name (components st)) as [comp|]; [|reflexivity].
  destruct (bool_decide (state comp = LOADED)); [|reflexivity].
  destruct (unloader comp) as [u|]; [|reflexivity].
  destruct (u (instance comp) (env st)) as [[x|] e']; reflexivity.
Qed.

Lemma unload_if_idle_timers name timeout st :
  unload_timers (exec (_unload_if_idle name timeout) st) = unload_timers st.
Proof.
  destruct (unload_if_idle_exec name timeout st) as [->| ->];
    [reflexivity|apply unload_component_timers].
Qed.

Lemma get_component_timers_any name force_reload st :
  unload_timers (exec (get_component name force_reload) st) =
    match lookup_comp name (components st) with
    | Some _ => alter cancel name (unload_timers st)
    | None => unload_timers st
    end.
Proof.
  destruct (lookup_comp name (components st)) as [comp|] eqn:Hl.
  - apply (get_component_timers name force_reload comp st Hl).
  - unfold exec, get_component. rewrite Hl. reflexivity.
Qed.

Lemma get_component_other name name' force_reload st :
  name' <> name ->
  lookup_comp name' (components (exec (get_component name force_reload) st)) =
    lookup_comp name' (components st).
Proof.
  intros Hne.
  destruct (get_component_components name force_reload st) as [->|[c ->]];
    [reflexivity|].
  apply lookup_write_ne. congruence.
Qed.

Lemma unload_if_idle_other name name' timeout st :
  name' <> name ->
  lookup_comp name' (components (exec (_unload_if_idle name timeout) st)) =
    lookup_comp name' (components st).
Proof.
  intros Hne.
  destruct (unload_if_idle_exec name timeout st) as [->| ->]; [reflexivity|].
  apply unload_component_other. congruence.
Qed.

(** X5.  independence.  Registering, acquiring, scheduling, checking or
    evicting one name leaves the descriptor and the timer of every other
    name exactly as they were, whatever the outcome. *)
Theorem other_names_untouched op name name' st :
  op_name op = Some name ->
  name' <> name ->
  lookup_comp name' (components (run_op op st)) =
    lookup_comp name' (components st) /\
  unload_timers (run_op op st) !! name' = unload_timers st !! name'.
Proof.
  intros Hop Hne. destruct op; simpl in Hop; try discriminate;
    injection Hop as ->; simpl.
  - split; [apply lookup_store_ne; congruence|reflexivity].
  - split; [apply get_component_other; exact Hne|].
    rewrite get_component_timers_any.
    destruct (lookup_comp name (components st)); [|reflexivity].
    apply lookup_alter_ne. congruence.
  - split; [reflexivity|]. apply lookup_insert_ne. congruence.
  - split; [apply unload_if_idle_other; exact Hne|].
    rewrite unload_if_idle_timers. reflexivity.
  - split; [apply unload_component_other; congruence|].
    rewrite unload_component_timers. reflexivity.
Qed.

(** ** Components without unloader *)

Lemma run_op_keeps_unevictable op k comp st :
  lookup_comp k (components st) = Some comp ->
  ~ evictable comp ->
  ~ replaces k op ->
  (forall force_reload, op <> Acquire k force_reload) ->
  lookup_comp k (components (run_op op st)) = Some comp.
Proof.
  intros Hl Hne Hrep Hacq. destruct op; simpl in *.
  - rewrite lookup_store_ne by exact Hrep. exact Hl.
  - rewrite get_component_other; [exact Hl|].
    intros ->. apply (Hacq force_reload). reflexivity.
  - exact Hl.
  - apply timer_fire_keeps; assumption.
  - apply unload_if_idle_keeps; assumption.
  - apply unload_component_keeps; assumption.
  - unfold exec. rewrite unload_all_exec. simpl.
    apply unload_each_keeps; assumption.
  - exact Hl.
Qed.

(** X6.  no unloader, no eviction.  A [LOADED] component that was
    registered without unloader stays [LOADED] with the same instance
    through every sequence of operations (timers firing, idle checks,
    [unload_component], [unload_all], further [get_component] calls) that
    neither registers its name again nor forces a reload. *)
Theorem no_unloader_no_eviction name comp ops st :
  lookup_comp name (components st) = Some comp ->
  unloader comp = None ->
  state comp = LOADED ->
  Forall (fun op => ~ replaces name op) ops ->
  exists comp',
    lookup_comp name (components (run_ops ops st)) = Some comp' /\
    state comp' = LOADED /\
    instance comp' = instance comp /\
    unloader comp' = None.
Proof.
  intros Hl Hu Hs Hops. revert st comp Hl Hu Hs.
  induction Hops as [|op ops Hop _ IH]; intros st comp Hl Hu Hs.
  - exists comp. auto.
  - simpl.
    assert (Hstep : exists comp1,
               lookup_comp name (components (run_op op st)) = Some comp1 /\
               state comp1 = LOADED /\ instance comp1 = instance comp /\
               unloader comp1 = None).
    { assert (Hkeep : (forall f, op <> Acquire name f) ->
                exists comp1,
                  lookup_comp name (components (run_op op st)) = Some comp1 /\
                  state comp1 = LOADED /\ instance comp1 = instance comp /\
                  unloader comp1 = None).
      { intros Hnot. exists comp. split; [|auto].
        apply run_op_keeps_unevictable; auto.
        apply no_unloader_not_evictable, Hu. }
      destruct op as [| name' f | | | | | |];
        try (apply Hkeep; intros f'; discriminate).
      destruct (decide (name' = name)) as [->|Hn];
        [|apply Hkeep; intros f' [= ? ?]; contradiction].
      simpl in Hop. destruct f; [exfalso; apply Hop; auto|]. simpl.
      assert (Hnl : state comp <> LOADING) by (rewrite Hs; discriminate).
      unfold exec.
      rewrite (get_component_reuse name comp st Hl Hnl
                 (needs_load_loaded comp Hs)).
      cbn [snd]. eexists. split.
      - rewrite lookup_put, decide_True by reflexivity.
        simpl. rewrite Hl. reflexivity.
      - auto. }
    destruct Hstep as (comp1 & Hl1 & Hs1 & Hi1 & Hu1).
    destruct (IH (run_op op st) comp1 Hl1 Hu1 Hs1) as (comp' & Hl' & Hs' & Hi' & Hu').
    exists comp'. rewrite Hi', Hi1. auto.
Qed.

(** ** Timers *)


(** X8.  one shot.  The thread of a timer runs its check at most once:
    after it has run, running it again does nothing, whatever the time
    and the outside world have become. *)
Theorem timer_fires_once name e st :
  timer_fire name (set_env e (exec (timer_fire name) st))
    = (Return tt, set_env e (exec (timer_fire name) st)).
Proof.
  apply timer_fire_cancelled. simpl. intros t.
  unfold exec, timer_fire, bind.
  destruct (unload_timers st !! name) as [t0|] eqn:Ht.
  - destruct (finished t0) eqn:Hf.
    + simpl. rewrite Ht. intros [= <-]. exact Hf.
    + pose proof (unload_if_idle_returns (arg_name t0) (arg_timeout t0) st) as Hr.
      destruct (_unload_if_idle (arg_name t0) (arg_timeout t0) st) as [r st1].
      simpl in Hr. rewrite Hr. simpl. rewrite lookup_alter_eq.
      destruct (unload_timers st1 !! name); simpl; [|discriminate].
      intros [= <-]. reflexivity.
  - simpl. rewrite Ht. discriminate.
Qed.

(** X9.  idle eviction.  After [schedule_unload(name, timeout)] on a
    [LOADED] component with an unloader, when the timer's thread runs at
    a time at which the component has been idle for at least the timeout,
    and the unloader returns normally: the unloader is called once with
    the stored instance, the component is [NOT_LOADED] without instance,
    and the timer is finished. *)
Theorem idle_timer_evicts name timeout comp u e e' st :
  lookup_comp name (components st) = Some comp ->
  state comp = LOADED ->
  unloader comp = Some u ->
  default (default_timeout st) timeout <= clock e - last_used comp ->
  u (instance comp) e = (None, e') ->
  exists st' t,
    timer_fire name (set_env e (exec (schedule_unload name timeout) st))
      = (Return tt, st') /\
    released name st' /\
    calls st' = calls st ++ [CallUnloader name (instance comp)] /\
    env st' = e' /\
    unload_timers st' !! name = Some t /\ finished t = true.
Proof.
  intros Hl Hs Hu Hidle Hrun.
  set (T := default (default_timeout st) timeout) in *.
  set (st1 := set_env e (exec (schedule_unload name timeout) st)).
  assert (Ht : unload_timers st1 !! name = Some (mkTimer T name T false)).
  { subst st1 T. simpl. rewrite lookup_insert_eq.
    destruct timeout; reflexivity. }
  assert (Hl1 : lookup_comp name (components st1) = Some comp) by exact Hl.
  assert (Hev : _unload_if_idle name T st1 =
                (Return tt,
                 put_comp name (set_state NOT_LOADED (set_instance PyNone comp))
                   (log_call (CallUnloader name (instance comp))
                      (set_env e' st1)))).
  { rewrite (unload_if_idle_evicts name T comp st1 Hl1 Hidle Hs).
    apply (unload_component_ok name comp u e' st1 Hl1 Hs Hu). exact Hrun. }
  unfold timer_fire, bind. rewrite Ht. simpl finished. cbv iota.
  simpl arg_name. simpl arg_timeout. rewrite Hev.
  eexists. eexists. split; [reflexivity|]. simpl.
  split.
  { eexists. split; [eapply lookup_write_eq; exact Hl|]. split; reflexivity. }
  split; [reflexivity|]. split; [reflexivity|].
  rewrite lookup_alter_eq, lookup_insert_eq. simpl. split; reflexivity.
Qed.

(** ** Evicting twice *)

(** X10.  evicting again.  [unload_component] always returns normally.
    Called a second time right after the first it changes nothing, unless
    the component was [LOADED] and its unloader raised in the first call
    (then the component is still [LOADED] and the unloader is tried
    again). *)
Theorem evict_again name st :
  fst (unload_component name st) = Return tt /\
  (unload_component name (exec (unload_component name) st)
     = (Return tt, exec (unload_component name) st) \/
   exists comp u x,
     lookup_comp name (components st) = Some comp /\
     state comp = LOADED /\
     unloader comp = Some u /\
     fst (u (instance comp) (env st)) = Some x).
Proof.
  split; [apply unload_component_returns|].
  destruct (lookup_comp name (components st)) as [comp|] eqn:Hl.
  - destruct (decide (state comp = LOADED)) as [Hs|Hs].
    + destruct (unloader comp) as [u|] eqn:Hu.
      * destruct (u (instance comp) (env st)) as [[x|] e'] eqn:Hr.
        -- right. exists comp, u, x. rewrite Hr. auto.
        -- left. unfold exec at 1 2.
           rewrite (unload_component_ok name comp u e' st Hl Hs Hu Hr).
           cbn [snd]. eapply unload_component_not_loaded.
           ++ rewrite lookup_put, decide_True by reflexivity.
              simpl. rewrite Hl. reflexivity.
           ++ discriminate.
      * left. unfold exec.
        rewrite (unload_component_no_unloader name comp st Hl Hu). cbn [snd].
        apply (unload_component_no_unloader name comp st Hl Hu).
    + left. unfold exec.
      rewrite (unload_component_not_loaded name comp st Hl Hs). cbn [snd].
      apply (unload_component_not_loaded name comp st Hl Hs).
  - left. unfold exec.
    rewrite (unload_component_unregistered name st Hl). cbn [snd].
    apply (unload_component_unregistered name st Hl).
Qed.

(** ** [get_status] and its readers *)

Lemma dict_set_fresh {V : Type} (k : string) (v : V) (d : list (string * V)) :
  ~ In k (map fst d) -> dict_set k v d = d ++ [(k, v)].
Proof.
  induction d as [|[k' v'] d IH]; simpl; [reflexivity|].
  intros Hn. destruct (String.eqb k' k) eqn:E.
  - apply String.eqb_eq in E. tauto.
  - rewrite IH by tauto. reflexivity.
Qed.

Lemma fold_dict_set_fresh {A V : Type} (f : A -> V) (l : list (string * A))
    (acc : list (string * V)) :
  NoDup (map fst acc ++ map fst l) ->
  fold_left (fun d item => dict_set (fst item) (f (snd item)) d) l acc =
    acc ++ map (fun item => (fst item, f (snd item))) l.
Proof.
  revert acc. induction l as [|[k a] l IH]; intros acc Hnd; simpl.
  - rewrite app_nil_r. reflexivity.
  - rewrite dict_set_fresh.
    + rewrite IH.
      * rewrite <- app_assoc. reflexivity.
      * rewrite map_app. simpl. rewrite <- app_assoc. exact Hnd.
    + simpl in Hnd. apply NoDup_app in Hnd. destruct Hnd as (_ & Hdis & _).
      intros Hin. apply (Hdis k); [apply list_elem_of_In; exact Hin|].
      apply list_elem_of_here.
Qed.

Lemma get_status_map st :
  NoDup (map fst (components st)) ->
  get_status st =
    (Return
       (map (fun item => (fst item, status_entry (clock (env st)) (snd item)))
          (components st)),
     st).
Proof.
  intros Hnd. unfold get_status.
  rewrite (fold_dict_set_fresh (status_entry (clock (env st)))); [reflexivity|].
  exact Hnd.
Qed.

Lemma load_state_value_loaded s :
  SStr (load_state_value s) = SStr "loaded" <-> s = LOADED.
Proof. destruct s; simpl; split; intros H; try discriminate; reflexivity. Qed.

Lemma load_state_value_loading s :
  SStr (load_state_value s) = SStr "loading" <-> s = LOADING.
Proof. destruct s; simpl; split; intros H; try discriminate; reflexivity. Qed.

Lemma lookup_comp_In name comp l :
  NoDup (map fst l) ->
  lookup_comp name l = Some comp <-> In (name, comp) l.
Proof.
  induction l as [|[k c] l IH]; simpl; intros Hnd.
  - split; [discriminate|tauto].
  - apply NoDup_cons in Hnd. destruct Hnd as [Hk Hnd].
    destruct (String.eqb k name) eqn:E.
    + apply String.eqb_eq in E. subst k. split.
      * intros [= ->]. auto.
      * intros [[= ->]|Hin]; [reflexivity|].
        exfalso. apply Hk. apply list_elem_of_In.
        apply (in_map fst) in Hin. exact Hin.
    + apply String.eqb_neq in E. rewrite (IH Hnd). split; [auto|].
      intros [[= ? ?]|Hin]; [contradiction|exact Hin].
Qed.

(** X11.  the status.  On a manager that started empty, [get_status]
    returns normally, changes nothing, and lists every registered name
    once, in registration order.  The entry of a component has exactly the
    keys [state], [idle_seconds] and [access_count]; [idle_seconds] is 0
    as long as [last_used] is not positive and the time since the last use
    afterwards.  The memory estimate given at registration is not in it. *)
Theorem get_status_lists_registry ops e0 :
  let st := run_ops ops (init e0) in
  exists status,
    get_status st = (Return status, st) /\
    map fst status = map fst (components st) /\
    (forall name,
       dict_get name status =
         match lookup_comp name (components st) with
         | Some comp =>
             Some [("state"%string, SStr (load_state_value (state comp)));
                   ("idle_seconds"%string,
                    SNum (if 0 <? last_used comp
                          then clock (env st) - last_used comp else 0));
                   ("access_count"%string, SNum (access_count comp))]
         | None => None
         end) /\
    (forall name entry,
       dict_get name status = Some entry -> dict_get "memory_mb" entry = None).
Proof.
  intros st.
  assert (Hnd : NoDup (map fst (components st))).
  { apply run_ops_keys_nodup. simpl. constructor. }
  rewrite (get_status_map st Hnd). eexists. split; [reflexivity|].
  assert (Hget : forall name,
             dict_get name
               (map (fun item => (fst item, status_entry (clock (env st)) (snd item)))
                  (components st)) =
             option_map (status_entry (clock (env st)))
               (lookup_comp name (components st))).
  { intros name. clear Hnd. induction (components st) as [|[k c] l IH];
      simpl; [reflexivity|].
    destruct (String.eqb k name); [reflexivity|exact IH]. }
  split; [rewrite map_map; reflexivity|]. split.
  - intros name. rewrite Hget.
    destruct (lookup_comp name (components st)); reflexivity.
  - intros name entry. rewrite Hget.
    destruct (lookup_comp name (components st)); simpl; [|discriminate].
    intros [= <-]. reflexivity.
Qed.

Lemma gui_memory_rows_entries now (l : list (string * Component Inst Exn W)) :
  gui_memory_rows (Exn:=Exn)
    (map (fun item => (fst item, status_entry now (snd item))) l) =
    if existsb (fun item => bool_decide (state (snd item) = LOADED)) l
    then Raise (KeyError "memory_mb")
    else Return [].
Proof.
  induction l as [|[k c] l IH]; simpl; [reflexivity|].
  unfold subscript. simpl.
  destruct (decide (SStr (load_state_value (state c)) = SStr "loaded")) as [E|E].
  - apply load_state_value_loaded in E.
    rewrite bool_decide_eq_true_2 by exact E. reflexivity.
  - rewrite bool_decide_eq_false_2
      by (intros Hs; apply E, load_state_value_loaded, Hs).
    exact IH.
Qed.

(** X12.  the GUI's [memory] command.  On a manager that started empty the
    command fails with [KeyError('memory_mb')] as soon as one registered
    component is [LOADED], because [get_status] has no such key; it
    succeeds, with an empty list, only while nothing is loaded. *)
Theorem gui_memory_command_needs_memory_mb ops e0 :
  let st := run_ops ops (init e0) in
  ((exists name comp,
      lookup_comp name (components st) = Some comp /\ state comp = LOADED) ->
   gui_memory_command st = (Raise (KeyError "memory_mb"), st)) /\
  ((forall name comp,
      lookup_comp name (components st) = Some comp -> state comp <> LOADED) ->
   gui_memory_command st = (Return [], st)).
Proof.
  intros st.
  assert (Hnd : NoDup (map fst (components st))).
  { apply run_ops_keys_nodup. simpl. constructor. }
  unfold gui_memory_command. rewrite (get_status_map st Hnd).
  rewrite gui_memory_rows_entries. split.
  - intros (name & comp & Hl & Hs).
    apply (lookup_comp_In _ _ _ Hnd) in Hl.
    assert (Hex : existsb (fun item => bool_decide (state (snd item) = LOADED))
                    (components st) = true).
    { apply existsb_exists. exists (name, comp). split; [exact Hl|].
      apply bool_decide_eq_true_2. exact Hs. }
    rewrite Hex. reflexivity.
  - intros Hnone.
    destruct (existsb (fun item => bool_decide (state (snd item) = LOADED))
                (components st)) eqn:Hex; [|reflexivity].
    apply existsb_exists in Hex. destruct Hex as ([name comp] & Hin & Hb).
    apply bool_decide_eq_true_1 in Hb. simpl in Hb.
    apply (lookup_comp_In _ _ _ Hnd) in Hin.
    exfalso. exact (Hnone name comp Hin Hb).
Qed.

Lemma show_memory_lines_entries now (l : list (string * Component Inst Exn W)) :
  show_memory_lines (Exn:=Exn)
    (map (fun item => (fst item, status_entry now (snd item))) l) =
    Return
      (map (fun item =>
              (fst item,
               if decide (state (snd item) = LOADED) then
                 LineLoaded
                   (SNum (if 0 <? last_used (snd item)
                          then now - last_used (snd item) else 0))
               else if decide (state (snd item) = LOADING) then LineLoading
               else LineNotLoaded)) l).
Proof.
  induction l as [|[k c] l IH]; simpl; [reflexivity|].
  unfold subscript. simpl. rewrite IH. simpl.
  destruct (state c); reflexivity.
Qed.

(** X13.  the console's memory status.  On a manager that started empty,
    [_show_memory_status] never fails on what [get_status] returns: it
    prints one line per registered component, in registration order,
    "LOADED" with the idle time exactly for the [LOADED] ones, and
    "NOT LOADED" also for a component in state [ERROR]. *)
Theorem show_memory_status_lines ops e0 :
  let st := run_ops ops (init e0) in
  exists lines,
    show_memory_status st = (Return lines, st) /\
    map fst lines = map fst (components st) /\
    forall name comp,
      lookup_comp name (components st) = Some comp ->
      dict_get name lines =
        Some (if decide (state comp = LOADED) then
                LineLoaded
                  (SNum (if 0 <? last_used comp
                         then clock (env st) - last_used comp else 0))
              else if decide (state comp = LOADING) then LineLoading
              else LineNotLoaded).
Proof.
  intros st.
  assert (Hnd : NoDup (map fst (components st))).
  { apply run_ops_keys_nodup. simpl. constructor. }
  unfold show_memory_status. rewrite (get_status_map st Hnd).
  rewrite show_memory_lines_entries.
  eexists. split; [reflexivity|].
  split; [rewrite map_map; reflexivity|].
  intros name comp. clear Hnd.
  induction (components st) as [|[k c] l IH]; simpl; [discriminate|].
  destruct (String.eqb k name); [intros [= ->]; reflexivity|exact IH].
Qed.

(** ** State and instance between operations *)

(** A descriptor after [unload_component]: released, or what it was. *)
Lemma unload_component_descriptor name k comp' st :
  lookup_comp k (components (exec (unload_component name) st)) = Some comp' ->
  (state comp' = NOT_LOADED /\ instance comp' = PyNone) \/
  lookup_comp k (components st) = Some comp'.
Proof.
  destruct (decide (name = k)) as [->|Hne].
  - unfold exec, unload_component.
    destruct (lookup_comp k (components st)) as [comp|] eqn:Hl;
      [|simpl; rewrite Hl; auto].
    destruct (bool_decide (state comp = LOADED)); [|simpl; rewrite Hl; auto].
    destruct (unloader comp) as [u|]; [|simpl; rewrite Hl; auto].
    destruct (u (instance comp) (env st)) as [[x|] e']; simpl;
      [rewrite Hl; auto|].
    erewrite lookup_write_eq by exact Hl. intros [= <-].
    left. split; reflexivity.
  - rewrite unload_component_other by exact Hne. auto.
Qed.

Lemma unload_each_descriptor names k comp' st :
  lookup_comp k (components (exec (unload_each names) st)) = Some comp' ->
  (state comp' = NOT_LOADED /\ instance comp' = PyNone) \/
  lookup_comp k (components st) = Some comp'.
Proof.
  revert st. induction names as [|n names IH]; intros st; [auto|].
  rewrite exec_unload_each_cons. intros H.
  destruct (IH _ H) as [Hrel|H']; [left; exact Hrel|].
  apply (unload_component_descriptor n). exact H'.
Qed.

Lemma unload_if_idle_descriptor name timeout k comp' st :
  lookup_comp k (components (exec (_unload_if_idle name timeout) st))
    = Some comp' ->
  (state comp' = NOT_LOADED /\ instance comp' = PyNone) \/
  lookup_comp k (components st) = Some comp'.
Proof.
  destruct (unload_if_idle_exec name timeout st) as [->| ->]; [auto|].
  apply unload_component_descriptor.
Qed.

Lemma timer_fire_descriptor name k comp' st :
  lookup_comp k (components (exec (timer_fire name) st)) = Some comp' ->
  (state comp' = NOT_LOADED /\ instance comp' = PyNone) \/
  lookup_comp k (components st) = Some comp'.
Proof.
  destruct (timer_fire_exec name st) as [->|(t & _ & _ & ->)]; [auto|].
  simpl. apply unload_if_idle_descriptor.
Qed.

(** A descriptor after [get_component]: as it was up to the usage
    statistics, in [ERROR], or loaded by this very call. *)
Lemma get_component_descriptor name force_reload k comp' st :
  lookup_comp k (components (exec (get_component name force_reload) st))
    = Some comp' ->
  state comp' = ERROR \/
  (exists comp,
     lookup_comp k (components st) = Some comp /\
     state comp' = state comp /\ instance comp' = instance comp /\
     loader comp' = loader comp) \/
  (name = k /\ state comp' = LOADED /\
   fst (loader comp' (env st)) = inr (instance comp') /\
   fst (get_component name force_reload st) = Return (instance comp')).
Proof.
  destruct (decide (k = name)) as [->|Hne].
  - destruct (lookup_comp name (components st)) as [comp|] eqn:Hl.
    + destruct (decide (state comp = LOADING)) as [Hs|Hs].
      { destruct (get_component_loading name force_reload comp st Hl Hs)
          as (st' & Hg & Hc & _).
        unfold exec. rewrite Hg. simpl. rewrite Hc, Hl. intros [= <-].
        right. left. exists comp. auto. }
      destruct (needs_load force_reload comp) eqn:Hn.
      * destruct (loader comp (env st)) as [[x|v] e'] eqn:Hld.
        -- destruct (get_component_load_raise name force_reload comp st x e'
                       Hl Hs Hn Hld) as (st' & Hg & _ & _ & Hl').
           unfold exec. rewrite Hg. simpl. rewrite Hl'. intros [= <-].
           left. reflexivity.
        -- destruct (get_component_load_ok name force_reload comp st v e'
                       Hl Hs Hn Hld) as (st' & Hg & _ & _ & Hl').
           unfold exec. rewrite Hg. simpl. rewrite Hl'. intros [= <-].
           right. right. simpl. rewrite Hld. auto.
      * assert (Hf : force_reload = false).
        { destruct force_reload; [discriminate Hn|reflexivity]. }
        subst force_reload.
        unfold exec. rewrite (get_component_reuse name comp st Hl Hs Hn).
        simpl. erewrite lookup_write_eq by exact Hl. intros [= <-].
        right. left. exists comp. auto.
    + unfold exec, get_component. rewrite Hl. simpl. rewrite Hl. discriminate.
  - rewrite get_component_other by exact Hne. intros H.
    right. left. exists comp'. auto.
Qed.

(** A descriptor after one operation: released, in [ERROR], as it was up
    to the usage statistics, or loaded by this operation, an acquire. *)
Lemma run_op_descriptor op st k comp' :
  lookup_comp k (components (run_op op st)) = Some comp' ->
  (state comp' = NOT_LOADED /\ instance comp' = PyNone) \/
  state comp' = ERROR \/
  (exists comp,
     lookup_comp k (components st) = Some comp /\
     state comp' = state comp /\ instance comp' = instance comp /\
     loader comp' = loader comp) \/
  (exists force_reload,
     op = Acquire k force_reload /\ state comp' = LOADED /\
     fst (loader comp' (env st)) = inr (instance comp') /\
     fst (get_component k force_reload st) = Return (instance comp')).
Proof.
  assert (Hsame : lookup_comp k (components st) = Some comp' ->
            (state comp' = NOT_LOADED /\ instance comp' = PyNone) \/
            state comp' = ERROR \/
            (exists comp,
               lookup_comp k (components st) = Some comp /\
               state comp' = state comp /\ instance comp' = instance comp /\
               loader comp' = loader comp) \/
            (exists force_reload,
               op = Acquire k force_reload /\ state comp' = LOADED /\
               fst (loader comp' (env st)) = inr (instance comp') /\
               fst (get_component k force_reload st) = Return (instance comp'))).
  { intros H. right. right. left. exists comp'. auto. }
  assert (Hunload : (state comp' = NOT_LOADED /\ instance comp' = PyNone) \/
                    lookup_comp k (components st) = Some comp' ->
            (state comp' = NOT_LOADED /\ instance comp' = PyNone) \/
            state comp' = ERROR \/
            (exists comp,
               lookup_comp k (components st) = Some comp /\
               state comp' = state comp /\ instance comp' = instance comp /\
               loader comp' = loader comp) \/
            (exists force_reload,
               op = Acquire k force_reload /\ state comp' = LOADED /\
               fst (loader comp' (env st)) = inr (instance comp') /\
               fst (get_component k force_reload st) = Return (instance comp'))).
  { intros [H|H]; [left; exact H|apply Hsame; exact H]. }
  destruct op as [name l u m|name force|name t|name|name t|name| |g];
    cbn [run_op].
  - unfold exec, register_component. simpl.
    destruct (decide (name = k)) as [->|Hne].
    + rewrite lookup_store_eq. intros [= <-]. left. split; reflexivity.
    + rewrite lookup_store_ne by exact Hne. exact Hsame.
  - intros H.
    destruct (get_component_descriptor name force k comp' st H)
      as [He|[Hs|(-> & Hs & Hld & Hg)]].
    + right. left. exact He.
    + right. right. left. exact Hs.
    + right. right. right. exists force. auto.
  - exact Hsame.
  - intros H. apply Hunload. eapply timer_fire_descriptor. exact H.
  - intros H. apply Hunload. eapply unload_if_idle_descriptor. exact H.
  - intros H. apply Hunload. eapply unload_component_descriptor. exact H.
  - unfold exec. rewrite unload_all_exec. simpl. intros H.
    apply Hunload. eapply unload_each_descriptor. exact H.
  - exact Hsame.
Qed.

(** C3, as the code has it.  After any sequence of operations on a new
    manager, a registered component that is [NOT_LOADED] has no instance,
    and the instance of a [LOADED] component is the value that its loader
    returned to an acquire of the sequence, the value that this acquire
    handed out; so it is not [None] when the loader never returns [None].
    Nothing is said of the instance in the other states. *)
Theorem instance_follows_state ops e0 k comp :
  lookup_comp k (components (run_ops ops (init e0))) = Some comp ->
  (state comp = NOT_LOADED -> instance comp = PyNone) /\
  (state comp = LOADED ->
   (exists ops1 force_reload ops2,
      ops = ops1 ++ Acquire k force_reload :: ops2 /\
      fst (loader comp (env (run_ops ops1 (init e0)))) = inr (instance comp) /\
      fst (get_component k force_reload (run_ops ops1 (init e0)))
        = Return (instance comp)) /\
   ((forall e, fst (loader comp e) <> inr PyNone) -> instance comp <> PyNone)).
Proof.
  assert (Hmain : forall ops k comp,
            lookup_comp k (components (run_ops ops (init e0))) = Some comp ->
            (state comp = NOT_LOADED -> instance comp = PyNone) /\
            (state comp = LOADED ->
             exists ops1 force_reload ops2,
               ops = ops1 ++ Acquire k force_reload :: ops2 /\
               fst (loader comp (env (run_ops ops1 (init e0))))
                 = inr (instance comp) /\
               fst (get_component k force_reload (run_ops ops1 (init e0)))
                 = Return (instance comp))).
  { clear ops k comp. intros ops.
    induction ops as [|op ops IH] using rev_ind; intros k comp Hl.
    { discriminate Hl. }
    rewrite run_ops_app in Hl. cbn [run_ops fold_left] in Hl.
    destruct (run_op_descriptor op _ k comp Hl)
      as [[Hs Hi]|[He|[(comp0 & Hl0 & Hs & Hi & Hld)|(force & -> & Hs & Hv & Hg)]]].
    - split; [intros _; exact Hi|]. rewrite Hs. discriminate.
    - rewrite He. split; discriminate.
    - destruct (IH k comp0 Hl0) as [Hnone Hloaded].
      rewrite Hs, Hi, Hld. split; [exact Hnone|].
      intros Hst. destruct (Hloaded Hst) as (ops1 & force & ops2 & -> & Hv & Hg).
      exists ops1, force, (ops2 ++ [op]). split; [|auto].
      rewrite <- app_assoc. reflexivity.
    - split; [rewrite Hs; discriminate|]. intros _.
      exists ops, force, []. auto. }
  intros Hl. destruct (Hmain ops k comp Hl) as [Hnone Hloaded].
  split; [exact Hnone|]. intros Hs. split; [exact (Hloaded Hs)|].
  intros Hgood Hi.
  destruct (Hloaded Hs) as (ops1 & force & ops2 & _ & Hv & _).
  apply (Hgood (env (run_ops ops1 (init e0)))). rewrite Hv, Hi. reflexivity.
Qed.

End Registry.

(** * More on concurrent callers *)

Section Threads.

Context {Inst Exn W : Type}.

Implicit Types (st : State Inst Exn W) (comp : Component Inst Exn W).
Implicit Types (cfg : Config Inst Exn W) (pc : Pc Inst Exn).
Implicit Types (ths : list (Pc Inst Exn)) (name : string).

Lemma lock_consistent_step cfg cfg' :
  lock_consistent cfg -> step cfg cfg' -> lock_consistent cfg'.
Proof.
  intros Hinv Hst. destruct Hst as [i pc pc' st' cfg Hth Hrun Hstep].
  intros j pcj Hj. simpl in Hj |- *.
  assert (Hi : (i < length (threads cfg))%nat)
    by (eapply lookup_lt_Some; exact Hth).
  destruct (decide (i = j)) as [->|Hne].
  - rewrite list_lookup_insert_eq in Hj by exact Hi. injection Hj as <-.
    destruct (holds_lock pc'); split; intros H; congruence.
  - rewrite list_lookup_insert_ne in Hj by exact Hne.
    assert (Hfree : holds_lock pcj = false).
    { destruct (holds_lock pcj) eqn:Hh; [|reflexivity].
      apply (Hinv j pcj Hj) in Hh.
      destruct pc; simpl in Hrun; try contradiction; congruence. }
    rewrite Hfree. split; [discriminate|].
    destruct (holds_lock pc'); congruence.
Qed.

Lemma lock_consistent_nsteps k cfg cfg' :
  lock_consistent cfg -> nsteps step k cfg cfg' -> lock_consistent cfg'.
Proof.
  intros Hinv Hsteps. induction Hsteps as [|k cfg cfg1 cfg2 Hst _ IH];
    [exact Hinv|].
  apply IH. eapply lock_consistent_step; eauto.
Qed.

(** X14.  one lock for everything.  Start any number of threads, each about
    to call [get_component] with a name and flag of its own.  Under every
    interleaving at most one thread is inside [get_component]; and while
    a thread is inside, for instance running a loader, no other thread
    moves, whichever component it asked for. *)
Theorem one_thread_inside ths st k cfg :
  Forall (fun pc => holds_lock pc = false) ths ->
  nsteps step k (mkConfig st None ths) cfg ->
  (forall i j pci pcj,
     threads cfg !! i = Some pci -> threads cfg !! j = Some pcj ->
     holds_lock pci = true -> holds_lock pcj = true -> i = j) /\
  (forall i pci,
     threads cfg !! i = Some pci -> holds_lock pci = true ->
     forall cfg' j, step cfg cfg' -> j <> i ->
       threads cfg' !! j = threads cfg !! j).
Proof.
  intros Hths Hsteps.
  assert (Hinv : lock_consistent cfg).
  { eapply lock_consistent_nsteps; [|exact Hsteps].
    intros i pc Hi. simpl in *.
    rewrite (Forall_lookup_1 _ _ _ _ Hths Hi). split; discriminate. }
  split.
  - intros i j pci pcj Hi Hj Hhi Hhj.
    apply (Hinv i pci Hi) in Hhi. apply (Hinv j pcj Hj) in Hhj. congruence.
  - intros i pci Hi Hhi cfg' j Hst Hne.
    apply (Hinv i pci Hi) in Hhi.
    eapply others_wait_for_the_lock; eauto.
Qed.

(** ** Callers of a component whose loader fails *)

Lemma sum_insert (f : Pc Inst Exn -> nat) ths i pc pc' :
  ths !! i = Some pc ->
  (list_sum (map f (<[i := pc']> ths)) + f pc =
   list_sum (map f ths) + f pc')%nat.
Proof.
  revert i. induction ths as [|t ths IH]; intros [|i] H; simpl in *;
    try discriminate.
  - injection H as ->. lia.
  - specialize (IH i H). lia.
Qed.

Lemma step_length cfg cfg' :
  step cfg cfg' -> length (threads cfg') = length (threads cfg).
Proof. intros [i pc pc' st' cfg0 _ _ _]. simpl. apply length_insert. Qed.

Lemma nsteps_length k cfg cfg' :
  nsteps step k cfg cfg' -> length (threads cfg') = length (threads cfg).
Proof.
  induction 1 as [|k cfg cfg1 cfg2 Hst _ IH]; [reflexivity|].
  rewrite IH. apply step_length. exact Hst.
Qed.

Lemma all_finished_sum ths :
  Forall (fun pc => exists r, pc = Finished r) ths ->
  list_sum (map is_finished ths) = length ths.
Proof.
  induction 1 as [|pc ths [r ->] _ IH]; simpl; [reflexivity|].
  rewrite IH. reflexivity.
Qed.

Section Retry.

Variables (name : string) (st0 : State Inst Exn W).
Variable comp0 : Component Inst Exn W.
Hypothesis Hfail : forall e, exists x e', loader comp0 e = (inl x, e').

Local Abbreviation retry := (retry_phase name st0 comp0).

Lemma retry_enter st comp :
  lookup_comp name (components st) = Some comp ->
  state comp = NOT_LOADED \/ state comp = ERROR ->
  thread_step (AtCall name false) st =
    Some (InLoader name, begin_load name comp (cancel_timer name st)).
Proof.
  intros Hl Hs. simpl. rewrite Hl.
  destruct (decide (state comp = LOADING)) as [E|_];
    [destruct Hs; congruence|].
  unfold dispatch, needs_load.
  destruct Hs as [-> | ->]; reflexivity.
Qed.

Lemma retry_load st comp :
  lookup_comp name (components st) = Some comp ->
  loader comp = loader comp0 ->
  exists x st1,
    thread_step (InLoader name) st = Some (Finished (Raise (Raised x)), st1) /\
    lookup_comp name (components st1) = Some (set_state ERROR comp) /\
    calls st1 = calls st ++ [CallLoader name].
Proof.
  intros Hl Hld. simpl. rewrite Hl. unfold finish_load. rewrite Hld.
  destruct (Hfail (env st)) as (x & e' & ->).
  exists x. eexists. split; [reflexivity|]. simpl.
  split; [eapply lookup_write_eq; exact Hl|reflexivity].
Qed.

Lemma retry_step cfg cfg' :
  retry cfg -> step cfg cfg' ->
  retry cfg' /\ (weight cfg' < weight cfg)%nat.
Proof.
  intros Hph Hst. destruct Hst as [i pc pc' st' cfg Hth Hrun Hstep].
  destruct Hph as [st ths comp Hl Hs Hld Hc Hall
                  |j st ths comp Hl Hs Hld Hc Hj Hothers];
    simpl in Hth, Hrun, Hstep.
  - pose proof (Forall_lookup_1 _ _ _ _ Hall Hth) as [->|[x ->]];
      [|destruct Hrun].
    rewrite (retry_enter st comp Hl Hs) in Hstep. injection Hstep as <- <-.
    pose proof (sum_insert is_finished ths i _ (InLoader name) Hth) as Hsum.
    pose proof (sum_insert pc_weight ths i _ (InLoader name) Hth) as Hw.
    simpl in Hsum, Hw.
    assert (Hi : (i < length ths)%nat) by (eapply lookup_lt_Some; exact Hth).
    split.
    + simpl. eapply retry_busy with (comp := set_state LOADING comp).
      * simpl. eapply lookup_write_eq. exact Hl.
      * reflexivity.
      * exact Hld.
      * simpl. rewrite Hc. f_equal. f_equal. lia.
      * apply list_lookup_insert_eq. exact Hi.
      * intros j pc Hne Hj. rewrite list_lookup_insert_ne in Hj by congruence.
        exact (Forall_lookup_1 _ _ _ _ Hall Hj).
    + unfold weight. simpl. lia.
  - destruct (decide (i = j)) as [->|Hne].
    + rewrite Hj in Hth. injection Hth as <-.
      destruct (retry_load st comp Hl Hld) as (x & st1 & Hrl & Hl1 & Hc1).
      rewrite Hrl in Hstep. injection Hstep as <- <-.
      pose proof (sum_insert is_finished ths j _ (Finished (Raise (Raised x))) Hj)
        as Hsum.
      pose proof (sum_insert pc_weight ths j _ (Finished (Raise (Raised x))) Hj)
        as Hw.
      simpl in Hsum, Hw.
      assert (Hlt : (j < length ths)%nat) by (eapply lookup_lt_Some; exact Hj).
      split.
      * simpl. eapply retry_quiet with (comp := set_state ERROR comp).
        -- exact Hl1.
        -- right. reflexivity.
        -- exact Hld.
        -- rewrite Hc1, Hc, <- app_assoc. f_equal.
           replace (list_sum (map is_finished (<[j:=Finished (Raise (Raised x))]> ths)))
             with (list_sum (map is_finished ths) + 1)%nat by lia.
           rewrite replicate_add. reflexivity.
        -- apply Forall_lookup_2. intros k pc Hk.
           destruct (decide (k = j)) as [->|Hkj].
           ++ rewrite list_lookup_insert_eq in Hk by exact Hlt.
              injection Hk as <-. right. eexists. reflexivity.
           ++ rewrite list_lookup_insert_ne in Hk by congruence.
              exact (Hothers k pc Hkj Hk).
      * unfold weight. simpl. lia.
    + exfalso. destruct (Hothers i pc Hne Hth) as [->|[x ->]]; simpl in Hrun;
        [discriminate|contradiction].
Qed.

Lemma retry_nsteps k cfg cfg' :
  retry cfg -> nsteps step k cfg cfg' ->
  retry cfg' /\ (k + weight cfg' <= weight cfg)%nat.
Proof.
  intros Hph Hsteps. induction Hsteps as [cfg|k cfg cfg1 cfg2 Hst _ IH].
  - split; [exact Hph|lia].
  - destruct (retry_step cfg cfg1 Hph Hst) as [Hph1 Hw].
    destruct (IH Hph1) as [Hph2 Hk]. split; [exact Hph2|lia].
Qed.

Lemma retry_quiet_progress ths :
  Forall (fun pc => pc = AtCall name false \/ failed_caller pc) ths ->
  Forall (fun pc => exists r, pc = Finished r) ths \/
  exists i, ths !! i = Some (AtCall name false).
Proof.
  induction 1 as [|pc ths [->|[x ->]] _ IH].
  - left. constructor.
  - right. exists O. reflexivity.
  - destruct IH as [IH|[i IH]].
    + left. constructor; [eexists; reflexivity|exact IH].
    + right. exists (S i). exact IH.
Qed.

Lemma retry_progress cfg :
  retry cfg -> all_finished cfg \/ exists cfg', step cfg cfg'.
Proof.
  intros [st ths comp Hl Hs Hld Hc Hall|j st ths comp Hl Hs Hld Hc Hj Hothers].
  - destruct (retry_quiet_progress ths Hall) as [Hfin|[i Hth]].
    + left. exact Hfin.
    + right. eexists. eapply (step_thread i (AtCall name false)); simpl.
      * exact Hth.
      * reflexivity.
      * apply (retry_enter st comp Hl Hs).
  - right. destruct (retry_load st comp Hl Hld) as (x & st1 & Hrl & _).
    eexists. eapply (step_thread j (InLoader name)); simpl.
    + exact Hj.
    + reflexivity.
    + exact Hrl.
Qed.

Lemma retry_results cfg i r :
  retry cfg -> threads cfg !! i = Some (Finished r) ->
  exists x, r = Raise (Raised x).
Proof.
  intros [st ths comp Hl Hs Hld Hc Hall|j st ths comp Hl Hs Hld Hc Hj Hothers]
    Hth; simpl in Hth.
  - destruct (Forall_lookup_1 _ _ _ _ Hall Hth) as [[=]|[x [= ->]]]. eauto.
  - destruct (decide (i = j)) as [->|Hne]; [congruence|].
    destruct (Hothers i _ Hne Hth) as [[=]|[x [= ->]]]. eauto.
Qed.

Lemma retry_calls cfg :
  retry cfg ->
  calls (shared cfg) =
    calls st0 ++
      replicate (list_sum (map is_finished (threads cfg))) (CallLoader name).
Proof.
  intros [st ths comp Hl Hs Hld Hc Hall|j st ths comp Hl Hs Hld Hc Hj Hothers];
    exact Hc.
Qed.

End Retry.

Lemma callers_not_finished (n : nat) name :
  list_sum (map is_finished
              (replicate n (AtCall (Inst:=Inst) (Exn:=Exn) name false))) = O.
Proof. induction n as [|m IH]; simpl; [reflexivity|exact IH]. Qed.

(** X15.  a failing loader is tried by every caller.  [n] callers of
    [get_component(name)] on a component that is [NOT_LOADED] or in
    [ERROR] and whose loader raises every time: under every interleaving
    each caller that is done got a loader exception, the loader has been
    called once per such caller, so [n] times when all are done; and
    every interleaving ends within [2 * n] steps. *)
Theorem failing_loader_is_tried_by_every_caller n name st0 comp0 k cfg :
  lookup_comp name (components st0) = Some comp0 ->
  state comp0 = NOT_LOADED \/ state comp0 = ERROR ->
  (forall e, exists x e', loader comp0 e = (inl x, e')) ->
  nsteps step k (callers n name st0) cfg ->
  (forall i r, threads cfg !! i = Some (Finished r) ->
     exists x, r = Raise (Raised x)) /\
  calls (shared cfg) =
    calls st0 ++
      replicate (list_sum (map is_finished (threads cfg))) (CallLoader name) /\
  (all_finished cfg ->
   calls (shared cfg) = calls st0 ++ replicate n (CallLoader name)) /\
  (all_finished cfg \/ exists cfg', step cfg cfg') /\
  (k <= 2 * n)%nat.
Proof.
  intros Hreg Hs Hfail Hsteps.
  assert (Hinit : retry_phase name st0 comp0 (callers n name st0)).
  { eapply retry_quiet with (comp := comp0); auto.
    - rewrite callers_not_finished. simpl. rewrite app_nil_r. reflexivity.
    - apply Forall_replicate. left. reflexivity. }
  destruct (retry_nsteps name st0 comp0 Hfail k _ cfg Hinit Hsteps) as [Hph Hk].
  rewrite weight_callers in Hk.
  pose proof (nsteps_length _ _ _ Hsteps) as Hlen. simpl in Hlen.
  rewrite length_replicate in Hlen.
  split; [intros i r; eapply retry_results; eauto|].
  split; [eapply retry_calls; eauto|].
  split.
  { intros Hall. rewrite (retry_calls name st0 comp0 cfg Hph).
    rewrite (all_finished_sum _ Hall), Hlen. reflexivity. }
  split; [eapply retry_progress; eauto|lia].
Qed.

End Threads.

(** * The configuration *)

Section ConfigProperties.

Context {A : Type}.

Implicit Types (config value default : Config.Value A).
Implicit Types (d base update : list (string * Config.Value A)).
Implicit Types (k key : string) (keys rest : list string).

Lemma dict_get_set_eq {V : Type} k (v : V) (d : list (string * V)) :
  dict_get k (dict_set k v d) = Some v.
Proof.
  induction d as [|[k' v'] d IH]; simpl.
  - rewrite String.eqb_refl. reflexivity.
  - destruct (String.eqb k' k) eqn:E; simpl; rewrite E; auto.
Qed.

Lemma dict_get_set_ne {V : Type} k k' (v : V) (d : list (string * V)) :
  k <> k' -> dict_get k' (dict_set k v d) = dict_get k' d.
Proof.
  intros Hne. induction d as [|[k0 v0] d IH]; simpl.
  - destruct (String.eqb k k') eqn:E; [|reflexivity].
    apply String.eqb_eq in E. contradiction.
  - destruct (String.eqb k0 k) eqn:E; simpl.
    + apply String.eqb_eq in E. subst k0.
      destruct (String.eqb k k') eqn:E'; [|reflexivity].
      apply String.eqb_eq in E'. contradiction.
    + rewrite IH. reflexivity.
Qed.


Lemma get_set_keys k rest value config config' default :
  Config.set_keys k rest value config = Some config' ->
  Config.get_keys (k :: rest) config' default = value.
Proof.
  revert k config config'. induction rest as [|k' rest IH];
    intros k config config'; destruct config as [a|d]; simpl; try discriminate.
  - intros [= <-]. simpl. rewrite dict_get_set_eq. reflexivity.
  - destruct (Config.set_keys k' rest value
                match dict_get k d with
                | Some v => v
                | None => Config.Dict []
                end) as [inner'|] eqn:Hin; [|discriminate].
    intros [= <-]. simpl. rewrite dict_get_set_eq.
    apply (IH _ _ _ Hin).
Qed.

(** X16.  set, then get.  When [set(key, value)] returns, [get(key)] gives
    [value], whatever the default; every dict on the way was taken or
    created. *)
Theorem config_get_after_set config key value config' default :
  Config.set config key value = Some config' ->
  Config.get config' key default = value.
Proof.
  unfold Config.set, Config.get, Config.split.
  destruct (Config.split_parts "." key) as [w ws].
  apply get_set_keys.
Qed.

Lemma set_keys_fails k rest value config :
  Config.set_keys k rest value config = None <->
  exists p q a,
    k :: rest = p ++ q /\ q <> [] /\
    Config.get_keys p config (Config.Dict []) = Config.Leaf a.
Proof.
  split.
  - revert k config. induction rest as [|k' rest IH]; intros k config;
      destruct config as [a|d]; simpl.
    + intros _. exists [], [k], a. split; [reflexivity|]. split; [discriminate|reflexivity].
    + discriminate.
    + intros _. exists [], (k :: k' :: rest), a.
      split; [reflexivity|]. split; [discriminate|reflexivity].
    + destruct (Config.set_keys k' rest value
                  match dict_get k d with
                  | Some v => v
                  | None => Config.Dict []
                  end) as [inner'|] eqn:Hin; [discriminate|].
      intros _. destruct (IH _ _ Hin) as (p & q & a & Hpq & Hq & Hget).
      exists (k :: p), q, a. split; [simpl; congruence|]. split; [exact Hq|].
      simpl. destruct (dict_get k d) as [v|]; [exact Hget|].
      destruct p as [|k0 p]; simpl in Hget; discriminate.
  - intros (p & q & a & Hpq & Hq & Hget).
    revert k rest config Hpq Hget.
    induction p as [|k0 p IH]; intros k rest config Hpq Hget.
    + simpl in Hget. subst config. destruct rest; reflexivity.
    + simpl in Hpq. injection Hpq as Hk Hrest. subst k rest.
      destruct config as [a0|d]; [discriminate Hget|].
      simpl in Hget.
      destruct (dict_get k0 d) as [v|] eqn:Hd; [|discriminate].
      destruct (p ++ q) as [|k1 rest1] eqn:Epq.
      { apply app_eq_nil in Epq. destruct Epq. contradiction. }
      simpl. rewrite Hd. rewrite (IH k1 rest1 v eq_refl Hget). reflexivity.
Qed.

(** X17.  when set fails.  [set(key, value)] raises (its [TypeError]) exactly
    when the configuration itself, or what a proper beginning of the key
    leads to, is not a dict.  (With a dict as default, [get] returns a
    non-dict only when it found one.) *)
Theorem config_set_fails_on_scalars config key value :
  Config.set config key value = None <->
  exists p q a,
    Config.split "." key = p ++ q /\ q <> [] /\
    Config.get_keys p config (Config.Dict []) = Config.Leaf a.
Proof.
  unfold Config.set, Config.split.
  destruct (Config.split_parts "." key) as [w ws].
  apply set_keys_fails.
Qed.



(** ** [_deep_merge] *)

(** What [_deep_merge] does for one item of [update]. *)
Lemma deep_merge_cons base key value update :
  Config._deep_merge base ((key, value) :: update) =
    Config._deep_merge
      match dict_get key base, value with
      | Some (Config.Dict b), Config.Dict u =>
          dict_set key (Config.Dict (Config._deep_merge b u)) base
      | _, _ => dict_set key value base
      end
      update.
Proof.
  unfold Config._deep_merge. simpl.
  destruct (dict_get key base) as [[a|b]|]; destruct value as [a'|u];
    reflexivity.
Qed.

(** X19.  deep merge, key by key.  For an [update] with one item per key:
    a key that [update] does not have keeps its value in [base]; a key
    whose values in [base] and in [update] are both dicts gets the merge
    of the two; any other key of [update] gets the value of [update]. *)
Theorem config_deep_merge_lookup base update k :
  NoDup (map fst update) ->
  dict_get k (Config._deep_merge base update) =
    match dict_get k update with
    | None => dict_get k base
    | Some value =>
        Some match dict_get k base, value with
             | Some (Config.Dict b), Config.Dict u =>
                 Config.Dict (Config._deep_merge b u)
             | _, _ => value
             end
    end.
Proof.
  revert base. induction update as [|[key value] update IH]; intros base Hnd.
  - reflexivity.
  - simpl in Hnd. apply NoDup_cons in Hnd. destruct Hnd as [Hkey Hnd].
    rewrite deep_merge_cons. rewrite (IH _ Hnd). simpl.
    destruct (String.eqb key k) eqn:E.
    + apply String.eqb_eq in E. subst key.
      assert (Hnone : dict_get k update = None).
      { clear -Hkey. induction update as [|[k' v'] update IH]; simpl;
          [reflexivity|].
        destruct (String.eqb k' k) eqn:E.
        - apply String.eqb_eq in E. subst k'. exfalso. apply Hkey.
          simpl. apply list_elem_of_here.
        - apply IH. intros Hin. apply Hkey. simpl.
          apply list_elem_of_further. exact Hin. }
      rewrite Hnone.
      destruct (dict_get k base) as [[a|b]|]; destruct value as [a'|u];
        apply dict_get_set_eq.
    + apply String.eqb_neq in E.
      assert (Hbase : dict_get k
                        match dict_get key base, value with
                        | Some (Config.Dict b), Config.Dict u =>
                            dict_set key (Config.Dict (Config._deep_merge b u)) base
                        | _, _ => dict_set key value base
                        end = dict_get k base).
      { destruct (dict_get key base) as [[a|b]|]; destruct value as [a'|u];
          apply dict_get_set_ne; exact E. }
      rewrite Hbase. reflexivity.
Qed.

(** ** [__init__] *)

Lemma deep_merge_absent base update k :
  dict_get k update = None ->
  dict_get k (Config._deep_merge base update) = dict_get k base.
Proof.
  revert base. induction update as [|[key value] update IH]; intros base Hk.
  - reflexivity.
  - simpl in Hk. destruct (String.eqb_spec key k) as [->|Hne]; [discriminate|].
    rewrite deep_merge_cons, (IH _ Hk).
    destruct (dict_get key base) as [[a|b]|]; destruct value as [a'|u];
      apply dict_get_set_ne; exact Hne.
Qed.

Lemma dict_get_absent {V : Type} k (l : list (string * V)) :
  k ∉ map fst l -> dict_get k l = None.
Proof.
  induction l as [|[k' v'] l IH]; simpl; [reflexivity|].
  intros Hk. destruct (String.eqb_spec k' k) as [->|_].
  - exfalso. apply Hk. apply list_elem_of_here.
  - apply IH. intros Hin. apply Hk. apply list_elem_of_further. exact Hin.
Qed.

(** A section of the defaults after the merge: a dict, unless the update
    binds the key to something else. *)
Lemma deep_merge_section base update k b :
  NoDup (map fst update) ->
  dict_get k base = Some (Config.Dict b) ->
  match dict_get k update with
  | Some (Config.Leaf a) =>
      dict_get k (Config._deep_merge base update) = Some (Config.Leaf a)
  | _ => exists b', dict_get k (Config._deep_merge base update)
                    = Some (Config.Dict b')
  end.
Proof.
  revert base b. induction update as [|[key value] update IH];
    intros base b Hnd Hb.
  - simpl. exists b. exact Hb.
  - simpl in Hnd. apply NoDup_cons in Hnd as [Hkey Hnd].
    rewrite deep_merge_cons. cbn [dict_get].
    destruct (String.eqb_spec key k) as [->|Hne].
    + rewrite deep_merge_absent by (apply dict_get_absent; exact Hkey).
      rewrite Hb. destruct value as [a'|u]; rewrite dict_get_set_eq.
      * reflexivity.
      * eexists. reflexivity.
    + apply (IH _ b Hnd).
      destruct (dict_get key base) as [[a|b0]|]; destruct value as [a'|u];
        rewrite dict_get_set_ne by exact Hne; exact Hb.
Qed.

Lemma set_item2_get k1 k2 (v : Config.Value A) d d' :
  Config.set_item2 k1 k2 v d = inr d' ->
  (exists inner, dict_get k1 d' = Some (Config.Dict inner) /\
                 dict_get k2 inner = Some v) /\
  (forall k, k <> k1 -> dict_get k d' = dict_get k d) /\
  (forall inner k,
     dict_get k1 d' = Some (Config.Dict inner) -> k <> k2 ->
     exists inner0, dict_get k1 d = Some (Config.Dict inner0) /\
                    dict_get k inner = dict_get k inner0).
Proof.
  unfold Config.set_item2.
  destruct (dict_get k1 d) as [[a|inner0]|] eqn:Hg; try discriminate.
  intros [= <-]. split; [|split].
  - eexists. split; [apply dict_get_set_eq|apply dict_get_set_eq].
  - intros k Hne. apply dict_get_set_ne. congruence.
  - intros inner k. rewrite dict_get_set_eq. intros [= <-] Hne.
    exists inner0. split; [reflexivity|]. apply dict_get_set_ne. congruence.
Qed.

Lemma set_item2_fails k1 k2 (v : Config.Value A) d e :
  Config.set_item2 k1 k2 v d = inl e ->
  (dict_get k1 d = None /\ e = Config.InitKeyError k1) \/
  (exists a, dict_get k1 d = Some (Config.Leaf a) /\ e = Config.InitTypeError).
Proof.
  unfold Config.set_item2.
  destruct (dict_get k1 d) as [[a|inner0]|] eqn:Hg; try discriminate.
  - intros [= <-]. right. exists a. auto.
  - intros [= <-]. left. auto.
Qed.

(** X20.  the configuration at start-up.  Let the defaults have their
    sections [ai] and [performance], and let the user's file, if any, be
    an object with one item per key.  Then [__init__] fails on
    [self.config] exactly when the file gives [ai] or [performance] a
    value that is not an object, and with [TypeError].  When it succeeds,
    [performance.lazy_loading] is [True], [performance.model_unload_timeout]
    is [60] and [ai.model_hashes] is what [_load_model_hashes] returned,
    whatever the file says about these three. *)
Theorem user_config_cannot_override_performance defaults user_config
    model_hashes (true_ sixty : A) ai performance default :
  dict_get "ai" defaults = Some (Config.Dict ai) ->
  dict_get "performance" defaults = Some (Config.Dict performance) ->
  (forall update, user_config = Some update -> NoDup (map fst update)) ->
  ((exists e, Config.init_config defaults user_config model_hashes true_ sixty
              = inl e) <->
   Config.overrides_with_scalar "ai" user_config \/
   Config.overrides_with_scalar "performance" user_config) /\
  (forall e,
     Config.init_config defaults user_config model_hashes true_ sixty = inl e ->
     e = Config.InitTypeError) /\
  (forall d,
     Config.init_config defaults user_config model_hashes true_ sixty = inr d ->
     Config.get (Config.Dict d) "performance.lazy_loading" default
       = Config.Leaf true_ /\
     Config.get (Config.Dict d) "performance.model_unload_timeout" default
       = Config.Leaf sixty /\
     Config.get (Config.Dict d) "ai.model_hashes" default = model_hashes).
Proof.
  intros Hai Hperf Hnd.
  set (merged := match user_config with
                 | Some update => Config._deep_merge defaults update
                 | None => defaults
                 end).
  assert (Hsec : forall k b,
            dict_get k defaults = Some (Config.Dict b) ->
            (exists a, dict_get k merged = Some (Config.Leaf a) /\
                       Config.overrides_with_scalar k user_config) \/
            (exists b', dict_get k merged = Some (Config.Dict b') /\
                        ~ Config.overrides_with_scalar k user_config)).
  { intros k b Hk. subst merged. destruct user_config as [update|].
    - pose proof (deep_merge_section defaults update k b (Hnd _ eq_refl) Hk) as H.
      destruct (dict_get k update) as [[a|u]|] eqn:Hu.
      + left. exists a. split; [exact H|]. exists update, a. auto.
      + right. destruct H as [b' H]. exists b'. split; [exact H|].
        intros (u' & a & [= <-] & Hx). congruence.
      + right. destruct H as [b' H]. exists b'. split; [exact H|].
        intros (u' & a & [= <-] & Hx). congruence.
    - right. exists b. split; [exact Hk|].
      intros (u' & a & Hx & _). discriminate. }
  remember (Config.init_config defaults user_config model_hashes true_ sixty)
    as r eqn:Hr.
  unfold Config.init_config in Hr. fold merged in Hr.
  destruct (Hsec _ _ Hai) as [(a & Ha & Hoa) | (ai' & Ha & Hoa)].
  { unfold Config.set_item2 in Hr at 1. rewrite Ha in Hr. subst r.
    split; [split; [intros _; left; exact Hoa|intros _; eexists; reflexivity]|].
    split; [intros e [= <-]; reflexivity|intros d0 H; discriminate]. }
  destruct (Config.set_item2 "ai" "model_hashes" model_hashes merged)
    as [e|config1] eqn:H1.
  { apply set_item2_fails in H1 as [[H1 _]|(a & H1 & _)]; congruence. }
  destruct (set_item2_get _ _ _ _ _ H1) as ((ai1 & Hai1 & Hh1) & Hother1 & _).
  assert (Hp1 : dict_get "performance" config1 = dict_get "performance" merged).
  { apply Hother1. discriminate. }
  destruct (Hsec _ _ Hperf) as [(a & Hp & Hop) | (perf' & Hp & Hop)].
  { unfold Config.set_item2 in Hr at 1. rewrite Hp1, Hp in Hr. subst r.
    split; [split; [intros _; right; exact Hop|intros _; eexists; reflexivity]|].
    split; [intros e [= <-]; reflexivity|intros d0 H; discriminate]. }
  destruct (Config.set_item2 "performance" "lazy_loading" (Config.Leaf true_)
              config1) as [e|config2] eqn:H2.
  { apply set_item2_fails in H2 as [[H2 _]|(a & H2 & _)]; congruence. }
  destruct (set_item2_get _ _ _ _ _ H2) as ((p2 & Hp2 & Hl2) & Hother2 & _).
  destruct (Config.set_item2 "performance" "model_unload_timeout"
              (Config.Leaf sixty) config2) as [e|config3] eqn:H3.
  { apply set_item2_fails in H3 as [[H3 _]|(a & H3 & _)]; congruence. }
  destruct (set_item2_get _ _ _ _ _ H3) as ((p3 & Hp3 & Ht3) & Hother3 & Hin3).
  subst r. split.
  { split; [intros [e He]; discriminate|]. intros [H|H]; contradiction. }
  split; [intros e He; discriminate|].
  intros d0 [= <-].
  unfold Config.get.
  change (Config.split "." "performance.lazy_loading")
    with ["performance"; "lazy_loading"]%string.
  change (Config.split "." "performance.model_unload_timeout")
    with ["performance"; "model_unload_timeout"]%string.
  change (Config.split "." "ai.model_hashes")
    with ["ai"; "model_hashes"]%string.
  cbn [Config.get_keys]. rewrite Hp3, Ht3.
  destruct (Hin3 p3 "lazy_loading"%string Hp3) as (p2' & Hp2' & Hsame);
    [discriminate|].
  rewrite Hp2 in Hp2'. injection Hp2' as <-.
  rewrite Hsame, Hl2.
  rewrite (Hother3 "ai"%string), (Hother2 "ai"%string) by discriminate.
  rewrite Hai1, Hh1. auto.
Qed.

End ConfigProperties.

(** * More scenarios *)

Section MoreScenarios.

Import Scenario.

Lemma register_installs_fresh_descriptor_witness :
  lookup_comp "model"
    (components
       (exec (register_component "model" slow_loader None 5)
          (loaded counter_loader (Some ok_unloader))))
    = Some (mkComponent slow_loader None NOT_LOADED PyNone 5 0 0) /\
  calls (exec (register_component "model" slow_loader None 5)
           (loaded counter_loader (Some ok_unloader)))
    = [CallLoader "model"].
Proof.
  destruct (register_installs_fresh_descriptor "model" slow_loader None 5
              (loaded counter_loader (Some ok_unloader)))
    as (st' & Hr & Hl & _ & _ & _ & Hc & _).
  unfold exec. rewrite Hr. simpl. split; [exact Hl|exact Hc].
Defined.

Lemma get_component_errors_witness :
  get_component "ghost" false (registered counter_loader None)
    = (Raise (KeyError "ghost"), registered counter_loader None).
Proof.
  apply (proj1 (get_component_errors "ghost" false
                  (registered counter_loader None))).
  reflexivity.
Defined.

Lemma usage_is_counted_witness :
  exists comp',
    lookup_comp "model"
      (components (exec (get_component "model" false)
                     (loaded counter_loader None))) = Some comp' /\
    access_count comp' = 2.
Proof.
  destruct (usage_is_counted "model" false (loaded counter_loader None)
              (mkComponent counter_loader None LOADED (PyObj 1) 100 0 1)
              (Return (PyObj 1))
              (exec (get_component "model" false) (loaded counter_loader None))
              eq_refl eq_refl)
    as (comp' & Hl & _ & _ & _ & Ha & _).
  exists comp'. split; [exact Hl|exact Ha].
Defined.

Lemma other_names_untouched_witness :
  lookup_comp "model"
    (components (run_op (Register "other" slow_loader None 5)
                   (loaded counter_loader None)))
    = lookup_comp "model" (components (loaded counter_loader None)).
Proof.
  apply (other_names_untouched (Register "other" slow_loader None 5)
           "other" "model" (loaded counter_loader None) eq_refl).
  discriminate.
Defined.

(** The component has no unloader: scheduling, letting the timer fire an
    hour later, evicting and evicting everything leave it loaded. *)
Lemma no_unloader_no_eviction_witness :
  exists comp',
    lookup_comp "model"
      (components
         (run_ops [Schedule "model" (Some 30000);
                   Outside (fun e => mkEnv (clock e + 3600000) (ext e));
                   Fire "model"; Evict "model"; EvictAll;
                   Acquire "model" false]
            (loaded counter_loader None))) = Some comp' /\
    state comp' = LOADED /\ instance comp' = PyObj 1.
Proof.
  destruct (no_unloader_no_eviction "model"
              (mkComponent counter_loader None LOADED (PyObj 1) 100 0 1)
              [Schedule "model" (Some 30000);
               Outside (fun e => mkEnv (clock e + 3600000) (ext e));
               Fire "model"; Evict "model"; EvictAll; Acquire "model" false]
              (loaded counter_loader None) eq_refl eq_refl eq_refl)
    as (comp' & Hl & Hs & Hi & _).
  - repeat constructor; simpl; try tauto. intros [_ H]. discriminate H.
  - exists comp'. auto.
Defined.


Lemma idle_timer_evicts_witness :
  exists st',
    timer_fire "model"
      (set_env (mkEnv 30000 1)
         (exec (schedule_unload "model" (Some 30000))
            (loaded counter_loader (Some ok_unloader))))
      = (Return tt, st') /\
    released "model" st'.
Proof.
  destruct (idle_timer_evicts "model" (Some 30000)
              (mkComponent counter_loader (Some ok_unloader) LOADED (PyObj 1)
                 100 0 1)
              ok_unloader (mkEnv 30000 1) (mkEnv 30000 1)
              (loaded counter_loader (Some ok_unloader))
              eq_refl eq_refl eq_refl)
    as (st' & t & Hf & Hrel & _).
  - simpl. lia.
  - reflexivity.
  - exists st'. auto.
Defined.

Lemma get_status_lists_registry_witness :
  fst (get_status
         (run_ops [Register "model" counter_loader None 100;
                   Acquire "model" false;
                   Outside (fun e => mkEnv 5000 (ext e))] (at_time 1000 start)))
    = Return [("model"%string,
               [("state"%string, SStr "loaded");
                ("idle_seconds"%string, SNum 4000);
                ("access_count"%string, SNum 1)])] /\
  forall entry,
    dict_get "model"
      [("model"%string,
        [("state"%string, SStr "loaded");
         ("idle_seconds"%string, SNum 4000);
         ("access_count"%string, SNum 1)])] = Some entry ->
    dict_get "memory_mb" entry = None.
Proof.
  destruct (get_status_lists_registry
              [Register "model" counter_loader None 100;
               Acquire "model" false;
               Outside (fun e => mkEnv 5000 (ext e))] (mkEnv 1000 0))
    as (status & Hg & _ & _ & Hmem).
  assert (Hs : status =
               [("model"%string,
                 [("state"%string, SStr "loaded");
                  ("idle_seconds"%string, SNum 4000);
                  ("access_count"%string, SNum 1)])]).
  { vm_compute in Hg. injection Hg as <-. reflexivity. }
  subst status. split; [reflexivity|]. intros entry. apply Hmem.
Defined.

Lemma gui_memory_command_needs_memory_mb_witness :
  fst (gui_memory_command
         (run_ops [Register "model" counter_loader None 100;
                   Acquire "model" false] (init (mkEnv 0 0))))
    = Raise (KeyError "memory_mb") /\
  fst (gui_memory_command
         (run_ops [Register "model" counter_loader None 100] (init (mkEnv 0 0))))
    = Return [].
Proof.
  split.
  - refine (f_equal fst
              (proj1 (gui_memory_command_needs_memory_mb
                        [Register "model" counter_loader None 100;
                         Acquire "model" false] (mkEnv 0 0)) _)).
    exists "model"%string. eexists. split; reflexivity.
  - refine (f_equal fst
              (proj2 (gui_memory_command_needs_memory_mb
                        [Register "model" counter_loader None 100] (mkEnv 0 0)) _)).
    intros name comp Hl.
    assert (Hl' : lookup_comp name
                    [("model"%string,
                      mkComponent counter_loader None NOT_LOADED PyNone 100 0 0)]
                  = Some comp) by exact Hl.
    cbn [lookup_comp] in Hl'.
    destruct (String.eqb "model" name); [|discriminate].
    injection Hl' as <-. discriminate.
Defined.

Lemma show_memory_status_lines_witness :
  fst (show_memory_status
         (run_ops [Register "model" retry_loader None 100;
                   Acquire "model" false] (init (mkEnv 0 0))))
    = Return [("model"%string, LineNotLoaded)].
Proof.
  destruct (show_memory_status_lines
              [Register "model" retry_loader None 100; Acquire "model" false]
              (mkEnv 0 0)) as (lines & Hs & _).
  refine (eq_trans (f_equal fst Hs) _). simpl.
  vm_compute in Hs. injection Hs as <-. reflexivity.
Defined.

(** One caller of the slow loader and one caller of another component. *)
Lemma one_thread_inside_witness :
  let cfg :=
    run_thread 0
      (mkConfig
         (exec (register_component "other" counter_loader None 5)
            (registered slow_loader None))
         None [AtCall "model" false; AtCall "other" false]) in
  threads cfg !! O = Some (InLoader "model") /\
  forall cfg', step cfg cfg' -> threads cfg' !! 1%nat = threads cfg !! 1%nat.
Proof.
  set (st0 := exec (register_component "other" counter_loader None 5)
                (registered slow_loader None)).
  set (ths := [AtCall (Inst:=Inst) (Exn:=Exn) "model" false; AtCall "other" false]).
  intros cfg.
  assert (Hrun : nsteps step 1 (mkConfig st0 None ths) cfg).
  { eapply nsteps_l; [eapply (run_thread_step 0); reflexivity|apply nsteps_O]. }
  assert (Hths : Forall (fun pc => holds_lock pc = false) ths)
    by (repeat constructor).
  destruct (one_thread_inside ths st0 1 cfg Hths Hrun) as [_ Hblock].
  split; [reflexivity|].
  intros cfg' Hst.
  apply (Hblock O (InLoader "model") eq_refl eq_refl cfg' 1%nat Hst).
  discriminate.
Defined.

Lemma failing_loader_is_tried_by_every_caller_witness :
  let cfg := run_thread 1 (run_thread 1 (run_thread 0 (run_thread 0
               (callers 2 "model" (registered Examples.failing_loader None))))) in
  calls (shared cfg) = [CallLoader "model"; CallLoader "model"].
Proof.
  assert (Hrun : nsteps step 4
            (callers 2 "model" (registered Examples.failing_loader None))
            (run_thread 1 (run_thread 1 (run_thread 0 (run_thread 0
               (callers 2 "model" (registered Examples.failing_loader None))))))).
  { eapply nsteps_l; [eapply (run_thread_step 0); reflexivity|].
    eapply nsteps_l; [eapply (run_thread_step 0); reflexivity|].
    eapply nsteps_l; [eapply (run_thread_step 1); reflexivity|].
    eapply nsteps_l; [eapply (run_thread_step 1); reflexivity|].
    apply nsteps_O. }
  destruct (failing_loader_is_tried_by_every_caller 2 "model"
              (registered Examples.failing_loader None)
              (mkComponent Examples.failing_loader None NOT_LOADED PyNone 100 0 0)
              4 _ eq_refl (or_introl eq_refl)
              (fun e => ex_intro _ _ (ex_intro _ _ eq_refl)) Hrun)
    as (_ & _ & Hall & _).
  apply Hall. repeat constructor; eexists; reflexivity.
Defined.

Lemma config_get_after_set_witness :
  exists config',
    Config.set Examples.small_config "gui.theme" (Config.Leaf "dark"%string)
      = Some config' /\
    Config.get config' "gui.theme" (Config.Leaf "none"%string)
      = Config.Leaf "dark"%string.
Proof.
  eexists. split; [reflexivity|].
  apply (config_get_after_set Examples.small_config "gui.theme").
  reflexivity.
Defined.

Lemma config_set_fails_on_scalars_witness :
  Config.set Examples.small_config "version.major" (Config.Leaf "15"%string)
    = None.
Proof.
  apply (proj2 (config_set_fails_on_scalars Examples.small_config
                  "version.major" (Config.Leaf "15"%string))).
  exists ["version"%string], ["major"%string], "V15.3.0"%string.
  split; [reflexivity|]. split; [discriminate|reflexivity].
Defined.


Lemma config_deep_merge_lookup_witness :
  dict_get "ai"
    (Config._deep_merge
       [("version"%string, Config.Leaf "V15.3.0"%string);
        ("ai"%string,
         Config.Dict
           [("core_model"%string, Config.Leaf "gemma"%string);
            ("temperature"%string, Config.Leaf "0.7"%string)])]
       Examples.user_config)
    = Some (Config.Dict
              [("core_model"%string, Config.Leaf "gemma"%string);
               ("temperature"%string, Config.Leaf "0.2"%string)]).
Proof.
  rewrite config_deep_merge_lookup; [reflexivity|].
  repeat constructor; simpl; rewrite ?list_elem_of_In; simpl; intuition discriminate.
Defined.

(** The user's file asks for no lazy loading and a timeout of one hour;
    the configuration says [True] and [60]. *)
Lemma user_config_cannot_override_performance_witness :
  exists config,
    Config.init_config Examples.default_config (Some Examples.eager_config)
      (Config.Dict []) "True"%string "60"%string = inr config /\
    Config.get (Config.Dict config) "performance.model_unload_timeout"
      (Config.Leaf "none"%string) = Config.Leaf "60"%string.
Proof.
  eexists. split; [reflexivity|].
  refine (proj1 (proj2 (proj2 (proj2
    (user_config_cannot_override_performance Examples.default_config
       (Some Examples.eager_config) (Config.Dict []) "True"%string "60"%string
       _ _ (Config.Leaf "none"%string) eq_refl eq_refl _)) _ eq_refl))).
  intros update [= <-]. apply (bool_decide_unpack _). reflexivity.
Defined.

(** Load, evict, load again: the instance is the 2 that the second load
    handed out. *)
Lemma instance_follows_state_witness :
  exists comp,
    lookup_comp "model"
      (components
         (run_ops [Register "model" counter_loader (Some ok_unloader) 100;
                   Acquire "model" false;
                   Evict "model";
                   Acquire "model" false] start)) = Some comp /\
    state comp = LOADED /\ instance comp = PyObj 2 /\
    instance comp <> PyNone.
Proof.
  eexists. split; [reflexivity|]. split; [reflexivity|]. split; [reflexivity|].
  refine (proj2 (proj2 (instance_follows_state
            [Register "model" counter_loader (Some ok_unloader) 100;
             Acquire "model" false; Evict "model"; Acquire "model" false]
            (mkEnv 0 0) "model" _ eq_refl) eq_refl) _).
  intros e. discriminate.
Defined.

End MoreScenarios.

(** * The callers *)

(** ** [_verify_model_integrity] *)

Section Integrity.

Variable sha256_hexdigest : list Byte.byte -> string.

Lemma eqb_length s1 s2 :
  String.length s1 <> String.length s2 -> String.eqb s1 s2 = false.
Proof.
  intros Hlen. destruct (String.eqb_spec s1 s2) as [->|_]; [|reflexivity].
  contradiction.
Qed.

(** X21.  the fallback hashes.  A SHA-256 digest in hexadecimal has 64
    characters, and the hashes of the fallback table have 32.  So with
    that table the integrity check of a readable model file returns
    [False] for each of the four models of the table, whatever the file
    contains; for any other model it is skipped and returns [True]. *)
Theorem fallback_hashes_never_verify data model_name :
  (forall d, String.length (sha256_hexdigest d) = 64%nat) ->
  _verify_model_integrity sha256_hexdigest fallback_hashes (Some data) model_name
    = false <->
  model_name ∈ map fst fallback_hashes.
Proof.
  intros Hlen. unfold _verify_model_integrity, fallback_hashes.
  cbn [dict_get map fst].
  repeat match goal with
         | |- context [String.eqb ?k model_name] =>
             destruct (String.eqb_spec k model_name) as [<-|?]
         end;
    try (match goal with
         | |- context [orb ?a ?b] => change (orb a b) with false
         end;
         cbv iota;
         rewrite eqb_length by (rewrite Hlen; vm_compute; discriminate);
         split; [intros _|reflexivity];
         rewrite !elem_of_cons; auto 10).
  split; [discriminate|].
  rewrite !elem_of_cons, elem_of_nil. intuition congruence.
Qed.

End Integrity.

Section CallerProperties.

Context {Inst Exn W : Type}.

Implicit Types (st : State Inst Exn W) (comp : Component Inst Exn W).

(** ** [process_query] *)

Section Queries.

Context {Text Danger : Type}.

Variable generate : PyVal Inst -> Env W -> (Exn + Text) * Env W.
Variable check_dangerous_command : Text -> Exn + Danger.

Lemma get_component_no_live_timer name force_reload comp st :
  lookup_comp name (components st) = Some comp ->
  ~ live_timer name (exec (get_component name force_reload) st).
Proof.
  intros Hl [t [Ht Hf]].
  rewrite (get_component_timers _ _ _ _ Hl) in Ht.
  rewrite lookup_alter_eq in Ht.
  destruct (unload_timers st !! name) as [t0|]; simpl in Ht; [|discriminate].
  injection Ht as <-. simpl in Hf. discriminate.
Qed.

(** X22.  the timer after a query.  With the chat model registered,
    [process_query] counts the request whatever happens.  Afterwards the
    timer of the chat model is running exactly when the model was obtained
    and produced its text, also when the check for dangerous commands then
    raised and the query is reported as failed.  An answered query leaves
    a 60 second timer, and its processing time is the time up to the end
    of the generation. *)
Theorem process_query_arms_the_timer n st comp :
  lookup_comp "chat_model" (components st) = Some comp ->
  let '(r, n', st') := process_query generate check_dangerous_command n st in
  n' = n + 1 /\
  (live_timer "chat_model" st' <->
   exists model st1 text e2,
     get_component "chat_model" false st = (Return model, st1) /\
     generate model (env st1) = (inr text, e2)) /\
  (forall response time id d,
     r = QueryDone response time id d ->
     unload_timers st' !! "chat_model"%string =
       Some (mkTimer 60000 "chat_model" 60000 false) /\
     time = clock (env st') - clock (env st) /\ id = n + 1).
Proof.
  intros Hl. unfold process_query.
  pose proof (get_component_no_live_timer "chat_model" false comp st Hl) as Hdead.
  unfold exec in Hdead.
  destruct (get_component "chat_model" false st) as [[model|e] st1] eqn:Hg;
    simpl in Hdead.
  - destruct (generate model (env st1)) as [[x|text] e2] eqn:Hgen.
    + split; [reflexivity|]. split.
      * split.
        -- intros Hlive. exfalso. apply Hdead. exact Hlive.
        -- intros (m & s & t & e & Heq & Hgen'). injection Heq as Hm Hs; subst m s.
           rewrite Hgen in Hgen'. discriminate.
      * intros ? ? ? ? Hr. discriminate.
    + assert (Ht : unload_timers
                (exec (schedule_unload "chat_model" (Some 60000)) (set_env e2 st1))
                !! "chat_model"%string
              = Some (mkTimer 60000 "chat_model" 60000 false)).
      { unfold exec, schedule_unload. simpl. apply lookup_insert_eq. }
      destruct (check_dangerous_command text) as [x|d]; simpl.
      * split; [reflexivity|]. split.
        -- split; [|intros _; eexists; split; [exact Ht|reflexivity]].
           intros _. exists model, st1, text, e2. auto.
        -- intros ? ? ? ? Hr. discriminate.
      * split; [reflexivity|]. split.
        -- split; [|intros _; eexists; split; [exact Ht|reflexivity]].
           intros _. exists model, st1, text, e2. auto.
        -- intros ? ? ? ? Hr. injection Hr as <- <- <- <-.
           split; [exact Ht|]. split; reflexivity.
  - split; [reflexivity|]. split.
    + split.
      * intros Hlive. exfalso. apply Hdead. exact Hlive.
      * intros (m & s & t & e' & Heq & _). discriminate.
    + intros ? ? ? ? Hr. discriminate.
Qed.





End Queries.
End CallerProperties.

(** * The search cache *)

Section CacheProperties.

Context {Inst Exn W : Type}.

Implicit Types (st : State Inst Exn W) (a : Agent) (c : list (string * Entry)).

(** ** The dict of entries *)

Lemma dict_del_other {V : Type} k k' (v : V) (d : list (string * V)) :
  k' <> k -> dict_del k ((k', v) :: d) = (k', v) :: dict_del k d.
Proof.
  intros Hne. simpl.
  destruct (String.eqb_spec k' k) as [->|_]; [contradiction|reflexivity].
Qed.

Lemma dict_del_head {V : Type} k (v : V) (d : list (string * V)) :
  dict_del k ((k, v) :: d) = d.
Proof. simpl. rewrite String.eqb_refl. reflexivity. Qed.

Lemma fold_del_skip {V : Type} ks k (v : V) (d : list (string * V)) :
  k ∉ ks ->
  fold_left (fun d0 key => dict_del key d0) ks ((k, v) :: d) =
    (k, v) :: fold_left (fun d0 key => dict_del key d0) ks d.
Proof.
  revert d. induction ks as [|k0 ks IH]; intros d Hk; [reflexivity|].
  cbn [fold_left]. rewrite dict_del_other.
  - apply IH. intros Hin. apply Hk. right. exact Hin.
  - intros ->. apply Hk. left.
Qed.

Lemma expired_keys_subset cutoff c k :
  k ∈ expired_keys cutoff c -> k ∈ map fst c.
Proof.
  induction c as [|[k0 e0] c IH]; simpl; [auto|].
  destruct (timestamp_or_0 e0 <? cutoff).
  - intros [->|Hin]%elem_of_cons; [left|right; auto].
  - intros Hin. right. auto.
Qed.

Lemma clean_is_filter cutoff c :
  NoDup (map fst c) ->
  fold_left (fun d0 key => dict_del key d0) (expired_keys cutoff c) c =
    List.filter (kept cutoff) c.
Proof.
  induction c as [|[k e] c IH]; intros Hnd; [reflexivity|].
  apply NoDup_cons in Hnd as [Hk Hnd].
  cbn [expired_keys List.filter]. unfold kept at 1. cbn [snd].
  destruct (timestamp_or_0 e <? cutoff); cbn [negb].
  - cbn [fold_left]. rewrite dict_del_head. apply IH, Hnd.
  - rewrite fold_del_skip.
    + f_equal. apply IH, Hnd.
    + intros Hin. apply Hk. eapply expired_keys_subset, Hin.
Qed.

Lemma dict_get_filter (Q : string * Entry -> bool) k e c :
  dict_get k c = Some e ->
  Q (k, e) = true ->
  dict_get k (List.filter Q c) = Some e.
Proof.
  induction c as [|[k0 e0] c IH]; [discriminate|].
  cbn [dict_get List.filter].
  destruct (String.eqb_spec k0 k) as [->|Hne].
  - intros [= ->] HQ. rewrite HQ. simpl. rewrite String.eqb_refl. reflexivity.
  - intros Hg HQ. destruct (Q (k0, e0)); [|auto].
    simpl. destruct (String.eqb_spec k0 k) as [->|_]; [contradiction|auto].
Qed.

(** X24.  cleaning the cache.  On a cache with one entry per key,
    [_clean_cache] keeps exactly the entries whose timestamp (0 when the
    entry has none) is not before [time.time() - cache_duration], in their
    order, and leaves [last_search_time] alone.  Every entry that [search]
    would still serve from the cache at that moment is kept. *)
Theorem clean_cache_keeps_the_fresh cache_duration a st :
  NoDup (map fst (cache a)) ->
  cache (_clean_cache cache_duration a st) =
    List.filter (kept (clock (env st) - cache_duration)) (cache a) /\
  last_search_time (_clean_cache cache_duration a st) = last_search_time a /\
  (forall key entry,
     dict_get key (cache a) = Some entry ->
     clock (env st) - timestamp_or_0 entry < cache_duration ->
     dict_get key (cache (_clean_cache cache_duration a st)) = Some entry).
Proof.
  intros Hnd.
  assert (Hc : cache (_clean_cache cache_duration a st) =
               List.filter (kept (clock (env st) - cache_duration)) (cache a)).
  { unfold _clean_cache. cbn [cache]. apply clean_is_filter, Hnd. }
  split; [exact Hc|]. split; [reflexivity|].
  intros key entry Hg Hage. rewrite Hc.
  apply dict_get_filter; [exact Hg|].
  unfold kept. cbn [snd]. apply negb_true_iff, Z.ltb_ge. lia.
Qed.

(** ** The statistics *)

Lemma count_ages now c d :
  let d' := fold_left (count_age now) (map snd c) d in
  last_hour d' =
    last_hour d +
    Z.of_nat (length (List.filter (fun item => age_of now item <? 3600000) c)) /\
  last_day d' =
    last_day d +
    Z.of_nat (length (List.filter
      (fun item => (3600000 <=? age_of now item) && (age_of now item <? 86400000)) c)) /\
  older d' =
    older d +
    Z.of_nat (length (List.filter (fun item => 86400000 <=? age_of now item) c)) /\
  last_hour d' + last_day d' + older d' =
    last_hour d + last_day d + older d + Z.of_nat (length c).
Proof.
  revert d. induction c as [|[k e] c IH]; intros d.
  { simpl. lia. }
  cbn [map fold_left snd List.filter length].
  specialize (IH (count_age now d e)). cbv zeta in IH.
  destruct IH as (H1 & H2 & H3 & H4).
  cbv zeta.
  split; [rewrite H1|split; [rewrite H2|split; [rewrite H3|rewrite H4]]];
    unfold count_age, age_of; cbn [snd];
    destruct (Z.ltb_spec (now - timestamp_or_0 e) 3600000);
    destruct (Z.ltb_spec (now - timestamp_or_0 e) 86400000);
    destruct (Z.leb_spec 3600000 (now - timestamp_or_0 e));
    destruct (Z.leb_spec 86400000 (now - timestamp_or_0 e));
    try lia; cbn [andb length last_hour last_day older]; lia.
Qed.

(** X25.  the statistics of the cache.  The three counters of
    [get_cache_stats] partition the cache by age at the time of the call:
    under one hour, from one hour to under one day, one day and more; they
    add up to [total_entries]. *)
Theorem cache_stats_partition a st :
  let now := clock (env st) in
  let '(total_entries, d) := get_cache_stats a st in
  total_entries = Z.of_nat (length (cache a)) /\
  last_hour d =
    Z.of_nat (length (List.filter (fun item => age_of now item <? 3600000)
                        (cache a))) /\
  last_day d =
    Z.of_nat (length (List.filter
      (fun item => (3600000 <=? age_of now item) && (age_of now item <? 86400000))
      (cache a))) /\
  older d =
    Z.of_nat (length (List.filter (fun item => 86400000 <=? age_of now item)
                        (cache a))) /\
  last_hour d + last_day d + older d = total_entries.
Proof.
  unfold get_cache_stats. cbv zeta.
  destruct (count_ages (clock (env st)) (cache a) (mkAges 0 0 0))
    as (H1 & H2 & H3 & H4).
  cbv zeta in *. simpl in *.
  split; [reflexivity|]. repeat split; assumption.
Qed.

Lemma filter_none {A : Type} (Q : A -> bool) (l : list A) :
  (forall x, In x l -> Q x = false) -> List.filter Q l = [].
Proof.
  induction l as [|x l IH]; intros H; [reflexivity|].
  simpl. rewrite (H x) by (left; reflexivity).
  apply IH. intros y Hy. apply H. right. exact Hy.
Qed.

(** X26.  statistics of a clean cache.  Right after [_clean_cache] (same
    clock) no entry counts as [older] when [cache_duration] is under one
    day, and none counts under [last_day] either when it is under one
    hour. *)
Theorem cleaned_cache_has_no_old_entries cache_duration a st :
  NoDup (map fst (cache a)) ->
  let d := snd (get_cache_stats (_clean_cache cache_duration a st) st) in
  (cache_duration < 86400000 -> older d = 0) /\
  (cache_duration < 3600000 -> last_day d = 0).
Proof.
  intros Hnd. cbv zeta.
  unfold get_cache_stats. cbn [snd].
  destruct (count_ages (clock (env st))
              (cache (_clean_cache cache_duration a st)) (mkAges 0 0 0))
    as (_ & H2 & H3 & _).
  cbv zeta in *. rewrite H2, H3. cbn [older last_day].
  assert (Hc : cache (_clean_cache cache_duration a st) =
               List.filter (kept (clock (env st) - cache_duration)) (cache a)).
  { unfold _clean_cache. cbn [cache]. apply clean_is_filter, Hnd. }
  rewrite Hc.
  split; intros Hd; rewrite filter_none; try reflexivity;
    intros [k e] [_ Hk]%filter_In; unfold kept in Hk; cbn [snd] in Hk;
    apply negb_true_iff, Z.ltb_ge in Hk; unfold age_of; cbn [snd].
  - apply Z.leb_gt. lia.
  - apply andb_false_iff. left. apply Z.leb_gt. lia.
Qed.

(** ** [search] *)

Section Searches.

Variable text : PyVal Inst -> string -> Z -> Env W
                -> (Exn + list (list (string * string))) * Env W.
Variable _save_cache : list (string * Entry) -> Env W -> Env W.

Lemma rate_limit_clock a st :
  clock (env (rate_limit a st)) =
    Z.max (clock (env st)) (last_search_time a + min_search_interval).
Proof.
  unfold rate_limit, sleep, min_search_interval.
  destruct (Z.ltb_spec (clock (env st) - last_search_time a) 2000); simpl; lia.
Qed.

Lemma rate_limit_rest a st :
  components (rate_limit a st) = components st /\
  unload_timers (rate_limit a st) = unload_timers st /\
  calls (rate_limit a st) = calls st /\
  ext (env (rate_limit a st)) = ext (env st).
Proof.
  unfold rate_limit, sleep.
  destruct (clock (env st) - last_search_time a <? min_search_interval);
    simpl; auto.
Qed.

(** X27.  asking again.  A search that went to the engine leaves an entry
    with its results under the key of the query.  While that entry is
    younger than [cache_duration] (on the clock after rate limiting), the
    same query with the same [max_results] is answered from the cache with
    the same results: the agent's fields stay as they are and of the
    manager only the clock moves, so the engine is neither loaded nor
    called and no unload is scheduled.  The clock moves because rate
    limiting comes first: an answer from the cache, too, waits until two
    seconds after the last search that went to the engine. *)
Theorem repeated_search_is_served_from_cache cache_duration query max_results
    use_cache a st rs n a1 st1 :
  search text _save_cache cache_duration query max_results use_cache a st =
    (Return (Searched query rs n), a1, st1) ->
  exists stamp,
    dict_get (cache_key query max_results) (cache a1) =
      Some (mkEntry (Some query) (Some rs) (Some stamp) (Some n)) /\
    forall st2,
      let st3 := rate_limit a1 st2 in
      clock (env st3) - stamp < cache_duration ->
      search text _save_cache cache_duration query max_results true a1 st2 =
        (Return (FromCache query rs (clock (env st3) - stamp)), a1, st3) /\
      components st3 = components st2 /\
      unload_timers st3 = unload_timers st2 /\
      calls st3 = calls st2 /\
      clock (env st3) =
        Z.max (clock (env st2)) (last_search_time a1 + min_search_interval).
Proof.
  intros Hs.
  assert (Hentry : exists stamp,
            dict_get (cache_key query max_results) (cache a1) =
              Some (mkEntry (Some query) (Some rs) (Some stamp) (Some n))).
  { revert Hs. unfold search. cbv zeta.
    assert (Hq : forall a0 s0 r,
               (let '(r0, a', st') :=
                  search_engine_query text _save_cache query max_results a0 s0 in
                (Return (Exn:=Exn) r0, a', st')) = (Return r, a1, st1) ->
               r = Searched query rs n ->
               exists stamp,
                 dict_get (cache_key query max_results) (cache a1) =
                   Some (mkEntry (Some query) (Some rs) (Some stamp) (Some n))).
    { intros a0 s0 r. unfold search_engine_query.
      destruct (get_component "search_engine" false s0) as [[v|e] s1].
      - destruct (text v query max_results (env s1)) as [[x|hits] e2].
        + intros [= <- <- <-]. discriminate.
        + intros [= <- <- <-] [= <- <-]. cbn [cache].
          exists (clock e2). apply dict_get_set_eq.
      - intros [= <- <- <-]. discriminate. }
    destruct use_cache.
    - destruct (dict_get (cache_key query max_results) (cache a)) as [e|].
      + destruct (_ <? cache_duration).
        * destruct (results e); intros [= ]; discriminate.
        * intros H. eapply Hq; [exact H|reflexivity].
      + intros H. eapply Hq; [exact H|reflexivity].
    - intros H. eapply Hq; [exact H|reflexivity]. }
  destruct Hentry as [stamp Hentry]. exists stamp. split; [exact Hentry|].
  intros st2. cbv zeta. intros Hage.
  split;
    [|destruct (rate_limit_rest a1 st2) as (? & ? & ? & _);
      pose proof (rate_limit_clock a1 st2); auto].
  unfold search. cbv zeta. rewrite Hentry.
  unfold timestamp_or_0. cbn [timestamp results].
  destruct (Z.ltb_spec (clock (env (rate_limit a1 st2)) - stamp)
              cache_duration) as [_|Hge]; [reflexivity|].
  lia.
Qed.





End Searches.
End CacheProperties.

(** * Scenarios of the callers *)

Section CallerScenarios.

Import Scenario CallerExamples.

(** A query that is answered leaves the timer of the chat model running. *)
Lemma process_query_arms_the_timer_witness :
  live_timer "chat_model"
    (snd (process_query answer no_danger 0 chat_registered)).
Proof.
  pose proof (process_query_arms_the_timer answer no_danger 0 chat_registered
                (mkComponent counter_loader (Some ok_unloader) NOT_LOADED
                   PyNone 1600 0 0) eq_refl) as H.
  destruct (process_query answer no_danger 0 chat_registered)
    as [[r n'] st'] eqn:E.
  destruct H as (_ & Hiff & _). apply Hiff.
  exists (PyObj 1), (exec (get_component "chat_model" false) chat_registered),
    "hello"%string, (mkEnv 1500 1).
  split; reflexivity.
Defined.


(** One hour after the clock read 9500 s, cleaning keeps the entry written
    at 9000 s only. *)
Lemma clean_cache_keeps_the_fresh_witness :
  map fst
    (cache (_clean_cache 3600000 old_cache
              (set_env (mkEnv 9500000 0) engine_registered)))
    = ["c_5"%string].
Proof.
  assert (Hnd : NoDup (map fst (cache old_cache))).
  { apply (bool_decide_unpack _). reflexivity. }
  rewrite (proj1 (clean_cache_keeps_the_fresh 3600000 old_cache
                    (set_env (mkEnv 9500000 0) engine_registered) Hnd)).
  reflexivity.
Defined.

Lemma cleaned_cache_has_no_old_entries_witness :
  older
    (snd (get_cache_stats
            (_clean_cache 3600000 old_cache
               (set_env (mkEnv 9500000 0) engine_registered))
            (set_env (mkEnv 9500000 0) engine_registered))) = 0.
Proof.
  assert (Hnd : NoDup (map fst (cache old_cache))).
  { apply (bool_decide_unpack _). reflexivity. }
  apply (proj1 (cleaned_cache_has_no_old_entries 3600000 old_cache
                  (set_env (mkEnv 9500000 0) engine_registered) Hnd)).
  reflexivity.
Defined.

(** The first search goes to the engine; the same query one minute later
    is answered from the cache, and the engine has been called once. *)
Lemma repeated_search_is_served_from_cache_witness :
  exists a1 st1 hits age st3,
    search one_page write_file 3600000 "rocq" 5 true no_cache engine_registered
      = (Return (Searched "rocq" hits 1), a1, st1) /\
    search one_page write_file 3600000 "rocq" 5 true a1
      (set_env (mkEnv 60000 1) st1)
      = (Return (FromCache "rocq" hits age), a1, st3) /\
    calls st3 = [CallLoader "search_engine"].
Proof.
  set (a1 := snd (fst (search one_page write_file 3600000 "rocq" 5 true
                         no_cache engine_registered))).
  set (st1 := snd (search one_page write_file 3600000 "rocq" 5 true
                     no_cache engine_registered)).
  assert (E : search one_page write_file 3600000 "rocq" 5 true no_cache
                engine_registered
              = (Return (Searched "rocq"
                   [mkHit "Rocq" "https://rocq-prover.org" "" "duckduckgo"] 1),
                 a1, st1)) by reflexivity.
  destruct (repeated_search_is_served_from_cache one_page write_file 3600000
              "rocq" 5 true no_cache engine_registered _ _ _ _ E)
    as (stamp & Hentry & Hagain).
  assert (Hstamp : stamp = 2300).
  { vm_compute in Hentry. injection Hentry as Hs. symmetry. exact Hs. }
  subst stamp.
  destruct (Hagain (set_env (mkEnv 60000 1) st1)) as (Hs & _ & _ & Hc & _).
  - vm_compute. reflexivity.
  - exists a1, st1. do 3 eexists. split; [exact E|]. split; [exact Hs|].
    rewrite Hc. reflexivity.
Defined.

(** With a digest function of the right length, the model that ships by
    default fails the check. *)
Lemma fallback_hashes_never_verify_witness :
  _verify_model_integrity
    (fun _ => "0000000000000000000000000000000000000000000000000000000000000000"%string)
    fallback_hashes (Some []) "gemma-2-2b-it-Q4_K_M" = false.
Proof.
  apply (proj2 (fallback_hashes_never_verify
                  (fun _ => "0000000000000000000000000000000000000000000000000000000000000000"%string)
                  [] "gemma-2-2b-it-Q4_K_M" (fun _ => eq_refl))).
  apply list_elem_of_here.
Defined.

End CallerScenarios.
